(** * gpt-load: channel adapters, model registry, metrics and playground

    A shallow embedding of the Go sources
      internal/channel/openai_channel.go, internal/channel/anthropic_channel.go,
      internal/services/model_service.go, internal/prometheus/metrics.go and
      the playground handler,
    together with the properties the specification states about them.

    Conventions.  Go [string] and [[]byte] are byte strings ([string]); Go
    [int], [int64] and [uint] are [Z]; an [error] is identified with the text
    of its [Error()] method, and [fmt.Errorf("...: %w", err)] is string
    concatenation; a Go pair [(v, err)] is a sum [error + V].  Calls that
    leave the process (the HTTP client, the encryption service) and library
    routines whose code is not part of the repository (encoding/json, net/url,
    the upstream-error parser, the header-rule engine) are the fields of the
    class [External] or variables of the section that uses them. *)

From stdpp Require Import base option list strings pretty gmap.
From Stdlib Require Import ZArith Lia Ascii.

Open Scope string_scope.
Open Scope Z_scope.

Definition error := string.
Definition bytes := string.

(** ** The pieces of the Go standard library the sources call *)

Module GoStrings.

(** [strings.HasPrefix] *)
Fixpoint HasPrefix (s p : string) {struct p} : bool :=
  match p with
  | EmptyString => true
  | String c p' =>
      match s with
      | EmptyString => false
      | String d s' => if Ascii.eqb c d then HasPrefix s' p' else false
      end
  end.

(** [strings.Contains]: [substr] occurs at some offset of [s]. *)
Fixpoint Contains (s substr : string) : bool :=
  HasPrefix s substr ||
  match s with
  | EmptyString => false
  | String _ s' => Contains s' substr
  end.

(** What [Contains] decides. *)
Definition occurs_in (substr s : string) : Prop :=
  ∃ pre suf, s = pre +:+ substr +:+ suf.

(** [strings.TrimRight s cutset]: drop every trailing byte that belongs to
    [cutset]. *)
Fixpoint in_cutset (c : Ascii.ascii) (cutset : string) : bool :=
  match cutset with
  | EmptyString => false
  | String d cutset' => Ascii.eqb c d || in_cutset c cutset'
  end.

Fixpoint TrimRight (s cutset : string) : string :=
  match s with
  | EmptyString => EmptyString
  | String c s' =>
      match TrimRight s' cutset with
      | EmptyString => if in_cutset c cutset then EmptyString else String c EmptyString
      | t => String c t
      end
  end.

(** [strconv.Itoa], and the [%d] verb of [fmt]. *)
Definition Itoa (n : Z) : string := pretty n.

(** The last byte of a string, if any. *)
Fixpoint last_byte (s : string) : option Ascii.ascii :=
  match s with
  | EmptyString => None
  | String c EmptyString => Some c
  | String _ s' => last_byte s'
  end.

End GoStrings.

Module GoNet.

(** [net/textproto.CanonicalMIMEHeaderKey]: a key made of token bytes gets an
    upper-case first letter and an upper-case letter after every hyphen, all
    other letters lower-case; a key with another byte in it is returned
    unchanged. *)
Definition is_upper (n : N) : bool := ((65 <=? n) && (n <=? 90))%N.
Definition is_lower (n : N) : bool := ((97 <=? n) && (n <=? 122))%N.
Definition is_digit (n : N) : bool := ((48 <=? n) && (n <=? 57))%N.

Definition validHeaderFieldByte (c : ascii) : bool :=
  let n := N_of_ascii c in
  is_upper n || is_lower n || is_digit n ||
  GoStrings.in_cutset c "!#$%&'*+-.^_`|~".

Definition to_upper (c : ascii) : ascii :=
  let n := N_of_ascii c in if is_lower n then ascii_of_N (n - 32) else c.
Definition to_lower (c : ascii) : ascii :=
  let n := N_of_ascii c in if is_upper n then ascii_of_N (n + 32) else c.

Fixpoint all_valid (s : string) : bool :=
  match s with
  | EmptyString => true
  | String c s' => validHeaderFieldByte c && all_valid s'
  end.

Fixpoint canonical_go (upper : bool) (s : string) : string :=
  match s with
  | EmptyString => EmptyString
  | String c s' =>
      String (if upper then to_upper c else to_lower c)
             (canonical_go (Ascii.eqb c "-") s')
  end.

Definition CanonicalMIMEHeaderKey (s : string) : string :=
  if all_valid s then canonical_go true s else s.

(** [http.Header]: canonical key to the list of its values. *)
Abbreviation Header := (gmap string (list string)).

Definition Header_Get (h : Header) (key : string) : string :=
  match h !! CanonicalMIMEHeaderKey key with
  | Some (v :: _) => v
  | _ => ""
  end.

Definition Header_Set (h : Header) (key value : string) : Header :=
  <[CanonicalMIMEHeaderKey key := [value]]> h.

(** [url.URL], the fields the sources read or write. *)
Record URL := mkURL {
  Scheme : string;
  User : option string;
  Host : string;
  Path : string;
  RawPath : string;
  RawQuery : string;
  Fragment : string
}.

(** [u.Path = p] and [u.RawQuery = q] on a copy of the struct. *)
Definition set_Path (u : URL) (p : string) : URL :=
  mkURL (Scheme u) (User u) (Host u) p (RawPath u) (RawQuery u) (Fragment u).
Definition set_RawQuery (u : URL) (q : string) : URL :=
  mkURL (Scheme u) (User u) (Host u) (Path u) (RawPath u) q (Fragment u).

(** [http.Request] as the sources build it; [ReqURL] is the text handed to
    [http.NewRequest]. *)
Record Request := mkRequest {
  Method : string;
  ReqURL : string;
  ReqHeader : Header;
  ReqBody : option bytes
}.

Definition Request_SetHeader (r : Request) (key value : string) : Request :=
  mkRequest (Method r) (ReqURL r) (Header_Set (ReqHeader r) key value) (ReqBody r).

(** [http.Response]: the status code, and what [io.ReadAll(resp.Body)] gives:
    the bytes read and the error, if any, that ended the read. *)
Record Response := mkResponse {
  StatusCode : Z;
  BodyData : bytes;
  BodyErr : option error
}.

Definition ReadAll (r : Response) : bytes * option error := (BodyData r, BodyErr r).

(** [gin.Context]: the inbound request's header and its parsed query. *)
Record Context := mkContext {
  CtxHeader : Header;
  CtxQuery : gmap string (list string)
}.

Definition GetHeader (c : Context) (key : string) : string :=
  Header_Get (CtxHeader c) key.

(** [c.Query(key)]: the first value of the key, or the empty string. *)
Definition Query (c : Context) (key : string) : string :=
  match CtxQuery c !! key with
  | Some (v :: _) => v
  | _ => ""
  end.

End GoNet.

(** A [float64] is carried as its IEEE 754 bit pattern ([math.Float64bits]);
    the sources never compute with one. *)
Record float64 := Float64frombits { Float64bits : Z }.

(** What [encoding/json] decodes into [interface{}], and what [gin.H] and
    [map[string]interface{}] literals denote. *)
#[warnings="-register-all"]
Inductive JSON :=
  | JNull
  | JBool (b : bool)
  | JInt (n : Z)
  | JNumber (f : float64)
  | JString (s : string)
  | JArray (l : list JSON)
  | JObject (fields : list (string * JSON)).

(** ** internal/models *)

Definition Time := Z.

Module HeaderRule.
Record t := mk { Action : string; Key : string; Value : string }.
End HeaderRule.

Module UpstreamInfo.
Record t := mk { URL : string; Weight : Z }.
End UpstreamInfo.

Module Group.
(** Modelled from the spec: the [models.Group] struct is not among the
    sources; these are the attributes of section 3 that the code reads. *)
Record t := mk {
  ID : Z;
  Name : string;
  ChannelType : string;
  Upstreams : list UpstreamInfo.t;
  HeaderRuleList : list HeaderRule.t;
  ValidationEndpoint : string;
  TestModel : string
}.
End Group.

Inductive KeyStatus := KeyStatusActive | KeyStatusInvalid.

Global Instance KeyStatus_eq_dec : EqDecision KeyStatus.
Proof. solve_decision. Defined.

Module APIKey.
(** Modelled from the spec: the [models.APIKey] struct is not among the
    sources. *)
Record t := mk {
  ID : Z;
  GroupID : Z;
  KeyValue : string;
  Status : KeyStatus
}.
End APIKey.

Module ModelCapabilities.
(** Modelled from the spec: the [models.ModelCapabilities] struct is not among
    the sources; the fields are those of section 3, under the names the code
    uses for them. *)
Record t := mk {
  ID : Z;
  GroupID : Z;
  ModelID : string;
  ModelName : string;
  SupportsStreaming : bool;
  SupportsVision : bool;
  SupportsFunctions : bool;
  MaxTokens : option Z;
  MaxInputTokens : option Z;
  MaxOutputTokens : option Z;
  CustomCapabilities : JSON;
  IsAutoFetched : bool;
  LastFetchedAt : option Time
}.

Definition set_SupportsFunctions (c : t) (b : bool) : t :=
  mk (ID c) (GroupID c) (ModelID c) (ModelName c) (SupportsStreaming c)
     (SupportsVision c) b (MaxTokens c) (MaxInputTokens c) (MaxOutputTokens c)
     (CustomCapabilities c) (IsAutoFetched c) (LastFetchedAt c).
Definition set_SupportsVision (c : t) (b : bool) : t :=
  mk (ID c) (GroupID c) (ModelID c) (ModelName c) (SupportsStreaming c)
     b (SupportsFunctions c) (MaxTokens c) (MaxInputTokens c) (MaxOutputTokens c)
     (CustomCapabilities c) (IsAutoFetched c) (LastFetchedAt c).
End ModelCapabilities.

(** ** What the sources take from outside the repository

    [url_Parse] and [URL_String] are [net/url]'s [Parse] and the [String] method of a URL;
    the [json_] fields are [encoding/json] at the struct each call site
    decodes into; [ParseUpstreamError] is the shared upstream-error parser of
    [internal/errors]; [ApplyHeaderRules] is the header-rule engine of
    [internal/utils], which rewrites the header of the outgoing request. *)

Module OpenAIModel.
Record t := mk { ID : string; Object : string; OwnedBy : string }.
End OpenAIModel.

Module AnthropicModel.
Record t := mk { ID : string; Type_ : string; DisplayName : string }.
End AnthropicModel.

Definition HeaderVariableContext : Type := Group.t * APIKey.t.
Definition NewHeaderVariableContext (group : Group.t) (apiKey : APIKey.t)
  : HeaderVariableContext := (group, apiKey).

Class External := {
  url_Parse : string → error + GoNet.URL;
  URL_String : GoNet.URL → string;
  json_Marshal : JSON → error + bytes;
  json_Unmarshal_map : bytes → error + list (string * JSON);
  json_Unmarshal_streamPayload : bytes → error + bool;
  json_Unmarshal_modelPayload : bytes → error + string;
  json_Unmarshal_openaiModels : bytes → error + list OpenAIModel.t;
  json_Unmarshal_anthropicModels : bytes → error + list AnthropicModel.t;
  ParseUpstreamError : bytes → string;
  ApplyHeaderRules :
    GoNet.Header → list HeaderRule.t → HeaderVariableContext → GoNet.Header
}.

(** [http.NewRequestWithContext]: fails when the URL text does not parse. *)
Definition NewRequest `{External} (method url : string) (body : option bytes)
  : error + GoNet.Request :=
  match url_Parse url with
  | inl err => inl err
  | inr _ => inr (GoNet.mkRequest method url ∅ body)
  end.

(** ** internal/channel *)

Module BaseChannel.
Record t := mk {
  Name : string;
  Upstreams : list string;
  HTTPClient : GoNet.Request → error + GoNet.Response;
  TestModel : string;
  ValidationEndpoint : string
}.

(** Modelled from the spec: [getUpstreamURL] is defined on the base channel,
    which is not among the sources; it "returns the first entry of
    Group.upstreams parsed as a URL (fails if empty or unparseable)". *)
Definition getUpstreamURL `{External} (ch : t) : option GoNet.URL :=
  match Upstreams ch with
  | [] => None
  | u :: _ => match url_Parse u with inl _ => None | inr x => Some x end
  end.
End BaseChannel.

(** The header-rule step both adapters share:
    [if len(group.HeaderRuleList) > 0 { ... ApplyHeaderRules(req, ...) }]. *)
Definition applyGroupHeaderRules `{External} (req : GoNet.Request)
    (group : Group.t) (apiKey : APIKey.t) : GoNet.Request :=
  if (0 <? Z.of_nat (length (Group.HeaderRuleList group))) then
    GoNet.mkRequest (GoNet.Method req) (GoNet.ReqURL req)
      (ApplyHeaderRules (GoNet.ReqHeader req) (Group.HeaderRuleList group)
         (NewHeaderVariableContext group apiKey))
      (GoNet.ReqBody req)
  else req.

(** The URL of a validation probe (lines 90-92 of both adapters):
    [finalURL := *upstreamURL;
     finalURL.Path = strings.TrimRight(finalURL.Path, "/") + endpointURL.Path;
     finalURL.RawQuery = endpointURL.RawQuery]. *)
Definition probeURL (upstreamURL endpointURL : GoNet.URL) : GoNet.URL :=
  let finalURL := upstreamURL in
  let finalURL :=
    GoNet.set_Path finalURL
      (GoStrings.TrimRight (GoNet.Path finalURL) "/" +:+ GoNet.Path endpointURL) in
  GoNet.set_RawQuery finalURL (GoNet.RawQuery endpointURL).

Module OpenAIChannel.
Section Adapter.
Context `{External}.

Definition ModifyRequest (req : GoNet.Request) (apiKey : APIKey.t) (group : Group.t)
  : GoNet.Request :=
  GoNet.Request_SetHeader req "Authorization" ("Bearer " +:+ APIKey.KeyValue apiKey).

Definition IsStreamRequest (c : GoNet.Context) (bodyBytes : bytes) : bool :=
  if GoStrings.Contains (GoNet.GetHeader c "Accept") "text/event-stream" then true
  else if String.eqb (GoNet.Query c "stream") "true" then true
  else
    match json_Unmarshal_streamPayload bodyBytes with
    | inr stream => stream
    | inl _ => false
    end.

Definition ExtractModel (c : GoNet.Context) (bodyBytes : bytes) : string :=
  match json_Unmarshal_modelPayload bodyBytes with
  | inr model => model
  | inl _ => ""
  end.

(** [ValidateKey] up to the dispatch (lines 78-118): the probe request, or
    the error that prevents it. *)
Definition ValidateKey_request (ch : BaseChannel.t) (apiKey : APIKey.t) (group : Group.t)
  : error + GoNet.Request :=
  match BaseChannel.getUpstreamURL ch with
  | None => inl ("no upstream URL configured for channel " +:+ BaseChannel.Name ch)
  | Some upstreamURL =>
      match url_Parse (BaseChannel.ValidationEndpoint ch) with
      | inl err => inl ("failed to parse validation endpoint: " +:+ err)
      | inr endpointURL =>
          let finalURL := probeURL upstreamURL endpointURL in
          let reqURL := URL_String finalURL in
          let payload :=
            JObject [("model", JString (BaseChannel.TestModel ch));
                     ("messages",
                      JArray [JObject [("role", JString "user");
                                       ("content", JString "hi")]])] in
          match json_Marshal payload with
          | inl err => inl ("failed to marshal validation payload: " +:+ err)
          | inr body =>
              match NewRequest "POST" reqURL (Some body) with
              | inl err => inl ("failed to create validation request: " +:+ err)
              | inr req =>
                  let req := GoNet.Request_SetHeader req "Authorization"
                               ("Bearer " +:+ APIKey.KeyValue apiKey) in
                  let req := GoNet.Request_SetHeader req "Content-Type" "application/json" in
                  inr (applyGroupHeaderRules req group apiKey)
              end
          end
      end
  end.

Definition ValidateKey (ch : BaseChannel.t) (apiKey : APIKey.t) (group : Group.t)
  : bool * option error :=
  match ValidateKey_request ch apiKey group with
  | inl err => (false, Some err)
  | inr req =>
      match BaseChannel.HTTPClient ch req with
      | inl err => (false, Some ("failed to send validation request: " +:+ err))
      | inr resp =>
          if (200 <=? GoNet.StatusCode resp) && (GoNet.StatusCode resp <? 300) then
            (true, None)
          else
            match GoNet.ReadAll resp with
            | (_, Some err) =>
                (false,
                 Some ("key is invalid (status " +:+ GoStrings.Itoa (GoNet.StatusCode resp)
                         +:+ "), but failed to read error body: " +:+ err))
            | (errorBody, None) =>
                let parsedError := ParseUpstreamError errorBody in
                (false,
                 Some ("[status " +:+ GoStrings.Itoa (GoNet.StatusCode resp) +:+ "] "
                         +:+ parsedError))
            end
      end
  end.

(** The body of the loop of [FetchModels]: one catalog entry to one row. *)
Definition capability_of (group : Group.t) (now : Time) (model : OpenAIModel.t)
  : ModelCapabilities.t :=
  let capability :=
    ModelCapabilities.mk 0 (Group.ID group) (OpenAIModel.ID model) (OpenAIModel.ID model)
      true false false None None None JNull true (Some now) in
  if GoStrings.Contains (OpenAIModel.ID model) "gpt-4"
     || GoStrings.Contains (OpenAIModel.ID model) "gpt-3.5" then
    let capability := ModelCapabilities.set_SupportsFunctions capability true in
    if GoStrings.Contains (OpenAIModel.ID model) "vision" then
      ModelCapabilities.set_SupportsVision capability true
    else capability
  else capability.

Definition FetchModels (ch : BaseChannel.t) (now : Time) (apiKey : APIKey.t)
    (group : Group.t) : error + list ModelCapabilities.t :=
  match BaseChannel.getUpstreamURL ch with
  | None => inl ("no upstream URL configured for channel " +:+ BaseChannel.Name ch)
  | Some upstreamURL =>
      let finalURL :=
        GoNet.set_Path upstreamURL
          (GoStrings.TrimRight (GoNet.Path upstreamURL) "/" +:+ "/v1/models") in
      let reqURL := URL_String finalURL in
      match NewRequest "GET" reqURL None with
      | inl err => inl ("failed to create models request: " +:+ err)
      | inr req =>
          let req := GoNet.Request_SetHeader req "Authorization"
                       ("Bearer " +:+ APIKey.KeyValue apiKey) in
          let req := GoNet.Request_SetHeader req "Content-Type" "application/json" in
          let req := applyGroupHeaderRules req group apiKey in
          match BaseChannel.HTTPClient ch req with
          | inl err => inl ("failed to send models request: " +:+ err)
          | inr resp =>
              if negb (GoNet.StatusCode resp =? 200) then
                let errorBody := fst (GoNet.ReadAll resp) in
                let parsedError := ParseUpstreamError errorBody in
                inl ("failed to fetch models [status "
                       +:+ GoStrings.Itoa (GoNet.StatusCode resp) +:+ "]: " +:+ parsedError)
              else
                match GoNet.ReadAll resp with
                | (_, Some err) => inl ("failed to read models response: " +:+ err)
                | (bodyBytes, None) =>
                    match json_Unmarshal_openaiModels bodyBytes with
                    | inl err => inl ("failed to parse models response: " +:+ err)
                    | inr data => inr (map (capability_of group now) data)
                    end
                end
          end
      end
  end.

End Adapter.
End OpenAIChannel.

Module AnthropicChannel.
Section Adapter.
Context `{External}.

Definition ModifyRequest (req : GoNet.Request) (apiKey : APIKey.t) (group : Group.t)
  : GoNet.Request :=
  let req := GoNet.Request_SetHeader req "x-api-key" (APIKey.KeyValue apiKey) in
  GoNet.Request_SetHeader req "anthropic-version" "2023-06-01".

Definition IsStreamRequest (c : GoNet.Context) (bodyBytes : bytes) : bool :=
  if GoStrings.Contains (GoNet.GetHeader c "Accept") "text/event-stream" then true
  else if String.eqb (GoNet.Query c "stream") "true" then true
  else
    match json_Unmarshal_streamPayload bodyBytes with
    | inr stream => stream
    | inl _ => false
    end.

Definition ExtractModel (c : GoNet.Context) (bodyBytes : bytes) : string :=
  match json_Unmarshal_modelPayload bodyBytes with
  | inr model => model
  | inl _ => ""
  end.

Definition ValidateKey_request (ch : BaseChannel.t) (apiKey : APIKey.t) (group : Group.t)
  : error + GoNet.Request :=
  match BaseChannel.getUpstreamURL ch with
  | None => inl ("no upstream URL configured for channel " +:+ BaseChannel.Name ch)
  | Some upstreamURL =>
      match url_Parse (BaseChannel.ValidationEndpoint ch) with
      | inl err => inl ("failed to parse validation endpoint: " +:+ err)
      | inr endpointURL =>
          let finalURL := probeURL upstreamURL endpointURL in
          let reqURL := URL_String finalURL in
          let payload :=
            JObject [("model", JString (BaseChannel.TestModel ch));
                     ("max_tokens", JInt 100);
                     ("messages",
                      JArray [JObject [("role", JString "user");
                                       ("content", JString "hi")]])] in
          match json_Marshal payload with
          | inl err => inl ("failed to marshal validation payload: " +:+ err)
          | inr body =>
              match NewRequest "POST" reqURL (Some body) with
              | inl err => inl ("failed to create validation request: " +:+ err)
              | inr req =>
                  let req := GoNet.Request_SetHeader req "x-api-key"
                               (APIKey.KeyValue apiKey) in
                  let req := GoNet.Request_SetHeader req "anthropic-version" "2023-06-01" in
                  let req := GoNet.Request_SetHeader req "Content-Type" "application/json" in
                  inr (applyGroupHeaderRules req group apiKey)
              end
          end
      end
  end.

Definition ValidateKey (ch : BaseChannel.t) (apiKey : APIKey.t) (group : Group.t)
  : bool * option error :=
  match ValidateKey_request ch apiKey group with
  | inl err => (false, Some err)
  | inr req =>
      match BaseChannel.HTTPClient ch req with
      | inl err => (false, Some ("failed to send validation request: " +:+ err))
      | inr resp =>
          if (200 <=? GoNet.StatusCode resp) && (GoNet.StatusCode resp <? 300) then
            (true, None)
          else
            match GoNet.ReadAll resp with
            | (_, Some err) =>
                (false,
                 Some ("key is invalid (status " +:+ GoStrings.Itoa (GoNet.StatusCode resp)
                         +:+ "), but failed to read error body: " +:+ err))
            | (errorBody, None) =>
                let parsedError := ParseUpstreamError errorBody in
                (false,
                 Some ("[status " +:+ GoStrings.Itoa (GoNet.StatusCode resp) +:+ "] "
                         +:+ parsedError))
            end
      end
  end.

Definition capability_of (group : Group.t) (now : Time) (model : AnthropicModel.t)
  : ModelCapabilities.t :=
  let capability :=
    ModelCapabilities.mk 0 (Group.ID group) (AnthropicModel.ID model)
      (AnthropicModel.ID model)
      true false false None None None JNull true (Some now) in
  if GoStrings.Contains (AnthropicModel.ID model) "claude-3"
     || GoStrings.Contains (AnthropicModel.ID model) "claude-sonnet"
     || GoStrings.Contains (AnthropicModel.ID model) "claude-opus" then
    ModelCapabilities.set_SupportsVision capability true
  else capability.

Definition FetchModels (ch : BaseChannel.t) (now : Time) (apiKey : APIKey.t)
    (group : Group.t) : error + list ModelCapabilities.t :=
  match BaseChannel.getUpstreamURL ch with
  | None => inl ("no upstream URL configured for channel " +:+ BaseChannel.Name ch)
  | Some upstreamURL =>
      let finalURL :=
        GoNet.set_Path upstreamURL
          (GoStrings.TrimRight (GoNet.Path upstreamURL) "/" +:+ "/v1/models") in
      let reqURL := URL_String finalURL in
      match NewRequest "GET" reqURL None with
      | inl err => inl ("failed to create models request: " +:+ err)
      | inr req =>
          let req := GoNet.Request_SetHeader req "x-api-key" (APIKey.KeyValue apiKey) in
          let req := GoNet.Request_SetHeader req "anthropic-version" "2023-06-01" in
          let req := GoNet.Request_SetHeader req "Content-Type" "application/json" in
          let req := applyGroupHeaderRules req group apiKey in
          match BaseChannel.HTTPClient ch req with
          | inl err => inl ("failed to send models request: " +:+ err)
          | inr resp =>
              if negb (GoNet.StatusCode resp =? 200) then
                let errorBody := fst (GoNet.ReadAll resp) in
                let parsedError := ParseUpstreamError errorBody in
                inl ("failed to fetch models [status "
                       +:+ GoStrings.Itoa (GoNet.StatusCode resp) +:+ "]: " +:+ parsedError)
              else
                match GoNet.ReadAll resp with
                | (_, Some err) => inl ("failed to read models response: " +:+ err)
                | (bodyBytes, None) =>
                    match json_Unmarshal_anthropicModels bodyBytes with
                    | inl err => inl ("failed to parse models response: " +:+ err)
                    | inr data => inr (map (capability_of group now) data)
                    end
                end
          end
      end
  end.

End Adapter.
End AnthropicChannel.

(** A stand-in for the outside world, used to run the adapters on concrete
    inputs: URLs are kept as their path, JSON encodes to a fixed text, every
    body decodes to the catalog [stub_models], and header rules add nothing. *)
Definition stub_External (stub_stream : bytes → error + bool)
    (stub_models : list OpenAIModel.t) : External := {|
  url_Parse := λ s, if String.eqb s "::" then inl "missing protocol scheme"
                    else inr (GoNet.mkURL "https" None "api.example.com" s "" "" "");
  URL_String := λ u, GoNet.Scheme u +:+ "://" +:+ GoNet.Host u +:+ GoNet.Path u
                     +:+ (if String.eqb (GoNet.RawQuery u) "" then ""
                          else "?" +:+ GoNet.RawQuery u);
  json_Marshal := λ _, inr "{}";
  json_Unmarshal_map := λ _, inr [];
  json_Unmarshal_streamPayload := stub_stream;
  json_Unmarshal_modelPayload := λ _, inr "";
  json_Unmarshal_openaiModels := λ _, inr stub_models;
  json_Unmarshal_anthropicModels := λ _, inr [];
  ParseUpstreamError := λ b, b;
  ApplyHeaderRules := λ h _ _, h
|}.

(** ** The relational store and the clock

    The table [model_capabilities] is the list of its rows.  A statement sent
    to the store can fail for reasons of its own (a lost connection, a
    constraint): [faults] scripts the outcome of the statements to come, one
    entry per statement, [Some e] for a failure with error [e]; past the end
    of the script statements succeed.  [trace] records the invocations of
    [FetchAndStoreModels] and the calls to the provider. *)

Inductive Event :=
  | EvFetchAndStoreModels (groupID keyID : Z)
  | EvFetchModels (groupID keyID : Z).

Global Instance Event_eq_dec : EqDecision Event.
Proof. solve_decision. Defined.

Module World.
Record t := mk {
  table : list ModelCapabilities.t;
  faults : list (option error);
  now : Time;
  trace : list Event
}.
Definition set_table (w : t) (tbl : list ModelCapabilities.t) : t :=
  mk tbl (faults w) (now w) (trace w).
Definition set_faults (w : t) (fs : list (option error)) : t :=
  mk (table w) fs (now w) (trace w).
Definition emit (w : t) (e : Event) : t :=
  mk (table w) (faults w) (now w) (trace w ++ [e])%list.
End World.

(** Go code that threads the store and returns [(value, error)]. *)
Definition M (A : Type) : Type := World.t → (error + A) * World.t.

Definition ret {A} (a : A) : M A := λ w, (inr a, w).
Definition fail {A} (e : error) : M A := λ w, (inl e, w).
Definition bind {A B} (m : M A) (k : A → M B) : M B := λ w,
  match m w with
  | (inl e, w') => (inl e, w')
  | (inr a, w') => k a w'
  end.

Notation "'let*' x ':=' m 'in' k" := (bind m (λ x, k))
  (at level 10, x name, m at level 100, k at level 200).

Module gorm.

Definition ErrRecordNotFound : error := "record not found".

(** One statement: consume the next entry of the fault script, then run. *)
Definition stmt {A} (f : list ModelCapabilities.t → error + (A * list ModelCapabilities.t))
  : M A := λ w,
  let run w :=
    match f (World.table w) with
    | inl e => (inl e, w)
    | inr (a, tbl) => (inr a, World.set_table w tbl)
    end in
  match World.faults w with
  | Some e :: fs => (inl e, World.set_faults w fs)
  | None :: fs => run (World.set_faults w fs)
  | [] => run w
  end.

(** [ORDER BY id LIMIT 1] *)
Definition min_by_ID (l : list ModelCapabilities.t) : option ModelCapabilities.t :=
  foldr (λ r acc,
           match acc with
           | None => Some r
           | Some r' => if ModelCapabilities.ID r <=? ModelCapabilities.ID r'
                        then Some r else Some r'
           end) None l.

(** [tx.Where(cond).First(&dest)] *)
Definition First (cond : ModelCapabilities.t → bool) : M ModelCapabilities.t :=
  stmt (λ tbl,
    match min_by_ID (filter (λ r, cond r = true) tbl) with
    | None => inl ErrRecordNotFound
    | Some r => inr (r, tbl)
    end).

(** [db.Model(..).Where(cond).Count(&n)] *)
Definition Count (cond : ModelCapabilities.t → bool) : M Z :=
  stmt (λ tbl, inr (Z.of_nat (length (filter (λ r, cond r = true) tbl)), tbl)).

Definition next_ID (tbl : list ModelCapabilities.t) : Z :=
  1 + foldr Z.max 0 (map ModelCapabilities.ID tbl).

Definition set_ID (c : ModelCapabilities.t) (id : Z) : ModelCapabilities.t :=
  ModelCapabilities.mk id
    (ModelCapabilities.GroupID c) (ModelCapabilities.ModelID c)
    (ModelCapabilities.ModelName c) (ModelCapabilities.SupportsStreaming c)
    (ModelCapabilities.SupportsVision c) (ModelCapabilities.SupportsFunctions c)
    (ModelCapabilities.MaxTokens c) (ModelCapabilities.MaxInputTokens c)
    (ModelCapabilities.MaxOutputTokens c) (ModelCapabilities.CustomCapabilities c)
    (ModelCapabilities.IsAutoFetched c) (ModelCapabilities.LastFetchedAt c).

(** [tx.Create(&row)]: a zero primary key is assigned by the store; a given
    one must be free. *)
Definition Create (row : ModelCapabilities.t) : M unit :=
  stmt (λ tbl,
    if ModelCapabilities.ID row =? 0 then inr (tt, (tbl ++ [set_ID row (next_ID tbl)])%list)
    else if existsb (λ r, ModelCapabilities.ID r =? ModelCapabilities.ID row) tbl
         then inl "UNIQUE constraint failed: model_capabilities.id"
         else inr (tt, (tbl ++ [row])%list)).

(** The values of a [map[string]interface{}] of column updates. *)
Inductive value :=
  | VString (s : string)
  | VBool (b : bool)
  | VInt (n : Z)
  | VTime (t : option Time)
  | VJSON (j : JSON).

Definition col_string (u : gmap string value) (col : string) (old : string) : string :=
  match u !! col with Some (VString s) => s | _ => old end.
Definition col_bool (u : gmap string value) (col : string) (old : bool) : bool :=
  match u !! col with Some (VBool b) => b | _ => old end.
Definition col_int (u : gmap string value) (col : string) (old : option Z) : option Z :=
  match u !! col with Some (VInt n) => Some n | _ => old end.
Definition col_time (u : gmap string value) (col : string) (old : option Time)
  : option Time :=
  match u !! col with Some (VTime t) => t | _ => old end.
Definition col_json (u : gmap string value) (col : string) (old : JSON) : JSON :=
  match u !! col with Some (VJSON j) => j | _ => old end.

(** [UPDATE model_capabilities SET col = v, ...] on one row: the columns
    named in the map are written, the others keep their value. *)
Definition apply_updates (u : gmap string value) (r : ModelCapabilities.t)
  : ModelCapabilities.t :=
  ModelCapabilities.mk
    (ModelCapabilities.ID r)
    (ModelCapabilities.GroupID r)
    (ModelCapabilities.ModelID r)
    (col_string u "model_name" (ModelCapabilities.ModelName r))
    (col_bool u "supports_streaming" (ModelCapabilities.SupportsStreaming r))
    (col_bool u "supports_vision" (ModelCapabilities.SupportsVision r))
    (col_bool u "supports_functions" (ModelCapabilities.SupportsFunctions r))
    (col_int u "max_tokens" (ModelCapabilities.MaxTokens r))
    (col_int u "max_input_tokens" (ModelCapabilities.MaxInputTokens r))
    (col_int u "max_output_tokens" (ModelCapabilities.MaxOutputTokens r))
    (col_json u "custom_capabilities" (ModelCapabilities.CustomCapabilities r))
    (col_bool u "is_auto_fetched" (ModelCapabilities.IsAutoFetched r))
    (col_time u "last_fetched_at" (ModelCapabilities.LastFetchedAt r)).

(** [db.Model(..).Where("id = ?", id).Updates(updates)], which is also what
    [tx.Model(&existing).Updates(updates)] sends for [id = existing.ID]. *)
Definition Updates (id : Z) (u : gmap string value) : M unit :=
  stmt (λ tbl,
    inr (tt, map (λ r, if ModelCapabilities.ID r =? id then apply_updates u r else r) tbl)).

(** [db.Transaction(f)]: BEGIN, the body, then COMMIT, or ROLLBACK when the
    body or the commit fails. *)
Definition Transaction (f : M unit) : M unit := λ w,
  match stmt (λ tbl, inr (tt, tbl)) w with
  | (inl e, w1) => (inl e, w1)
  | (inr _, w1) =>
      match f w1 with
      | (inl e, w2) => (inl e, World.set_table w2 (World.table w))
      | (inr _, w2) =>
          match stmt (λ tbl, inr (tt, tbl)) w2 with
          | (inl e, w3) => (inl e, World.set_table w3 (World.table w))
          | (inr _, w3) => (inr tt, w3)
          end
      end
  end.

End gorm.

(** ** internal/services/model_service.go *)

(** The part of the [ChannelProxy] interface the service calls. *)
Module ChannelProxy.
Record t := mk {
  FetchModels : Time → APIKey.t → Group.t → error + list ModelCapabilities.t
}.
End ChannelProxy.

Definition wrap64 (z : Z) : Z := (z + 2^63) mod 2^64 - 2^63.

(** [time.Duration] is an [int64] count of nanoseconds; [-d] wraps. *)
Definition neg_Duration (d : Z) : Z := wrap64 (- d).
(** [t.Add(d)], on instants counted in nanoseconds. *)
Definition Time_Add (t : Time) (d : Z) : Time := t + d.
Definition Hour : Z := 3600 * 1000000000.

Module ModelService.
Section Service.
(** [s.channelFactory.GetChannel]: the factory is not among the sources. *)
Variable GetChannel : Group.t → error + ChannelProxy.t.

Definition time_Now : M Time := λ w, (inr (World.now w), w).

(** [ch.FetchModels(ctx, apiKey, group)]: the call to the provider. *)
Definition callFetchModels (ch : ChannelProxy.t) (apiKey : APIKey.t) (group : Group.t)
  : M (list ModelCapabilities.t) := λ w,
  (ChannelProxy.FetchModels ch (World.now w) apiKey group,
   World.emit w (EvFetchModels (Group.ID group) (APIKey.ID apiKey))).

(** The map of column updates built for an existing row (lines 66-83). *)
Definition updates_of (capability : ModelCapabilities.t) : gmap string gorm.value :=
  let updates : gmap string gorm.value :=
    {[ "model_name" := gorm.VString (ModelCapabilities.ModelName capability);
       "supports_streaming" := gorm.VBool (ModelCapabilities.SupportsStreaming capability);
       "supports_vision" := gorm.VBool (ModelCapabilities.SupportsVision capability);
       "supports_functions" := gorm.VBool (ModelCapabilities.SupportsFunctions capability);
       "is_auto_fetched" := gorm.VBool (ModelCapabilities.IsAutoFetched capability);
       "last_fetched_at" := gorm.VTime (ModelCapabilities.LastFetchedAt capability) ]} in
  let updates :=
    match ModelCapabilities.MaxTokens capability with
    | Some n => <["max_tokens" := gorm.VInt n]> updates
    | None => updates
    end in
  let updates :=
    match ModelCapabilities.MaxInputTokens capability with
    | Some n => <["max_input_tokens" := gorm.VInt n]> updates
    | None => updates
    end in
  match ModelCapabilities.MaxOutputTokens capability with
  | Some n => <["max_output_tokens" := gorm.VInt n]> updates
  | None => updates
  end.

(** The body of the loop of the transaction (lines 49-93). *)
Definition upsert (capability : ModelCapabilities.t) : M unit := λ w,
  match gorm.First (λ r, (ModelCapabilities.GroupID r =? ModelCapabilities.GroupID capability)
                          && String.eqb (ModelCapabilities.ModelID r)
                                        (ModelCapabilities.ModelID capability)) w with
  | (inl e, w1) =>
      if String.eqb e gorm.ErrRecordNotFound then gorm.Create capability w1
      else (inl e, w1)
  | (inr existing, w1) =>
      gorm.Updates (ModelCapabilities.ID existing) (updates_of capability) w1
  end.

Fixpoint upsert_all (capabilities : list ModelCapabilities.t) : M unit :=
  match capabilities with
  | [] => ret tt
  | capability :: rest => let* _ := upsert capability in upsert_all rest
  end.

Definition FetchAndStoreModels (group : Group.t) (apiKey : APIKey.t) : M unit := λ w,
  let w := World.emit w (EvFetchAndStoreModels (Group.ID group) (APIKey.ID apiKey)) in
  match GetChannel group with
  | inl err => (inl ("failed to get channel: " +:+ err), w)
  | inr ch =>
      match callFetchModels ch apiKey group w with
      | (inl err, w) => (inl ("failed to fetch models: " +:+ err), w)
      | (inr capabilities, w) =>
          if Z.of_nat (length capabilities) =? 0 then
            (inl "no models returned from provider", w)
          else gorm.Transaction (upsert_all capabilities) w
      end
  end.


(** The two [Where] clauses of [RefreshStaleModels]. *)
Definition is_stale (groupID : Z) (staleTime : Time) (r : ModelCapabilities.t) : bool :=
  (ModelCapabilities.GroupID r =? groupID)
  && Bool.eqb (ModelCapabilities.IsAutoFetched r) true
  && match ModelCapabilities.LastFetchedAt r with
     | None => true
     | Some t => t <? staleTime
     end.

Definition in_group (groupID : Z) (r : ModelCapabilities.t) : bool :=
  ModelCapabilities.GroupID r =? groupID.

Definition RefreshStaleModels (group : Group.t) (apiKey : APIKey.t) (staleDuration : Z)
  : M unit :=
  let* now := time_Now in
  let staleTime := Time_Add now (neg_Duration staleDuration) in
  let* count := gorm.Count (is_stale (Group.ID group) staleTime) in
  if count >? 0 then FetchAndStoreModels group apiKey
  else
    let* totalCount := gorm.Count (in_group (Group.ID group)) in
    if totalCount =? 0 then FetchAndStoreModels group apiKey
    else ret tt.

End Service.
End ModelService.

(** ** internal/prometheus/metrics.go *)

Module prometheus.

(** The registry of [client_golang], for collectors that describe themselves
    by one descriptor without constant labels (every [*Vec] of this file):
    the descriptor's identity is its fully-qualified name; a second
    descriptor of the same name must have the same help text and label
    names.  A collector is represented by its kind and descriptor; bucket
    boundaries are not part of a descriptor. *)
Inductive Kind := Counter | Gauge | Histogram.

Record Collector := mkCollector {
  kind : Kind;
  fqName : string;
  help : string;
  labelNames : list string
}.

Global Instance Kind_eq_dec : EqDecision Kind.
Proof. solve_decision. Defined.
Global Instance Collector_eq_dec : EqDecision Collector.
Proof. solve_decision. Defined.

Abbreviation Registry := (list Collector).

Inductive RegisterError :=
  | AlreadyRegisteredError (existing new : Collector)
  | InconsistentDescError (msg : string).

Definition same_dims (c d : Collector) : bool :=
  bool_decide (help c = help d) && bool_decide (labelNames c = labelNames d).

(** [prometheus.Register(c)] on the default registry. *)
Definition Register (c : Collector) (r : Registry) : option RegisterError * Registry :=
  match find (λ d, String.eqb (fqName d) (fqName c)) r with
  | Some d =>
      if same_dims d c then (Some (AlreadyRegisteredError d c), r)
      else (Some (InconsistentDescError
                    ("a previously registered descriptor with the same fully-qualified name as "
                       +:+ fqName c
                       +:+ " has different label names or a different help string")), r)
  | None => (None, (r ++ [c])%list)
  end.

(** [errors.As(err, &alreadyRegisteredErr)] *)
Definition is_AlreadyRegistered (e : RegisterError) : bool :=
  match e with AlreadyRegisteredError _ _ => true | _ => false end.

Definition RegisterError_text (e : RegisterError) : string :=
  match e with
  | AlreadyRegisteredError _ _ => "duplicate metrics collector registration attempted"
  | InconsistentDescError msg => msg
  end.

Definition httpRequestsTotal : Collector :=
  mkCollector Counter "http_requests_total" "Total number of HTTP requests"
    ["method"; "endpoint"; "status"].
Definition httpRequestDuration : Collector :=
  mkCollector Histogram "http_request_duration_seconds" "HTTP request duration in seconds"
    ["method"; "endpoint"; "status"].
Definition httpRequestSize : Collector :=
  mkCollector Histogram "http_request_size_bytes" "HTTP request size in bytes"
    ["method"; "endpoint"].
Definition httpResponseSize : Collector :=
  mkCollector Histogram "http_response_size_bytes" "HTTP response size in bytes"
    ["method"; "endpoint"].
Definition activeKeysTotal : Collector :=
  mkCollector Gauge "gpt_load_active_keys_total" "Total number of active API keys per group"
    ["group"].
Definition invalidKeysTotal : Collector :=
  mkCollector Gauge "gpt_load_invalid_keys_total" "Total number of invalid API keys per group"
    ["group"].
Definition proxyRequestsTotal : Collector :=
  mkCollector Counter "gpt_load_proxy_requests_total" "Total number of proxy requests per group"
    ["group"; "status"].
Definition proxyRequestDuration : Collector :=
  mkCollector Histogram "gpt_load_proxy_request_duration_seconds"
    "Proxy request duration in seconds"
    ["group"].
Definition keyRotationsTotal : Collector :=
  mkCollector Counter "gpt_load_key_rotations_total" "Total number of key rotations per group"
    ["group"].
Definition keyValidationTotal : Collector :=
  mkCollector Counter "gpt_load_key_validation_total" "Total number of key validations"
    ["group"; "result"].

Definition metrics : list Collector :=
  [ httpRequestsTotal; httpRequestDuration; httpRequestSize; httpResponseSize;
    activeKeysTotal; invalidKeysTotal; proxyRequestsTotal; proxyRequestDuration;
    keyRotationsTotal; keyValidationTotal ].

(** The loop of [Init] (lines 118-127). *)
Fixpoint register_all (ms : list Collector) (r : Registry) : option error * Registry :=
  match ms with
  | [] => (None, r)
  | metric :: rest =>
      match Register metric r with
      | (Some err, r') =>
          if negb (is_AlreadyRegistered err) then
            (Some ("failed to register Prometheus metric: " +:+ RegisterError_text err), r')
          else register_all rest r'
      | (None, r') => register_all rest r'
      end
  end.

(** [Init] (lines 104-129). *)
Definition Init (r : Registry) : option error * Registry := register_all metrics r.

(** The revision of the file that [Init] above replaced (lines 280-294):
    [prometheus.MustRegister(...)], which panics on the first error of
    [Register], [AlreadyRegisteredError] included. *)
Inductive Outcome (A : Type) := Returned (a : A) | Panicked (msg : string).
Arguments Returned {A} a.
Arguments Panicked {A} msg.

Fixpoint MustRegister (cs : list Collector) (r : Registry) : Outcome Registry :=
  match cs with
  | [] => Returned r
  | c :: rest =>
      match Register c r with
      | (Some err, _) => Panicked (RegisterError_text err)
      | (None, r') => MustRegister rest r'
      end
  end.

Definition Init_MustRegister (r : Registry) : Outcome Registry := MustRegister metrics r.

(** The state of the vectors [RecordHTTPRequest] writes: per tuple of label
    values, a counter's count and a histogram's observations in order of
    arrival. *)
Abbreviation CounterVec := (gmap (list string) Z).
Abbreviation HistogramVec := (gmap (list string) (list float64)).

Definition Inc (v : CounterVec) (labels : list string) : CounterVec :=
  <[labels := default 0 (v !! labels) + 1]> v.

Definition observations (v : HistogramVec) (labels : list string) : list float64 :=
  default [] (v !! labels).

Definition Observe (v : HistogramVec) (labels : list string) (x : float64) : HistogramVec :=
  <[labels := (observations v labels ++ [x])%list]> v.

Record Metrics := mkMetrics {
  m_httpRequestsTotal : CounterVec;
  m_httpRequestDuration : HistogramVec;
  m_httpRequestSize : HistogramVec;
  m_httpResponseSize : HistogramVec
}.

Section Record_.
(** The conversion [float64(n)] of an [int64]. *)
Variable float64_of_int64 : Z → float64.

(** [RecordHTTPRequest] (lines 143-154). *)
Definition RecordHTTPRequest (method endpoint : string) (status : Z) (duration : float64)
    (reqSize respSize : Z) (m : Metrics) : Metrics :=
  let statusStr := GoStrings.Itoa status in
  let total := Inc (m_httpRequestsTotal m) [method; endpoint; statusStr] in
  let dur := Observe (m_httpRequestDuration m) [method; endpoint; statusStr] duration in
  let reqs :=
    if reqSize >? 0 then
      Observe (m_httpRequestSize m) [method; endpoint] (float64_of_int64 reqSize)
    else m_httpRequestSize m in
  let resps :=
    if respSize >? 0 then
      Observe (m_httpResponseSize m) [method; endpoint] (float64_of_int64 respSize)
    else m_httpResponseSize m in
  mkMetrics total dur reqs resps.

End Record_.

End prometheus.

(** ** The playground handler *)

Module handler.

Record PlaygroundChatRequest := mkPlaygroundChatRequest {
  GroupName : string;
  Model : string;
  Messages : list (list (string * JSON));
  Temperature : float64
}.

Record PlaygroundChatResponse := mkPlaygroundChatResponse {
  Content : string;
  RespModel : string
}.

(** Modelled from the spec: the [response] package is not among the sources;
    [response.Error(c, status, message)] answers with the given HTTP status
    and message, [response.Success(c, data)] with status 200 and the data. *)
Inductive Reply :=
  | ReplyError (status : Z) (message : string)
  | ReplySuccess (data : PlaygroundChatResponse).

Definition reply_status (r : Reply) : Z :=
  match r with
  | ReplyError status _ => status
  | ReplySuccess _ => 200
  end.

Definition StatusBadRequest : Z := 400.
Definition StatusNotFound : Z := 404.
Definition StatusInternalServerError : Z := 500.
Definition StatusOK : Z := 200.

(** What the handler can reach through [s *Server]: the tables [groups] and
    [api_keys], the script of store failures (as for [World.t]), the draw
    that [ORDER BY RANDOM()] makes, and the log of the requests handed to an
    HTTP client. *)
Module Server.
Record t := mk {
  groups : list Group.t;
  api_keys : list APIKey.t;
  faults : list (option error);
  random : nat;
  sent : list GoNet.Request
}.
Definition set_faults (s : t) (fs : list (option error)) : t :=
  mk (groups s) (api_keys s) fs (random s) (sent s).
Definition log_sent (s : t) (r : GoNet.Request) : t :=
  mk (groups s) (api_keys s) (faults s) (random s) (sent s ++ [r])%list.
End Server.

(** One read-only statement against the store. *)
Definition query {A} (f : Server.t → error + A) (s : Server.t) : (error + A) * Server.t :=
  match Server.faults s with
  | Some e :: fs => (inl e, Server.set_faults s fs)
  | None :: fs => (f s, Server.set_faults s fs)
  | [] => (f s, s)
  end.

(** [s.DB.Where("name = ?", name).First(&group)] *)
Definition find_group (name : string) : Server.t → (error + Group.t) * Server.t :=
  query (λ s,
    match find (λ g, String.eqb (Group.Name g) name) (Server.groups s) with
    | Some g => inr g
    | None => inl gorm.ErrRecordNotFound
    end).

(** [s.DB.Where("group_id = ? AND status = ?", id, KeyStatusActive)
        .Order("RANDOM()").First(&apiKey)] *)
Definition active_keys (groupID : Z) (s : Server.t) : list APIKey.t :=
  filter (λ k, APIKey.GroupID k = groupID ∧ APIKey.Status k = KeyStatusActive)
         (Server.api_keys s).

Definition select_active_key (groupID : Z) : Server.t → (error + APIKey.t) * Server.t :=
  query (λ s,
    let candidates := active_keys groupID s in
    match candidates !! (Server.random s `mod` length candidates)%nat with
    | Some k => inr k
    | None => inl gorm.ErrRecordNotFound
    end).

(** [m[key]] on a decoded JSON object. *)
Fixpoint get (m : list (string * JSON)) (key : string) : option JSON :=
  match m with
  | [] => None
  | (k, v) :: m' => if String.eqb k key then Some v else get m' key
  end.

Section Handlers.
Context `{External}.
(** [c.ShouldBindJSON(&req)], [s.EncryptionSvc.Decrypt] and [client.Do] of a
    [http.Client{Timeout: 30 * time.Second}]. *)
Variable ShouldBindJSON : bytes → error + PlaygroundChatRequest.
Variable Decrypt : string → error + string.
Variable http_Do : GoNet.Request → error + GoNet.Response.

Definition client_Do (httpReq : GoNet.Request) (s : Server.t)
  : (error + GoNet.Response) * Server.t :=
  (http_Do httpReq, Server.log_sent s httpReq).

(** The tail the three [call*] functions share: read the body, check the
    status, decode, extract. *)
Definition read_reply (extract : list (string * JSON) → option string)
    (resp : GoNet.Response) : error + string :=
  match GoNet.ReadAll resp with
  | (_, Some err) => inl err
  | (body, None) =>
      if negb (GoNet.StatusCode resp =? StatusOK) then
        inl ("API returned status " +:+ GoStrings.Itoa (GoNet.StatusCode resp)
               +:+ ": " +:+ body)
      else
        match json_Unmarshal_map body with
        | inl err => inl err
        | inr result =>
            match extract result with
            | Some content => inr content
            | None => inl "unexpected response format"
            end
        end
  end.

Definition send (httpReq : GoNet.Request)
    (extract : list (string * JSON) → option string) (s : Server.t)
  : (error + string) * Server.t :=
  match client_Do httpReq s with
  | (inl err, s') => (inl err, s')
  | (inr resp, s') => (read_reply extract resp, s')
  end.

Definition extract_openai (result : list (string * JSON)) : option string :=
  match get result "choices" with
  | Some (JArray (JObject choice :: _)) =>
      match get choice "message" with
      | Some (JObject message) =>
          match get message "content" with
          | Some (JString content) => Some content
          | _ => None
          end
      | _ => None
      end
  | _ => None
  end.

Definition callOpenAI (baseURL apiKey : string) (req : PlaygroundChatRequest)
    (s : Server.t) : (error + string) * Server.t :=
  let reqBody :=
    JObject [("model", JString (Model req));
             ("messages", JArray (map JObject (Messages req)));
             ("temperature", JNumber (Temperature req))] in
  match json_Marshal reqBody with
  | inl err => (inl err, s)
  | inr jsonData =>
      let url := baseURL +:+ "/v1/chat/completions" in
      match NewRequest "POST" url (Some jsonData) with
      | inl err => (inl err, s)
      | inr httpReq =>
          let httpReq := GoNet.Request_SetHeader httpReq "Authorization"
                           ("Bearer " +:+ apiKey) in
          let httpReq := GoNet.Request_SetHeader httpReq "Content-Type"
                           "application/json" in
          send httpReq extract_openai s
      end
  end.

Definition extract_gemini (result : list (string * JSON)) : option string :=
  match get result "candidates" with
  | Some (JArray (JObject candidate :: _)) =>
      match get candidate "content" with
      | Some (JObject content) =>
          match get content "parts" with
          | Some (JArray (JObject part :: _)) =>
              match get part "text" with
              | Some (JString text) => Some text
              | _ => None
              end
          | _ => None
          end
      | _ => None
      end
  | _ => None
  end.

(** A nil slice encodes as [null], a non-empty one as an array. *)
Definition slice_json (l : list JSON) : JSON :=
  match l with [] => JNull | _ => JArray l end.

Definition gemini_content (msg : list (string * JSON)) : list JSON :=
  let role :=
    match get msg "role" with
    | Some (JString msgRole) => if String.eqb msgRole "assistant" then "model" else "user"
    | _ => "user"
    end in
  match get msg "content" with
  | Some (JString content) =>
      [JObject [("role", JString role);
                ("parts", JArray [JObject [("text", JString content)]])]]
  | _ => []
  end.

Definition callGemini (baseURL apiKey : string) (req : PlaygroundChatRequest)
    (s : Server.t) : (error + string) * Server.t :=
  let contents := concat (map gemini_content (Messages req)) in
  let reqBody :=
    JObject [("contents", slice_json contents);
             ("generationConfig", JObject [("temperature", JNumber (Temperature req))])] in
  match json_Marshal reqBody with
  | inl err => (inl err, s)
  | inr jsonData =>
      let url := baseURL +:+ "/v1beta/models/" +:+ Model req
                   +:+ ":generateContent?key=" +:+ apiKey in
      match NewRequest "POST" url (Some jsonData) with
      | inl err => (inl err, s)
      | inr httpReq =>
          let httpReq := GoNet.Request_SetHeader httpReq "Content-Type"
                           "application/json" in
          send httpReq extract_gemini s
      end
  end.

Definition extract_anthropic (result : list (string * JSON)) : option string :=
  match get result "content" with
  | Some (JArray (JObject textBlock :: _)) =>
      match get textBlock "text" with
      | Some (JString text) => Some text
      | _ => None
      end
  | _ => None
  end.

Definition anthropic_message (msg : list (string * JSON)) : list JSON :=
  match get msg "content" with
  | Some (JString content) =>
      [JObject [("role", default JNull (get msg "role"));
                ("content", JString content)]]
  | _ => []
  end.

Definition callAnthropic (baseURL apiKey : string) (req : PlaygroundChatRequest)
    (s : Server.t) : (error + string) * Server.t :=
  let messages := concat (map anthropic_message (Messages req)) in
  let reqBody :=
    JObject [("model", JString (Model req));
             ("messages", slice_json messages);
             ("max_tokens", JInt 1024);
             ("temperature", JNumber (Temperature req))] in
  match json_Marshal reqBody with
  | inl err => (inl err, s)
  | inr jsonData =>
      let url := baseURL +:+ "/v1/messages" in
      match NewRequest "POST" url (Some jsonData) with
      | inl err => (inl err, s)
      | inr httpReq =>
          let httpReq := GoNet.Request_SetHeader httpReq "x-api-key" apiKey in
          let httpReq := GoNet.Request_SetHeader httpReq "anthropic-version"
                           "2023-06-01" in
          let httpReq := GoNet.Request_SetHeader httpReq "Content-Type"
                           "application/json" in
          send httpReq extract_anthropic s
      end
  end.

(** The [switch group.ChannelType] of [PlaygroundChat] (lines 74-84). *)
Definition dispatch (channelType baseURL decryptedKey : string)
    (req : PlaygroundChatRequest) (s : Server.t) : (error + string) * Server.t :=
  if String.eqb channelType "openai" then callOpenAI baseURL decryptedKey req s
  else if String.eqb channelType "gemini" then callGemini baseURL decryptedKey req s
  else if String.eqb channelType "anthropic" then callAnthropic baseURL decryptedKey req s
  else callOpenAI baseURL decryptedKey req s.

(** [PlaygroundChat] (lines 32-95); the argument is the body of the inbound
    request. *)
Definition PlaygroundChat (body : bytes) (s : Server.t) : Reply * Server.t :=
  match ShouldBindJSON body with
  | inl _ => (ReplyError StatusBadRequest "Invalid request format", s)
  | inr req =>
      match find_group (GroupName req) s with
      | (inl _, s) =>
          (ReplyError StatusNotFound ("Group '" +:+ GroupName req +:+ "' not found"), s)
      | (inr group, s) =>
          match Group.Upstreams group with
          | [] => (ReplyError StatusBadRequest "Group has no upstreams configured", s)
          | upstream :: _ =>
              match select_active_key (Group.ID group) s with
              | (inl _, s) =>
                  (ReplyError StatusInternalServerError
                     "No active API keys available in this group", s)
              | (inr apiKey, s) =>
                  match Decrypt (APIKey.KeyValue apiKey) with
                  | inl _ =>
                      (ReplyError StatusInternalServerError "Failed to decrypt API key", s)
                  | inr decryptedKey =>
                      match dispatch (Group.ChannelType group) (UpstreamInfo.URL upstream)
                              decryptedKey req s with
                      | (inl apiErr, s) =>
                          (ReplyError StatusInternalServerError
                             ("API call failed: " +:+ apiErr), s)
                      | (inr upstreamResp, s) =>
                          (ReplySuccess (mkPlaygroundChatResponse upstreamResp (Model req)), s)
                      end
                  end
              end
          end
      end
  end.

End Handlers.
End handler.

(** ** The rest of the model service and its handlers *)

Module strconv.

Definition digit_value (c : ascii) : option Z :=
  let n := N_of_ascii c in
  if ((48 <=? n) && (n <=? 57))%N then Some (Z.of_N n - 48) else None.

(** The value of a run of decimal digits; [None] on any other byte. *)
Fixpoint digits (s : string) (acc : Z) : option Z :=
  match s with
  | EmptyString => Some acc
  | String c s' =>
      match digit_value c with
      | Some d => digits s' (10 * acc + d)
      | None => None
      end
  end.

(** [strconv.ParseUint(s, 10, 64)] *)
Definition ParseUint (s : string) : error + Z :=
  match s with
  | EmptyString => inl "invalid syntax"
  | _ =>
      match digits s 0 with
      | None => inl "invalid syntax"
      | Some n => if n <? 2^64 then inr n else inl "value out of range"
      end
  end.

(** [strconv.Atoi(s)] with a 64-bit [int]: an optional sign, then digits. *)
Definition Atoi (s : string) : error + Z :=
  let '(neg, body) :=
    match s with
    | String "+" s' => (false, s')
    | String "-" s' => (true, s')
    | _ => (false, s)
    end in
  match body with
  | EmptyString => inl "invalid syntax"
  | _ =>
      match digits body 0 with
      | None => inl "invalid syntax"
      | Some n =>
          let v := if neg then - n else n in
          if (- 2^63 <=? v) && (v <? 2^63) then inr v else inl "value out of range"
      end
  end.

End strconv.

Module ModelServiceQueries.

(** [db.Delete(&models.ModelCapabilities{}, ...)] under a condition: the
    rows that satisfy it are removed. *)
Definition Delete (cond : ModelCapabilities.t → bool) : M unit :=
  gorm.stmt (λ tbl, inr (tt, filter (λ r, cond r = false) tbl)).

(** [GetModelByID] (lines 107-114). *)
Definition GetModelByID (id : Z) : M ModelCapabilities.t :=
  gorm.First (λ r, ModelCapabilities.ID r =? id).

(** [DeleteModel] (lines 122-124). *)
Definition DeleteModel (id : Z) : M unit :=
  Delete (λ r, ModelCapabilities.ID r =? id).

(** [DeleteGroupModels] (lines 127-129). *)
Definition DeleteGroupModels (groupID : Z) : M unit :=
  Delete (λ r, ModelCapabilities.GroupID r =? groupID).

End ModelServiceQueries.

Module model_handler.

(** [UpdateModelRequest]: every field is optional in the JSON body. *)
Record UpdateModelRequest := mkUpdateModelRequest {
  SupportsStreaming : option bool;
  SupportsVision : option bool;
  SupportsFunctions : option bool;
  MaxTokens : option Z;
  MaxInputTokens : option Z;
  MaxOutputTokens : option Z;
  CustomCapabilities : option JSON
}.

(** Modelled from the spec: the packages [response], [errors] and [i18n] are
    not among the sources; a reply is the error kind of section 7 with its
    HTTP status, or the data of a success. *)
Inductive Reply :=
  | BadRequest (messageID : string)
  | InvalidJSON (detail : string)
  | ResourceNotFound (messageID : string)
  | InternalServer (detail : string)
  | Success (data : ModelCapabilities.t)
  | SuccessMessage (messageID : string).

Definition reply_status (r : Reply) : Z :=
  match r with
  | BadRequest _ | InvalidJSON _ => 400
  | ResourceNotFound _ => 404
  | InternalServer _ => 500
  | Success _ | SuccessMessage _ => 200
  end.

(** The map of updates that [UpdateModel] builds (lines 431-452). *)
Definition updates_of_request (req : UpdateModelRequest) : gmap string gorm.value :=
  let updates : gmap string gorm.value := ∅ in
  let updates := match SupportsStreaming req with
                 | Some b => <["supports_streaming" := gorm.VBool b]> updates
                 | None => updates end in
  let updates := match SupportsVision req with
                 | Some b => <["supports_vision" := gorm.VBool b]> updates
                 | None => updates end in
  let updates := match SupportsFunctions req with
                 | Some b => <["supports_functions" := gorm.VBool b]> updates
                 | None => updates end in
  let updates := match MaxTokens req with
                 | Some n => <["max_tokens" := gorm.VInt n]> updates
                 | None => updates end in
  let updates := match MaxInputTokens req with
                 | Some n => <["max_input_tokens" := gorm.VInt n]> updates
                 | None => updates end in
  let updates := match MaxOutputTokens req with
                 | Some n => <["max_output_tokens" := gorm.VInt n]> updates
                 | None => updates end in
  match CustomCapabilities req with
  | Some j => <["custom_capabilities" := gorm.VJSON j]> updates
  | None => updates
  end.

Section Handlers.
(** [c.ShouldBindJSON(&req)] *)
Variable ShouldBindJSON : bytes → error + UpdateModelRequest.

(** [UpdateModel] (lines 417-467); the arguments are the path parameter
    [modelId] and the body of the request. *)
Definition UpdateModel (modelIDStr : string) (body : bytes) : M Reply := λ w,
  match strconv.ParseUint modelIDStr with
  | inl _ => (inr (BadRequest "validation.invalid_model_id"), w)
  | inr modelID =>
      match ShouldBindJSON body with
      | inl err => (inr (InvalidJSON err), w)
      | inr req =>
          let updates := updates_of_request req in
          match gorm.Updates modelID updates w with
          | (inl err, w) => (inr (InternalServer err), w)
          | (inr _, w) =>
              match ModelServiceQueries.GetModelByID modelID w with
              | (inl _, w) => (inr (ResourceNotFound "model.model_not_found"), w)
              | (inr capability, w) => (inr (Success capability), w)
              end
          end
      end
  end.

(** [GetModel] (lines 399-414). *)
Definition GetModel (modelIDStr : string) : M Reply := λ w,
  match strconv.ParseUint modelIDStr with
  | inl _ => (inr (BadRequest "validation.invalid_model_id"), w)
  | inr modelID =>
      match ModelServiceQueries.GetModelByID modelID w with
      | (inl _, w) => (inr (ResourceNotFound "model.model_not_found"), w)
      | (inr capability, w) => (inr (Success capability), w)
      end
  end.

(** [DeleteModel] (lines 470-486). *)
Definition DeleteModel (modelIDStr : string) : M Reply := λ w,
  match strconv.ParseUint modelIDStr with
  | inl _ => (inr (BadRequest "validation.invalid_model_id"), w)
  | inr modelID =>
      match ModelServiceQueries.DeleteModel modelID w with
      | (inl err, w) => (inr (InternalServer err), w)
      | (inr _, w) => (inr (SuccessMessage "model.deleted_successfully"), w)
      end
  end.

End Handlers.

(** The staleness duration of [RefreshModels] (lines 517-524):
    [stale_hours] when it is a positive integer, 24 otherwise, times
    [time.Hour] in [int64]. *)
Definition staleDuration_of_query (hoursStr : string) : Z :=
  let staleDurationHours :=
    if negb (String.eqb hoursStr "") then
      match strconv.Atoi hoursStr with
      | inr hours => if hours >? 0 then hours else 24
      | inl _ => 24
      end
    else 24 in
  wrap64 (staleDurationHours * Hour).

End model_handler.

(** ** The metrics middleware *)

Module prometheus_middleware.

(** The fields of [*http.Request] that the size estimate reads; [URLPath] is
    [None] when [r.URL] is nil. *)
Record HTTPRequest := mkHTTPRequest {
  URLPath : option string;
  ReqMethod : string;
  Proto : string;
  Header : GoNet.Header;
  Host : string;
  ContentLength : Z
}.

Definition len (s : string) : Z := Z.of_nat (String.length s).

(** The contribution of the header: for every name, its length and the
    lengths of its values. *)
Definition header_size (h : GoNet.Header) : Z :=
  foldr (λ entry acc, acc + len entry.1 + foldr (λ value a, a + len value) 0 entry.2)
        0 (map_to_list h).

(** [computeApproximateRequestSize]; the sum is taken in [int64]. *)
Definition computeApproximateRequestSize (r : HTTPRequest) : Z :=
  let s := match URLPath r with Some path => len path | None => 0 end in
  let s := s + len (ReqMethod r) in
  let s := s + len (Proto r) in
  let s := s + header_size (Header r) in
  let s := s + len (Host r) in
  let s := if negb (ContentLength r =? -1) then s + ContentLength r else s in
  wrap64 s.

Definition unknownEndpoint : string := "unknown".

Section Middleware_.
Variable float64_of_int64 : Z → float64.

(** [Middleware], after [c.Next()] has run: the request, [c.FullPath()],
    [c.Writer.Status()], [c.Writer.Size()] and the elapsed seconds give the
    sample that is recorded. *)
Definition Middleware (r : HTTPRequest) (fullPath : string) (status size : Z)
    (duration : float64) (m : prometheus.Metrics) : prometheus.Metrics :=
  let reqSize := computeApproximateRequestSize r in
  let respSize := Z.max 0 size in
  let endpoint := if String.eqb fullPath "" then unknownEndpoint else fullPath in
  prometheus.RecordHTTPRequest float64_of_int64 (ReqMethod r) endpoint status duration
    reqSize respSize m.

End Middleware_.
End prometheus_middleware.

(** * Properties *)

(** ** The library routines *)

Module GoStringsFacts.
Import GoStrings.

Lemma HasPrefix_spec s p : HasPrefix s p = true ↔ ∃ suf, s = p +:+ suf.
Proof.
  revert s. induction p as [|c p IH]; intros s; simpl.
  - split; [intros _; by exists s | done].
  - destruct s as [|d s]; simpl.
    + split; [done | intros [suf Hs]; discriminate].
    + destruct (Ascii.eqb_spec c d) as [->|Hne].
      * rewrite IH. split; intros [suf Hs]; exists suf; [by rewrite Hs | by injection Hs].
      * split; [done | intros [suf Hs]; injection Hs; intros _ ?; congruence].
Qed.

Lemma Contains_spec s substr : Contains s substr = true ↔ occurs_in substr s.
Proof.
  unfold occurs_in. induction s as [|d s IH]; simpl.
  - rewrite orb_false_r, HasPrefix_spec. split.
    + intros [suf Hs]. by exists "", suf.
    + intros [pre [suf Hs]]. destruct pre; [by exists suf | discriminate].
  - rewrite orb_true_iff, HasPrefix_spec, IH. split.
    + intros [[suf Hs] | [pre [suf Hs]]].
      * by exists "", suf.
      * exists (String d pre), suf. simpl. by rewrite Hs.
    + intros [pre [suf Hs]]. destruct pre as [|e pre]; simpl in Hs.
      * left. by exists suf.
      * right. injection Hs as _ Hs. by exists pre, suf.
Qed.


Fixpoint all_in_cutset (t cutset : string) : bool :=
  match t with
  | EmptyString => true
  | String c t' => in_cutset c cutset && all_in_cutset t' cutset
  end.

(** [TrimRight] removes a suffix made of bytes of the cutset. *)
Lemma TrimRight_prefix s cutset :
  ∃ t, s = TrimRight s cutset +:+ t ∧ all_in_cutset t cutset = true.
Proof.
  induction s as [|c s [t [IH Ht]]]; simpl; [by exists "" |].
  destruct (TrimRight s cutset) as [|e u] eqn:E.
  - destruct (in_cutset c cutset) eqn:Hc.
    + exists (String c s). split; [done |]. simpl. rewrite Hc. simpl.
      simpl in IH. by rewrite IH.
    + exists s. split; [done |]. simpl in IH. by rewrite IH.
  - exists t. split; [by rewrite IH at 1 | done].
Qed.

Lemma TrimRight_last s cutset c :
  last_byte (TrimRight s cutset) = Some c → in_cutset c cutset = false.
Proof.
  induction s as [|d s IH]; simpl; [done |].
  destruct (TrimRight s cutset) as [|e u] eqn:E.
  - destruct (in_cutset d cutset) eqn:Hd; simpl; [done |].
    intros [= <-]. done.
  - exact IH.
Qed.

Lemma TrimRight_fixed s cutset :
  (∀ c, last_byte s = Some c → in_cutset c cutset = false) →
  TrimRight s cutset = s.
Proof.
  induction s as [|c s IH]; simpl; [done |].
  destruct s as [|d s].
  - simpl. intros H. by rewrite (H c eq_refl).
  - intros H. rewrite (IH H). done.
Qed.

Lemma TrimRight_slash_last s : last_byte (TrimRight s "/") ≠ Some "/"%char.
Proof. intros H. apply TrimRight_last in H. discriminate. Qed.

Example Contains_ex1 : Contains "gpt-4-vision-preview" "vision" = true.
Proof. reflexivity. Qed.
Example Contains_ex2 : Contains "gpt-4o" "gpt-3.5" = false.
Proof. reflexivity. Qed.
Example TrimRight_ex1 : TrimRight "/base//" "/" = "/base".
Proof. reflexivity. Qed.
Example TrimRight_ex2 : TrimRight "/a/b" "/" = "/a/b".
Proof. reflexivity. Qed.
Example TrimRight_ex3 : TrimRight "/" "/" = "".
Proof. reflexivity. Qed.
Example Itoa_ex1 : Itoa 401 = "401".
Proof. reflexivity. Qed.
Example Itoa_ex2 : Itoa (-7) = "-7".
Proof. reflexivity. Qed.

End GoStringsFacts.

Module GoNetFacts.
Import GoNet.

Example Canonical_ex1 : CanonicalMIMEHeaderKey "x-api-key" = "X-Api-Key".
Proof. reflexivity. Qed.
Example Canonical_ex2 : CanonicalMIMEHeaderKey "Accept" = "Accept".
Proof. reflexivity. Qed.
Example Canonical_ex3 : CanonicalMIMEHeaderKey "Content-Type" = "Content-Type".
Proof. reflexivity. Qed.
Example Canonical_ex4 : CanonicalMIMEHeaderKey "Authorization" = "Authorization".
Proof. reflexivity. Qed.

End GoNetFacts.

(** ** The channel adapters *)

Module ChannelFacts.
Import GoStrings GoNet.

Definition example_key : APIKey.t := APIKey.mk 7 1 "sk-XYZ" KeyStatusActive.
Definition example_group : Group.t :=
  Group.mk 1 "demo" "openai" [UpstreamInfo.mk "/base/" 1] []
           "/v1/chat/completions?beta=1" "gpt-4o-mini".
Definition example_channel (status : Z) (body : bytes) : BaseChannel.t :=
  BaseChannel.mk "openai" ["/base/"] (λ _, inr (mkResponse status body None))
                 "gpt-4o-mini" "/v1/chat/completions?beta=1".

Section Adapters.
Context `{External}.

Lemma applyGroupHeaderRules_URL req group apiKey :
  ReqURL (applyGroupHeaderRules req group apiKey) = ReqURL req.
Proof. unfold applyGroupHeaderRules. by case_match. Qed.

(** What a successful [FetchModels] went through. *)
Lemma OpenAI_FetchModels_inr ch now apiKey group caps :
  OpenAIChannel.FetchModels ch now apiKey group = inr caps →
  ∃ req resp data,
    BaseChannel.HTTPClient ch req = inr resp ∧ StatusCode resp = 200 ∧
    BodyErr resp = None ∧
    json_Unmarshal_openaiModels (BodyData resp) = inr data ∧
    caps = map (OpenAIChannel.capability_of group now) data.
Proof.
  unfold OpenAIChannel.FetchModels.
  destruct (BaseChannel.getUpstreamURL ch) as [u|]; [|done].
  destruct (NewRequest _ _ _) as [e|req]; [done|].
  set (req' := applyGroupHeaderRules _ _ _).
  destruct (BaseChannel.HTTPClient ch req') as [e|resp] eqn:Hdo; [done|].
  destruct (StatusCode resp =? 200) eqn:Hst; simpl; [|done].
  unfold ReadAll. destruct (BodyErr resp) as [e|] eqn:Hb; [done|].
  destruct (json_Unmarshal_openaiModels (BodyData resp)) as [e|data] eqn:Hj; [done|].
  intros [= <-]. exists req', resp, data. repeat split; try done. lia.
Qed.

(** One row of the OpenAI catalog. *)
Lemma OpenAI_capability_of_flags group now model :
  let row := OpenAIChannel.capability_of group now model in
  let id := OpenAIModel.ID model in
  ModelCapabilities.ModelID row = id ∧
  ModelCapabilities.SupportsStreaming row = true ∧
  ModelCapabilities.SupportsFunctions row
    = (Contains id "gpt-4" || Contains id "gpt-3.5") ∧
  ModelCapabilities.SupportsVision row
    = ((Contains id "gpt-4" || Contains id "gpt-3.5") && Contains id "vision").
Proof.
  unfold OpenAIChannel.capability_of. simpl.
  destruct (Contains _ "gpt-4" || Contains _ "gpt-3.5"); simpl;
    [destruct (Contains _ "vision")|]; done.
Qed.

(** C1 (amended).  Every row that [OpenAIChannel.FetchModels] returns has
    [supports_streaming] set; [supports_functions] is set exactly when the
    model id contains "gpt-4" or "gpt-3.5"; and [supports_vision] is set
    exactly when the id contains "vision" and also contains "gpt-4" or
    "gpt-3.5": the test for "vision" sits inside the branch of the
    function-calling models. *)
Theorem OpenAI_FetchModels_capabilities ch now apiKey group caps row :
  OpenAIChannel.FetchModels ch now apiKey group = inr caps →
  row ∈ caps →
  let id := ModelCapabilities.ModelID row in
  ModelCapabilities.SupportsStreaming row = true ∧
  (ModelCapabilities.SupportsFunctions row = true
     ↔ occurs_in "gpt-4" id ∨ occurs_in "gpt-3.5" id) ∧
  (ModelCapabilities.SupportsVision row = true
     ↔ occurs_in "vision" id ∧ (occurs_in "gpt-4" id ∨ occurs_in "gpt-3.5" id)).
Proof.
  intros Hfetch Hrow.
  apply OpenAI_FetchModels_inr in Hfetch as (req & resp & data & _ & _ & _ & _ & ->).
  apply list_elem_of_fmap in Hrow as (model & -> & _).
  destruct (OpenAI_capability_of_flags group now model) as (Hid & Hs & Hf & Hv).
  cbv zeta. rewrite Hid, Hs, Hf, Hv.
  rewrite andb_true_iff, orb_true_iff, !GoStringsFacts.Contains_spec.
  split; [done | split; [done | tauto]].
Qed.

End Adapters.

Definition vision_only_catalog : list OpenAIModel.t :=
  [OpenAIModel.mk "dall-e-vision" "model" "openai"].

(** Running the adapter on the catalog entry "gpt-4-vision-preview". *)
Lemma OpenAI_FetchModels_capabilities_witness :
  let env := stub_External (λ _, inr false)
               [OpenAIModel.mk "gpt-4-vision-preview" "model" "openai"] in
  let row := @OpenAIChannel.capability_of example_group 5
               (OpenAIModel.mk "gpt-4-vision-preview" "model" "openai") in
  ModelCapabilities.SupportsStreaming row = true ∧
  (ModelCapabilities.SupportsFunctions row = true
     ↔ occurs_in "gpt-4" "gpt-4-vision-preview"
       ∨ occurs_in "gpt-3.5" "gpt-4-vision-preview") ∧
  (ModelCapabilities.SupportsVision row = true
     ↔ occurs_in "vision" "gpt-4-vision-preview"
       ∧ (occurs_in "gpt-4" "gpt-4-vision-preview"
          ∨ occurs_in "gpt-3.5" "gpt-4-vision-preview")).
Proof.
  intros env row.
  apply (@OpenAI_FetchModels_capabilities env (example_channel 200 "{}") 5
           example_key example_group [row] row).
  - vm_compute. reflexivity.
  - left.
Defined.

(** C1 as stated fails: the catalog entry "dall-e-vision" contains "vision",
    and its row has [supports_vision = false]. *)
Lemma OpenAI_FetchModels_vision_counterexample :
  ¬ (∀ (env : External) ch now apiKey group caps row,
       @OpenAIChannel.FetchModels env ch now apiKey group = inr caps →
       row ∈ caps →
       (ModelCapabilities.SupportsVision row = true
          ↔ occurs_in "vision" (ModelCapabilities.ModelID row))).
Proof.
  intros Hall.
  pose (env := stub_External (λ _, inr false) vision_only_catalog).
  pose (row := @OpenAIChannel.capability_of example_group 5
                 (OpenAIModel.mk "dall-e-vision" "model" "openai")).
  assert (Hrun : @OpenAIChannel.FetchModels env (example_channel 200 "{}") 5
                   example_key example_group = inr [row])
    by (vm_compute; reflexivity).
  destruct (Hall env _ _ _ _ _ row Hrun) as [_ Hback]; [left |].
  assert (Hv : ModelCapabilities.SupportsVision row = false) by reflexivity.
  rewrite Hv in Hback. discriminate Hback.
  apply GoStringsFacts.Contains_spec. reflexivity.
Qed.

End ChannelFacts.

Module StreamFacts.
Import GoStrings GoNet.






(** Stream detection by body alone (the body [{"stream":true}]), by header
    alone, by query alone, and a body that does not parse. *)
Definition quote : string := String (ascii_of_N 34) "".
Definition stream_body : bytes := "{" +:+ quote +:+ "stream" +:+ quote +:+ ":true}".

Definition body_stream_env : External :=
  stub_External (λ b, if String.eqb b stream_body then inr true
                      else if String.eqb b "{" then inl "unexpected end of JSON input"
                      else inr false) [].

Example IsStreamRequest_by_body :
  @OpenAIChannel.IsStreamRequest body_stream_env (mkContext ∅ ∅) stream_body = true.
Proof. vm_compute. reflexivity. Qed.

Example IsStreamRequest_by_header :
  @AnthropicChannel.IsStreamRequest body_stream_env
    (mkContext {[ "Accept" := ["application/json, text/event-stream"] ]} ∅) "{}" = true.
Proof. vm_compute. reflexivity. Qed.

Example IsStreamRequest_by_query :
  @OpenAIChannel.IsStreamRequest body_stream_env
    (mkContext ∅ {[ "stream" := ["true"] ]}) "{}" = true.
Proof. vm_compute. reflexivity. Qed.

Example IsStreamRequest_unparsable :
  @OpenAIChannel.IsStreamRequest body_stream_env
    (mkContext {[ "Accept" := ["application/json"] ]} {[ "stream" := ["1"] ]}) "{" = false.
Proof. vm_compute. reflexivity. Qed.

End StreamFacts.

Module ValidateKeyFacts.
Import GoStrings GoNet.

Section Probe.
Context `{External}.






(** The probe URL: what [probeURL] keeps of the upstream and what it takes
    from the endpoint. *)
Lemma probeURL_fields upstream endpoint :
  Scheme (probeURL upstream endpoint) = Scheme upstream
  ∧ Host (probeURL upstream endpoint) = Host upstream
  ∧ Path (probeURL upstream endpoint)
    = TrimRight (Path upstream) "/" +:+ Path endpoint
  ∧ RawQuery (probeURL upstream endpoint) = RawQuery endpoint.
Proof. done. Qed.

Lemma OpenAI_ValidateKey_request_inr ch apiKey group req :
  OpenAIChannel.ValidateKey_request ch apiKey group = inr req →
  ∃ upstream endpoint,
    BaseChannel.getUpstreamURL ch = Some upstream
    ∧ url_Parse (BaseChannel.ValidationEndpoint ch) = inr endpoint
    ∧ Method req = "POST"
    ∧ ReqURL req = URL_String (probeURL upstream endpoint).
Proof.
  unfold OpenAIChannel.ValidateKey_request.
  destruct (BaseChannel.getUpstreamURL ch) as [upstream|]; [|done].
  destruct (url_Parse (BaseChannel.ValidationEndpoint ch)) as [e|endpoint]; [done|].
  destruct (json_Marshal _) as [e|body]; [done|].
  unfold NewRequest. destruct (url_Parse (URL_String _)) as [e|u]; [done|].
  intros [= <-]. exists upstream, endpoint.
  unfold applyGroupHeaderRules. by case_match.
Qed.

(** C6.  The request that [ValidateKey] builds goes to the URL whose scheme
    and host are the upstream's, whose path is the upstream path without its
    trailing slashes followed by the endpoint path, and whose query is the
    endpoint's query; the trimmed upstream path is the upstream path minus a
    run of slashes at its end, so a sub-path of the upstream is kept. *)
Theorem ValidateKey_probe_URL ch apiKey group req :
  OpenAIChannel.ValidateKey_request ch apiKey group = inr req →
  ∃ upstream endpoint finalURL,
    BaseChannel.getUpstreamURL ch = Some upstream
    ∧ url_Parse (BaseChannel.ValidationEndpoint ch) = inr endpoint
    ∧ ReqURL req = URL_String finalURL
    ∧ Scheme finalURL = Scheme upstream
    ∧ Host finalURL = Host upstream
    ∧ Path finalURL = TrimRight (Path upstream) "/" +:+ Path endpoint
    ∧ RawQuery finalURL = RawQuery endpoint
    ∧ last_byte (TrimRight (Path upstream) "/") ≠ Some "/"%char
    ∧ ∃ slashes, Path upstream = TrimRight (Path upstream) "/" +:+ slashes
                 ∧ GoStringsFacts.all_in_cutset slashes "/" = true.
Proof.
  intros Hreq.
  apply OpenAI_ValidateKey_request_inr in Hreq as (upstream & endpoint & Hu & He & _ & Hurl).
  exists upstream, endpoint, (probeURL upstream endpoint).
  repeat split; try done.
  - apply GoStringsFacts.TrimRight_slash_last.
  - apply GoStringsFacts.TrimRight_prefix.
Qed.

End Probe.

(** A concrete run: status 401 with a readable body, upstream [/base/],
    endpoint [/v1/chat/completions?beta=1]. *)
Definition probe_env : External :=
  {| url_Parse := λ s,
       if String.eqb s "/v1/chat/completions?beta=1"
       then inr (mkURL "" None "" "/v1/chat/completions" "" "beta=1" "")
       else inr (mkURL "https" None "api.example.com" s "" "" "");
     URL_String := λ u, Scheme u +:+ "://" +:+ Host u +:+ Path u
                        +:+ (if String.eqb (RawQuery u) "" then ""
                             else "?" +:+ RawQuery u);
     json_Marshal := λ _, inr "{}";
     json_Unmarshal_map := λ _, inr [];
     json_Unmarshal_streamPayload := λ _, inr false;
     json_Unmarshal_modelPayload := λ _, inr "";
     json_Unmarshal_openaiModels := λ _, inr [];
     json_Unmarshal_anthropicModels := λ _, inr [];
     ParseUpstreamError := λ b, b;
     ApplyHeaderRules := λ h _ _, h |}.

Definition probe_channel : BaseChannel.t :=
  BaseChannel.mk "openai" ["/base/"]
    (λ _, inr (mkResponse 401 "Incorrect API key provided" None))
    "gpt-4o-mini" "/v1/chat/completions?beta=1".

Definition probe_group : Group.t :=
  Group.mk 1 "demo" "openai" [UpstreamInfo.mk "/base/" 1] []
           "/v1/chat/completions?beta=1" "gpt-4o-mini".

Definition probe_key : APIKey.t := APIKey.mk 7 1 "sk-XYZ" KeyStatusActive.

Definition probe_request_openai : Request :=
  mkRequest "POST" "https://api.example.com/base/v1/chat/completions?beta=1"
    {[ "Authorization" := ["Bearer sk-XYZ"]; "Content-Type" := ["application/json"] ]}
    (Some "{}").


Example ValidateKey_401 :
  @OpenAIChannel.ValidateKey probe_env probe_channel probe_key probe_group
  = (false, Some "[status 401] Incorrect API key provided").
Proof. vm_compute. reflexivity. Qed.

Example ValidateKey_request_example :
  @OpenAIChannel.ValidateKey_request probe_env probe_channel probe_key probe_group
  = inr probe_request_openai.
Proof. vm_compute. reflexivity. Qed.



Lemma ValidateKey_probe_URL_witness :
  ∃ upstream endpoint finalURL,
    @BaseChannel.getUpstreamURL probe_env probe_channel = Some upstream
    ∧ @url_Parse probe_env (BaseChannel.ValidationEndpoint probe_channel) = inr endpoint
    ∧ ReqURL probe_request_openai = @URL_String probe_env finalURL
    ∧ Scheme finalURL = Scheme upstream
    ∧ Host finalURL = Host upstream
    ∧ Path finalURL = TrimRight (Path upstream) "/" +:+ Path endpoint
    ∧ RawQuery finalURL = RawQuery endpoint
    ∧ last_byte (TrimRight (Path upstream) "/") ≠ Some "/"%char
    ∧ ∃ slashes, Path upstream = TrimRight (Path upstream) "/" +:+ slashes
                 ∧ GoStringsFacts.all_in_cutset slashes "/" = true.
Proof.
  apply (@ValidateKey_probe_URL probe_env probe_channel probe_key probe_group
           probe_request_openai).
  vm_compute. reflexivity.
Defined.

(** On the upstream [https://api.example.com/base/] and the endpoint
    [/v1/chat/completions?beta=1], the sub-path [/base] and the query
    [beta=1] are both in the probe URL. *)
Example probeURL_keeps_subpath_and_query :
  probeURL (mkURL "https" None "api.example.com" "/base/" "" "" "")
           (mkURL "" None "" "/v1/chat/completions" "" "beta=1" "")
  = mkURL "https" None "api.example.com" "/base/v1/chat/completions" "" "beta=1" "".
Proof. reflexivity. Qed.

End ValidateKeyFacts.

(** ** The model registry *)

Module StoreFacts.
Import gorm.

(** Two worlds that differ by the table and the consumed part of the fault
    script only. *)
Definition same_log (w w' : World.t) : Prop :=
  World.trace w' = World.trace w ∧ World.now w' = World.now w.

Lemma same_log_refl w : same_log w w.
Proof. done. Qed.

Lemma same_log_trans w1 w2 w3 : same_log w1 w2 → same_log w2 w3 → same_log w1 w3.
Proof. unfold same_log. intros [-> ->] [-> ->]. done. Qed.

(** A statement on a store without scripted failures runs on the table. *)
Lemma stmt_healthy {A} (f : list ModelCapabilities.t → error + (A * list ModelCapabilities.t)) w :
  World.faults w = [] →
  stmt f w = match f (World.table w) with
             | inl e => (inl e, w)
             | inr (a, tbl) => (inr a, World.set_table w tbl)
             end.
Proof. intros Hf. unfold stmt. by rewrite Hf. Qed.

(** What any statement can do to the world. *)
Lemma stmt_cases {A} (f : list ModelCapabilities.t → error + (A * list ModelCapabilities.t)) w :
  ∃ fs, let w0 := World.set_faults w fs in
    (∃ e, stmt f w = (inl e, w0))
    ∨ (∃ a tbl, f (World.table w) = inr (a, tbl) ∧ stmt f w = (inr a, World.set_table w0 tbl)).
Proof.
  unfold stmt. destruct w as [tbl fs now tr]. simpl.
  destruct fs as [|[e|] fs]; simpl.
  - exists []. destruct (f tbl) as [e|[a tbl']] eqn:Hf; simpl; eauto.
  - exists fs. eauto.
  - exists fs. destruct (f tbl) as [e|[a tbl']] eqn:Hf; simpl; eauto.
Qed.

Lemma stmt_same_log {A} (f : list ModelCapabilities.t → error + (A * list ModelCapabilities.t)) w :
  same_log w (stmt f w).2.
Proof.
  destruct (stmt_cases f w) as [fs [[e ->] | (a & tbl & _ & ->)]]; done.
Qed.

Lemma Count_healthy cond w :
  World.faults w = [] →
  Count cond w = (inr (Z.of_nat (length (filter (λ r, cond r = true) (World.table w)))), w).
Proof.
  intros Hf. unfold Count. rewrite stmt_healthy by done. by destruct w.
Qed.

Lemma Count_fault cond w e fs :
  World.faults w = Some e :: fs →
  Count cond w = (inl e, World.set_faults w fs).
Proof. intros Hf. unfold Count, stmt. by rewrite Hf. Qed.

Lemma filter_nonempty {A} (P : A → Prop) `{∀ x, Decision (P x)} (l : list A) :
  0 < Z.of_nat (length (filter P l)) ↔ ∃ x, x ∈ l ∧ P x.
Proof.
  split.
  - destruct (filter P l) as [|x l'] eqn:E; simpl; [lia|]. intros _.
    assert (x ∈ filter P l) as Hin by (rewrite E; left).
    apply list_elem_of_filter in Hin. exists x. tauto.
  - intros (x & Hx & HP).
    assert (x ∈ filter P l) as Hin by (by apply list_elem_of_filter).
    destruct (filter P l); [by apply elem_of_nil in Hin | simpl; lia].
Qed.

Lemma filter_empty {A} (P : A → Prop) `{∀ x, Decision (P x)} (l : list A) :
  Z.of_nat (length (filter P l)) = 0 ↔ ∀ x, x ∈ l → ¬ P x.
Proof.
  pose proof (filter_nonempty P l) as Hn. split.
  - intros H0 x Hx HP. assert (0 < Z.of_nat (length (filter P l))) by (apply Hn; eauto). lia.
  - intros Hall. destruct (decide (0 < Z.of_nat (length (filter P l)))) as [Hpos|]; [|lia].
    apply Hn in Hpos as (x & Hx & HP). by destruct (Hall x Hx).
Qed.

End StoreFacts.

Module ModelServiceFacts.
Import gorm StoreFacts ModelService.

Definition preserves_log {A} (m : M A) : Prop := ∀ w, same_log w (m w).2.

Lemma stmt_preserves_log {A} (f : list ModelCapabilities.t → error + (A * list ModelCapabilities.t)) :
  preserves_log (stmt f).
Proof. intros w. apply stmt_same_log. Qed.

Lemma bind_preserves_log {A B} (m : M A) (k : A → M B) :
  preserves_log m → (∀ a, preserves_log (k a)) → preserves_log (bind m k).
Proof.
  intros Hm Hk w. unfold bind. specialize (Hm w).
  destruct (m w) as [[e|a] w1]; simpl in *; [done|].
  eapply same_log_trans; [exact Hm | apply Hk].
Qed.

Lemma upsert_preserves_log capability : preserves_log (upsert capability).
Proof.
  intros w. unfold upsert.
  pose proof (stmt_same_log
    (λ tbl, match min_by_ID (filter (λ r,
                ((ModelCapabilities.GroupID r =? ModelCapabilities.GroupID capability)
                 && String.eqb (ModelCapabilities.ModelID r)
                               (ModelCapabilities.ModelID capability)) = true) tbl) with
            | None => inl ErrRecordNotFound
            | Some r => inr (r, tbl)
            end) w) as H1.
  unfold First. destruct (stmt _ w) as [[e|existing] w1]; simpl in H1.
  - destruct (String.eqb e ErrRecordNotFound); [|done].
    eapply same_log_trans; [exact H1 | apply stmt_same_log].
  - eapply same_log_trans; [exact H1 | apply stmt_same_log].
Qed.

Lemma upsert_all_preserves_log capabilities : preserves_log (upsert_all capabilities).
Proof.
  induction capabilities as [|c cs IH]; simpl; [done|].
  apply bind_preserves_log; [apply upsert_preserves_log | done].
Qed.

Lemma Transaction_preserves_log f : preserves_log f → preserves_log (Transaction f).
Proof.
  intros Hf w. unfold Transaction.
  pose proof (stmt_same_log (λ tbl, inr (tt, tbl)) w) as H1.
  destruct (stmt _ w) as [[e|[]] w1]; simpl in *; [done|].
  specialize (Hf w1).
  destruct (f w1) as [[e|[]] w2]; simpl in *.
  { destruct H1 as [? ?], Hf as [? ?]. split; simpl; congruence. }
  pose proof (stmt_same_log (λ tbl, inr (tt, tbl)) w2) as H3.
  destruct (stmt _ w2) as [[e|[]] w3]; simpl in *;
    destruct H1 as [? ?], Hf as [? ?], H3 as [? ?]; split; simpl; congruence.
Qed.

(** Counting invocations and provider calls in the trace. *)
Definition is_invocation (e : Event) : bool :=
  match e with EvFetchAndStoreModels _ _ => true | _ => false end.
Definition is_provider_call (e : Event) : bool :=
  match e with EvFetchModels _ _ => true | _ => false end.

Definition invocations (w : World.t) : nat :=
  length (filter (λ e, is_invocation e = true) (World.trace w)).
Definition provider_calls (w : World.t) : nat :=
  length (filter (λ e, is_provider_call e = true) (World.trace w)).

Section Service.
Variable GetChannel : Group.t → error + ChannelProxy.t.

(** [FetchAndStoreModels] records its own invocation and at most one call
    to the provider. *)
Lemma FetchAndStoreModels_trace group apiKey w :
  let w' := (FetchAndStoreModels GetChannel group apiKey w).2 in
  World.now w' = World.now w ∧
  (World.trace w'
   = (World.trace w ++ [EvFetchAndStoreModels (Group.ID group) (APIKey.ID apiKey)])%list
   ∨ World.trace w'
     = (World.trace w ++ [EvFetchAndStoreModels (Group.ID group) (APIKey.ID apiKey);
                          EvFetchModels (Group.ID group) (APIKey.ID apiKey)])%list).
Proof.
  unfold FetchAndStoreModels.
  destruct (GetChannel group) as [e|ch]; simpl; [by split; [|left]|].
  unfold callFetchModels.
  destruct (ChannelProxy.FetchModels ch _ apiKey group) as [e|caps]; simpl.
  { split; [done|]. right. by rewrite <- app_assoc. }
  destruct (Z.of_nat (length caps) =? 0); simpl.
  { split; [done|]. right. by rewrite <- app_assoc. }
  match goal with |- context [Transaction ?f ?w0] =>
    destruct (Transaction_preserves_log f (upsert_all_preserves_log caps) w0) as [Ht Hn]
  end.
  rewrite Ht, Hn. simpl. split; [done|]. right. by rewrite <- app_assoc.
Qed.

Lemma FetchAndStoreModels_invocations group apiKey w :
  invocations (FetchAndStoreModels GetChannel group apiKey w).2 = S (invocations w).
Proof.
  destruct (FetchAndStoreModels_trace group apiKey w) as [_ [Ht|Ht]];
    unfold invocations; rewrite Ht, filter_app, length_app; simpl; lia.
Qed.

(** A row that calls for a refresh: an auto-fetched row of the group never
    fetched, or fetched before [staleTime]. *)
Definition stale_row (groupID : Z) (staleTime : Time) (r : ModelCapabilities.t) : Prop :=
  ModelCapabilities.GroupID r = groupID
  ∧ ModelCapabilities.IsAutoFetched r = true
  ∧ (ModelCapabilities.LastFetchedAt r = None
     ∨ ∃ t, ModelCapabilities.LastFetchedAt r = Some t ∧ t < staleTime).

(** [time.Now().Add(-staleDuration)] *)
Definition stale_time (w : World.t) (staleDuration : Z) : Time :=
  Time_Add (World.now w) (neg_Duration staleDuration).

Definition needs_refresh (w : World.t) (groupID : Z) (staleDuration : Z) : Prop :=
  (∃ r, r ∈ World.table w ∧ stale_row groupID (stale_time w staleDuration) r)
  ∨ (∀ r, r ∈ World.table w → ModelCapabilities.GroupID r ≠ groupID).

Lemma is_stale_spec groupID staleTime r :
  is_stale groupID staleTime r = true ↔ stale_row groupID staleTime r.
Proof.
  unfold is_stale, stale_row.
  rewrite !andb_true_iff, Z.eqb_eq.
  destruct (ModelCapabilities.IsAutoFetched r); simpl;
    destruct (ModelCapabilities.LastFetchedAt r) as [t|]; simpl.
  - rewrite Z.ltb_lt. split; [intros [[? _] ?]; eauto 6 | ].
    intros (? & _ & [? | (t' & [= <-] & ?)]); done.
  - split; [intros [[? _] _]; eauto | intros (? & _ & _); done].
  - split; [intros [[_ ?] _]; done | intros (_ & ? & _); done].
  - split; [intros [[_ ?] _]; done | intros (_ & ? & _); done].
Qed.

(** Away from the least [int64], [now.Add(-d)] is [now - d]. *)
Lemma stale_time_exact w d :
  - 2^63 < d < 2^63 → stale_time w d = World.now w - d.
Proof.
  intros Hd. unfold stale_time, Time_Add, neg_Duration, wrap64.
  rewrite Z.mod_small by lia. lia.
Qed.

(** On a store whose statements succeed, [RefreshStaleModels] is
    [FetchAndStoreModels] when a refresh is called for and does nothing
    otherwise. *)
Lemma RefreshStaleModels_cases group apiKey staleDuration w :
  World.faults w = [] →
  (needs_refresh w (Group.ID group) staleDuration
   ∧ RefreshStaleModels GetChannel group apiKey staleDuration w
     = FetchAndStoreModels GetChannel group apiKey w)
  ∨ (¬ needs_refresh w (Group.ID group) staleDuration
     ∧ RefreshStaleModels GetChannel group apiKey staleDuration w = (inr tt, w)).
Proof.
  intros Hf. unfold RefreshStaleModels, bind, time_Now.
  rewrite Count_healthy by done.
  pose proof (filter_nonempty
    (λ r, is_stale (Group.ID group)
            (Time_Add (World.now w) (neg_Duration staleDuration)) r = true)
    (World.table w)) as Hstale.
  destruct (Z.gtb_spec
    (Z.of_nat (length (filter (λ r, is_stale (Group.ID group)
       (Time_Add (World.now w) (neg_Duration staleDuration)) r = true) (World.table w)))) 0)
    as [Hpos|Hzero].
  { left. split; [|done]. left.
    apply Hstale in Hpos as (r & Hr & Hs). exists r. by rewrite <- is_stale_spec. }
  rewrite Count_healthy by done.
  pose proof (filter_empty (λ r, in_group (Group.ID group) r = true) (World.table w)) as Hnone.
  destruct (Z.eqb_spec
    (Z.of_nat (length (filter (λ r, in_group (Group.ID group) r = true) (World.table w)))) 0)
    as [Hempty|Hsome].
  { left. split; [|done]. right. intros r Hr Hg.
    apply (proj1 Hnone Hempty r Hr). unfold in_group. by apply Z.eqb_eq. }
  right. split; [|done]. intros [(r & Hr & Hs) | Hall].
  - assert (0 < Z.of_nat (length (filter (λ r, is_stale (Group.ID group)
       (Time_Add (World.now w) (neg_Duration staleDuration)) r = true) (World.table w)))); [|lia].
    apply Hstale. exists r. by rewrite is_stale_spec.
  - apply Hsome, Hnone. intros r Hr Hg. apply (Hall r Hr).
    unfold in_group in Hg. by apply Z.eqb_eq.
Qed.

(** When the first statement fails, so does the refresh, and nothing is
    fetched. *)
Lemma RefreshStaleModels_store_failure group apiKey staleDuration w e fs :
  World.faults w = Some e :: fs →
  RefreshStaleModels GetChannel group apiKey staleDuration w
  = (inl e, World.set_faults w fs).
Proof.
  intros Hf. unfold RefreshStaleModels, bind, time_Now.
  by rewrite (Count_fault _ w e fs).
Qed.

(** C3.  On a store whose statements succeed, [RefreshStaleModels] invokes
    [FetchAndStoreModels] exactly when some auto-fetched row of the group has
    no [last_fetched_at] or one earlier than now minus the stale duration, or
    the group has no row at all; otherwise it returns success, calls no
    provider and leaves everything as it was.  In particular, with a stale
    duration of 24 hours, a group whose auto-fetched rows were all fetched
    one hour ago triggers no provider call. *)
Theorem RefreshStaleModels_refreshes_iff_stale group apiKey staleDuration w :
  World.faults w = [] →
  let out := RefreshStaleModels GetChannel group apiKey staleDuration w in
  (invocations out.2 = S (invocations w)
     ↔ needs_refresh w (Group.ID group) staleDuration)
  ∧ (needs_refresh w (Group.ID group) staleDuration →
       out = FetchAndStoreModels GetChannel group apiKey w)
  ∧ (¬ needs_refresh w (Group.ID group) staleDuration →
       out = (inr tt, w) ∧ provider_calls out.2 = provider_calls w
       ∧ invocations out.2 = invocations w)
  ∧ (staleDuration = 24 * Hour →
     (∃ r, r ∈ World.table w ∧ ModelCapabilities.GroupID r = Group.ID group
           ∧ ModelCapabilities.IsAutoFetched r = true) →
     (∀ r, r ∈ World.table w → ModelCapabilities.GroupID r = Group.ID group →
           ModelCapabilities.IsAutoFetched r = true →
           ModelCapabilities.LastFetchedAt r = Some (World.now w - Hour)) →
     out = (inr tt, w) ∧ provider_calls out.2 = provider_calls w).
Proof.
  intros Hf out.
  assert (Hskip : ¬ needs_refresh w (Group.ID group) staleDuration →
                  out = (inr tt, w) ∧ provider_calls out.2 = provider_calls w
                  ∧ invocations out.2 = invocations w).
  { intros Hn. destruct (RefreshStaleModels_cases group apiKey staleDuration w Hf)
      as [[Hy _] | [_ Heq]]; [done|]. subst out. by rewrite Heq. }
  split; [|split; [|split]].
  - destruct (RefreshStaleModels_cases group apiKey staleDuration w Hf)
      as [[Hy Heq] | [Hn Heq]]; subst out; rewrite Heq.
    + split; [done|]. intros _. apply FetchAndStoreModels_invocations.
    + simpl. split; [lia | done].
  - intros Hy. destruct (RefreshStaleModels_cases group apiKey staleDuration w Hf)
      as [[_ Heq] | [Hn _]]; [done | done].
  - exact Hskip.
  - intros -> (r0 & Hr0 & Hg0 & _) Hfresh.
    assert (¬ needs_refresh w (Group.ID group) (24 * Hour)) as Hn.
    { intros [(r & Hr & Hg & Ha & Hl) | Hall].
      - rewrite (Hfresh r Hr Hg Ha) in Hl.
        destruct Hl as [? | (t & [= <-] & Hlt)]; [done|].
        rewrite stale_time_exact in Hlt by (unfold Hour; lia).
        unfold Hour in Hlt. lia.
      - by apply (Hall r0 Hr0). }
    destruct (Hskip Hn) as (? & ? & _). done.
Qed.

(** *** What an auto-refresh leaves alone *)

(** [r'] is [r] up to the columns an auto-refresh may write. *)
Definition frame (r r' : ModelCapabilities.t) : Prop :=
  ModelCapabilities.ID r' = ModelCapabilities.ID r
  ∧ ModelCapabilities.GroupID r' = ModelCapabilities.GroupID r
  ∧ ModelCapabilities.ModelID r' = ModelCapabilities.ModelID r
  ∧ ModelCapabilities.CustomCapabilities r' = ModelCapabilities.CustomCapabilities r.

(** Every row of [tbl] is still there, at its place, up to [frame]. *)
Definition table_extends (tbl tbl' : list ModelCapabilities.t) : Prop :=
  ∀ i r, tbl !! i = Some r → ∃ r', tbl' !! i = Some r' ∧ frame r r'.

Definition preserves_rows {A} (m : M A) : Prop :=
  ∀ w, table_extends (World.table w) (World.table (m w).2).

Lemma frame_refl r : frame r r.
Proof. done. Qed.

Lemma frame_trans r1 r2 r3 : frame r1 r2 → frame r2 r3 → frame r1 r3.
Proof. unfold frame. intros (?&?&?&?) (?&?&?&?). repeat split; congruence. Qed.

Lemma table_extends_refl tbl : table_extends tbl tbl.
Proof. intros i r Hi. exists r. split; [done | apply frame_refl]. Qed.

Lemma table_extends_trans t1 t2 t3 :
  table_extends t1 t2 → table_extends t2 t3 → table_extends t1 t3.
Proof.
  intros H12 H23 i r Hi.
  destruct (H12 i r Hi) as (r2 & Hi2 & Hf2).
  destruct (H23 i r2 Hi2) as (r3 & Hi3 & Hf3).
  exists r3. split; [done | by eapply frame_trans].
Qed.

Lemma stmt_preserves_rows {A}
    (f : list ModelCapabilities.t → error + (A * list ModelCapabilities.t)) :
  (∀ tbl a tbl', f tbl = inr (a, tbl') → table_extends tbl tbl') →
  preserves_rows (stmt f).
Proof.
  intros Hf w.
  destruct (stmt_cases f w) as [fs [[e ->] | (a & tbl & Hrun & ->)]]; simpl.
  - apply table_extends_refl.
  - by eapply Hf.
Qed.

Lemma bind_preserves_rows {A B} (m : M A) (k : A → M B) :
  preserves_rows m → (∀ a, preserves_rows (k a)) → preserves_rows (bind m k).
Proof.
  intros Hm Hk w. unfold bind. specialize (Hm w).
  destruct (m w) as [[e|a] w1]; simpl in *; [done|].
  eapply table_extends_trans; [exact Hm | apply Hk].
Qed.

Lemma First_preserves_rows cond : preserves_rows (First cond).
Proof.
  apply stmt_preserves_rows. intros tbl a tbl' Hrun.
  destruct (min_by_ID _); simplify_eq. apply table_extends_refl.
Qed.

Lemma Create_preserves_rows row : preserves_rows (Create row).
Proof.
  apply stmt_preserves_rows. intros tbl a tbl' Hrun.
  assert (∃ x, tbl' = (tbl ++ [x])%list) as [x ->].
  { destruct (ModelCapabilities.ID row =? 0); [simplify_eq; eauto|].
    destruct (existsb _ tbl); simplify_eq; eauto. }
  intros i r Hi. exists r. split; [by apply lookup_app_l_Some | apply frame_refl].
Qed.

Lemma apply_updates_frame u r :
  u !! "custom_capabilities" = None → frame r (apply_updates u r).
Proof. intros Hu. unfold frame, apply_updates, col_json. simpl. by rewrite Hu. Qed.

Lemma Updates_preserves_rows id u :
  u !! "custom_capabilities" = None → preserves_rows (Updates id u).
Proof.
  intros Hu. apply stmt_preserves_rows. intros tbl a tbl' [= _ <-].
  intros i r Hi. rewrite list_lookup_fmap, Hi. simpl.
  eexists. split; [done|].
  destruct (ModelCapabilities.ID r =? id); [by apply apply_updates_frame | apply frame_refl].
Qed.

(** The map of an auto-refresh has no entry for [custom_capabilities]. *)
Lemma updates_of_custom_capabilities capability :
  updates_of capability !! "custom_capabilities" = None.
Proof.
  unfold updates_of.
  destruct (ModelCapabilities.MaxTokens capability),
           (ModelCapabilities.MaxInputTokens capability),
           (ModelCapabilities.MaxOutputTokens capability); vm_compute; reflexivity.
Qed.

(** What the update of an existing row writes: the name, the three flags,
    [is_auto_fetched], [last_fetched_at], and the limits the fetched
    capability has; the rest of the row stays. *)
Lemma apply_updates_of capability r :
  apply_updates (updates_of capability) r
  = ModelCapabilities.mk
      (ModelCapabilities.ID r)
      (ModelCapabilities.GroupID r)
      (ModelCapabilities.ModelID r)
      (ModelCapabilities.ModelName capability)
      (ModelCapabilities.SupportsStreaming capability)
      (ModelCapabilities.SupportsVision capability)
      (ModelCapabilities.SupportsFunctions capability)
      (match ModelCapabilities.MaxTokens capability with
       | Some n => Some n | None => ModelCapabilities.MaxTokens r end)
      (match ModelCapabilities.MaxInputTokens capability with
       | Some n => Some n | None => ModelCapabilities.MaxInputTokens r end)
      (match ModelCapabilities.MaxOutputTokens capability with
       | Some n => Some n | None => ModelCapabilities.MaxOutputTokens r end)
      (ModelCapabilities.CustomCapabilities r)
      (ModelCapabilities.IsAutoFetched capability)
      (ModelCapabilities.LastFetchedAt capability).
Proof.
  unfold updates_of.
  destruct (ModelCapabilities.MaxTokens capability),
           (ModelCapabilities.MaxInputTokens capability),
           (ModelCapabilities.MaxOutputTokens capability); vm_compute; reflexivity.
Qed.

Lemma upsert_preserves_rows capability : preserves_rows (upsert capability).
Proof.
  intros w. unfold upsert.
  match goal with |- context [First ?c w] =>
    pose proof (First_preserves_rows c w) as H1; destruct (First c w) as [[e|existing] w1]
  end; simpl in H1.
  - destruct (String.eqb e ErrRecordNotFound); [|done].
    eapply table_extends_trans; [exact H1 | apply Create_preserves_rows].
  - eapply table_extends_trans; [exact H1 |].
    apply Updates_preserves_rows, updates_of_custom_capabilities.
Qed.

Lemma upsert_all_preserves_rows capabilities : preserves_rows (upsert_all capabilities).
Proof.
  induction capabilities as [|c cs IH]; simpl; [intros w; apply table_extends_refl|].
  apply bind_preserves_rows; [apply upsert_preserves_rows | done].
Qed.

Lemma stmt_id_table w :
  World.table (stmt (λ tbl, inr (tt, tbl)) w).2 = World.table w.
Proof.
  destruct (stmt_cases (λ tbl, @inr error _ (tt, tbl)) w)
    as [fs [[e ->] | (a & tbl & [= _ <-] & ->)]]; done.
Qed.



Lemma min_by_ID_elem_of l r : min_by_ID l = Some r → r ∈ l.
Proof.
  revert r. induction l as [|x l IH]; simpl; [done|]. intros r.
  destruct (min_by_ID l) as [r'|] eqn:E.
  - destruct (ModelCapabilities.ID x <=? ModelCapabilities.ID r'); intros [= <-].
    + left.
    + right. by apply IH.
  - intros [= <-]. left.
Qed.

(** The [Where] clause of the lookup in [upsert]. *)
Definition same_key (capability r : ModelCapabilities.t) : bool :=
  (ModelCapabilities.GroupID r =? ModelCapabilities.GroupID capability)
  && String.eqb (ModelCapabilities.ModelID r) (ModelCapabilities.ModelID capability).

(** The row an existing row becomes under an auto-refresh. *)
Definition refreshed (capability r : ModelCapabilities.t) : ModelCapabilities.t :=
  ModelCapabilities.mk
    (ModelCapabilities.ID r)
    (ModelCapabilities.GroupID r)
    (ModelCapabilities.ModelID r)
    (ModelCapabilities.ModelName capability)
    (ModelCapabilities.SupportsStreaming capability)
    (ModelCapabilities.SupportsVision capability)
    (ModelCapabilities.SupportsFunctions capability)
    (match ModelCapabilities.MaxTokens capability with
     | Some n => Some n | None => ModelCapabilities.MaxTokens r end)
    (match ModelCapabilities.MaxInputTokens capability with
     | Some n => Some n | None => ModelCapabilities.MaxInputTokens r end)
    (match ModelCapabilities.MaxOutputTokens capability with
     | Some n => Some n | None => ModelCapabilities.MaxOutputTokens r end)
    (ModelCapabilities.CustomCapabilities r)
    (ModelCapabilities.IsAutoFetched capability)
    (ModelCapabilities.LastFetchedAt capability).

(** The upsert of a capability whose row exists, on a store whose statements
    succeed. *)
Lemma upsert_existing capability w existing :
  World.faults w = [] →
  min_by_ID (filter (λ r, same_key capability r = true) (World.table w)) = Some existing →
  existing ∈ World.table w
  ∧ ModelCapabilities.GroupID existing = ModelCapabilities.GroupID capability
  ∧ ModelCapabilities.ModelID existing = ModelCapabilities.ModelID capability
  ∧ upsert capability w
    = (inr tt,
       World.set_table w
         (map (λ r, if ModelCapabilities.ID r =? ModelCapabilities.ID existing
                    then refreshed capability r else r) (World.table w))).
Proof.
  intros Hf Hmin.
  pose proof (min_by_ID_elem_of _ _ Hmin) as Hin.
  apply list_elem_of_filter in Hin as [Hkey Hin].
  unfold same_key in Hkey. apply andb_true_iff in Hkey as [Hg%Z.eqb_eq Hm%String.eqb_eq].
  repeat split; try done.
  unfold upsert, First. rewrite stmt_healthy by done.
  unfold same_key in Hmin. rewrite Hmin.
  unfold Updates. rewrite stmt_healthy by done. simpl.
  unfold World.set_table. simpl. do 2 f_equal.
  apply map_ext. intros r. by rewrite apply_updates_of.
Qed.



End Service.

(** *** Concrete runs *)

Definition sample_env : External :=
  stub_External (λ _, inr false)
    [OpenAIModel.mk "gpt-4o" "model" "openai";
     OpenAIModel.mk "gpt-3.5-turbo" "model" "openai"].

Definition sample_channel : BaseChannel.t :=
  BaseChannel.mk "openai" ["/"] (λ _, inr (GoNet.mkResponse 200 "{}" None))
                 "gpt-4o-mini" "/v1/chat/completions".

Definition sample_factory (group : Group.t) : error + ChannelProxy.t :=
  if String.eqb (Group.ChannelType group) "openai"
  then inr (ChannelProxy.mk (@OpenAIChannel.FetchModels sample_env sample_channel))
  else inl "unsupported channel type".

Definition sample_group : Group.t :=
  Group.mk 1 "demo" "openai" [UpstreamInfo.mk "/" 1] [] "/v1/chat/completions" "gpt-4o-mini".
Definition sample_key : APIKey.t := APIKey.mk 7 1 "sk-XYZ" KeyStatusActive.

Definition noon : Time := 1000 * Hour.

Definition fetched_row (id : Z) (model : string) (at_ : option Time) : ModelCapabilities.t :=
  ModelCapabilities.mk id 1 model model true false true None None None JNull true at_.

(** Three auto-fetched rows, all fetched one hour ago. *)
Definition fresh_world : World.t :=
  World.mk [fetched_row 1 "gpt-4o" (Some (noon - Hour));
            fetched_row 2 "gpt-3.5-turbo" (Some (noon - Hour));
            fetched_row 3 "gpt-4-turbo" (Some (noon - Hour))] [] noon [].

Definition empty_world : World.t := World.mk [] [] noon [].

Lemma RefreshStaleModels_refreshes_iff_stale_witness :
  World.faults fresh_world = []
  ∧ RefreshStaleModels sample_factory sample_group sample_key (24 * Hour) fresh_world
    = (inr tt, fresh_world)
  ∧ provider_calls
      (RefreshStaleModels sample_factory sample_group sample_key (24 * Hour) fresh_world).2
    = provider_calls fresh_world.
Proof.
  split; [reflexivity|].
  destruct (RefreshStaleModels_refreshes_iff_stale sample_factory sample_group sample_key
              (24 * Hour) fresh_world eq_refl) as (_ & _ & _ & Hfresh).
  apply Hfresh.
  - reflexivity.
  - exists (fetched_row 1 "gpt-4o" (Some (noon - Hour))).
    split; [left | split; reflexivity].
  - intros r Hr _ _.
    repeat (apply elem_of_cons in Hr as [->|Hr]; [reflexivity|]).
    by apply elem_of_nil in Hr.
Defined.

(** A group without rows is refreshed whatever the stale duration: the two
    models of the catalog are stored, after one call to the provider. *)
Example RefreshStaleModels_empty_group :
  RefreshStaleModels sample_factory sample_group sample_key (24 * Hour) empty_world
  = (inr tt,
     World.mk [fetched_row 1 "gpt-4o" (Some noon);
               fetched_row 2 "gpt-3.5-turbo" (Some noon)] [] noon
              [EvFetchAndStoreModels 1 7; EvFetchModels 1 7]).
Proof. vm_compute. reflexivity. Qed.

(** A row fetched 25 hours ago is stale at 24 hours. *)
Example RefreshStaleModels_stale_row :
  let w := World.mk [fetched_row 1 "gpt-4o" (Some (noon - 25 * Hour))] [] noon [] in
  provider_calls
    (RefreshStaleModels sample_factory sample_group sample_key (24 * Hour) w).2 = 1%nat.
Proof. vm_compute. reflexivity. Qed.

(** A failure of the store in the middle of the batch rolls the table back. *)
Example FetchAndStoreModels_rollback :
  let w := World.mk [fetched_row 1 "gpt-4o" (Some (noon - Hour))]
                    [None; None; None; None; Some "database is locked"] noon [] in
  FetchAndStoreModels sample_factory sample_group sample_key w
  = (inl "database is locked",
     World.mk [fetched_row 1 "gpt-4o" (Some (noon - Hour))] [] noon
              [EvFetchAndStoreModels 1 7; EvFetchModels 1 7]).
Proof. vm_compute. reflexivity. Qed.



End ModelServiceFacts.

(** ** Metrics *)

Module PrometheusFacts.
Import prometheus.

(** [c] is registered in [r]: the first descriptor of its name has its help
    text and label names. *)
Definition registered (c : Collector) (r : Registry) : Prop :=
  ∃ d, find (λ d, String.eqb (fqName d) (fqName c)) r = Some d ∧ same_dims d c = true.

Lemma same_dims_refl c : same_dims c c = true.
Proof. unfold same_dims. by rewrite !bool_decide_eq_true_2. Qed.

Lemma find_app_Some {A} (p : A → bool) l l' x :
  find p l = Some x → find p (l ++ l')%list = Some x.
Proof.
  induction l as [|y l IH]; simpl; [done|]. destruct (p y); [done | exact IH].
Qed.

Lemma find_app_None {A} (p : A → bool) l l' :
  find p l = None → find p (l ++ l')%list = find p l'.
Proof.
  induction l as [|y l IH]; simpl; [done|]. destruct (p y); [done | exact IH].
Qed.

Lemma registered_app c r l : registered c r → registered c (r ++ l)%list.
Proof. intros (d & Hd & Hs). exists d. split; [by apply find_app_Some | done]. Qed.

(** A registered collector is answered with [AlreadyRegisteredError]. *)
Lemma Register_registered c r :
  registered c r → ∃ d, Register c r = (Some (AlreadyRegisteredError d c), r).
Proof. intros (d & Hd & Hs). exists d. unfold Register. by rewrite Hd, Hs. Qed.

(** Whatever [Register] answers, it only appends; when it answers with no
    error or with [AlreadyRegisteredError], the collector is registered. *)
Lemma Register_cases c r :
  (Register c r = (None, (r ++ [c])%list) ∧ registered c (r ++ [c])%list)
  ∨ (∃ d, Register c r = (Some (AlreadyRegisteredError d c), r) ∧ registered c r)
  ∨ (∃ msg, Register c r = (Some (InconsistentDescError msg), r)).
Proof.
  unfold Register.
  destruct (find (λ d, String.eqb (fqName d) (fqName c)) r) as [d|] eqn:Hfind.
  - destruct (same_dims d c) eqn:Hs.
    + right. left. exists d. split; [done|]. by exists d.
    + right. right. eauto.
  - left. split; [done|]. exists c. split; [|apply same_dims_refl].
    rewrite find_app_None by done. simpl. by rewrite String.eqb_refl.
Qed.

Lemma register_all_registered ms r :
  (∀ c, c ∈ ms → registered c r) → register_all ms r = (None, r).
Proof.
  induction ms as [|c ms IH]; simpl; [done|]. intros Hall.
  destruct (Register_registered c r) as [d ->]; [apply Hall; left|]. simpl.
  apply IH. intros c' Hc'. apply Hall. by right.
Qed.

Lemma register_all_success ms r r1 :
  register_all ms r = (None, r1) →
  (∃ l, r1 = (r ++ l)%list) ∧ ∀ c, c ∈ ms → registered c r1.
Proof.
  revert r. induction ms as [|c ms IH]; simpl; intros r.
  { intros [= <-]. split; [exists []; by rewrite app_nil_r | intros c Hc; by apply elem_of_nil in Hc]. }
  destruct (Register_cases c r) as [[-> Hreg] | [(d & -> & Hreg) | (msg & ->)]]; simpl.
  - intros Hrest. destruct (IH _ Hrest) as [[l ->] Hall]. split.
    + exists ([c] ++ l)%list. by rewrite app_assoc.
    + intros c' [->|Hc']%elem_of_cons; [by apply registered_app | by apply Hall].
  - intros Hrest. destruct (IH _ Hrest) as [[l ->] Hall]. split; [by exists l|].
    intros c' [->|Hc']%elem_of_cons; [by apply registered_app | by apply Hall].
  - done.
Qed.

(** C7.  In a fresh process [Init] succeeds and registers the ten series; a
    second call succeeds too and leaves the registry as the first call left
    it.  More generally, from any registry, a call of [Init] that follows a
    successful one succeeds and changes nothing: registering a collector
    that is registered already is not an error. *)
Theorem Init_idempotent :
  (Init [] = (None, metrics) ∧ Init metrics = (None, metrics))
  ∧ (∀ r r1, Init r = (None, r1) → Init r1 = (None, r1)).
Proof.
  split; [split; vm_compute; reflexivity|].
  intros r r1 Hfirst. unfold Init in *.
  apply register_all_success in Hfirst as [_ Hall].
  by apply register_all_registered.
Qed.

(** The ten series on top of collectors registered by others. *)
Definition go_collector : Collector :=
  mkCollector Gauge "go_goroutines" "Number of goroutines that currently exist." [].

Lemma Init_idempotent_witness :
  Init [go_collector] = (None, go_collector :: metrics)
  ∧ Init (go_collector :: metrics) = (None, go_collector :: metrics).
Proof.
  split; [vm_compute; reflexivity|].
  apply (proj2 Init_idempotent [go_collector] (go_collector :: metrics)).
  vm_compute. reflexivity.
Defined.

(** The revision that [Init] replaced panics on the second call. *)
Example Init_MustRegister_twice :
  Init_MustRegister [] = Returned metrics
  ∧ Init_MustRegister metrics
    = Panicked "duplicate metrics collector registration attempted".
Proof. split; vm_compute; reflexivity. Qed.

(** A collector of the same name with other labels is an error that [Init]
    reports. *)
Example Init_inconsistent :
  (Init [mkCollector Counter "http_requests_total" "Total number of HTTP requests"
           ["method"]]).1
  = Some ("failed to register Prometheus metric: "
            +:+ "a previously registered descriptor with the same fully-qualified name as "
            +:+ "http_requests_total"
            +:+ " has different label names or a different help string").
Proof. vm_compute. reflexivity. Qed.

Lemma observations_Observe v labels x :
  observations (Observe v labels x) labels = (observations v labels ++ [x])%list.
Proof. unfold Observe, observations at 1. by rewrite lookup_insert_eq. Qed.

Lemma observations_Observe_ne v labels labels' x :
  labels ≠ labels' →
  observations (Observe v labels x) labels' = observations v labels'.
Proof. intros Hne. unfold Observe, observations at 1 3. by rewrite lookup_insert_ne. Qed.

Lemma Observe_changes v labels x : Observe v labels x ≠ v.
Proof.
  intros Heq.
  assert (length (observations (Observe v labels x) labels)
          = length (observations v labels)) as Hlen by (by rewrite Heq).
  rewrite observations_Observe, length_app in Hlen. simpl in Hlen. lia.
Qed.

Section Record_.
Variable float64_of_int64 : Z → float64.

(** C8.  [RecordHTTPRequest] adds one observation to
    [http_request_size_bytes] (under the labels method and endpoint) when the
    request size is greater than zero and leaves that histogram untouched
    otherwise; likewise for [http_response_size_bytes] and the response size.
    A size of zero gives no observation in either. *)
Theorem RecordHTTPRequest_size_observations method endpoint status duration
    reqSize respSize m :
  let m' := RecordHTTPRequest float64_of_int64 method endpoint status duration
              reqSize respSize m in
  (m_httpRequestSize m' ≠ m_httpRequestSize m ↔ 0 < reqSize)
  ∧ (m_httpResponseSize m' ≠ m_httpResponseSize m ↔ 0 < respSize)
  ∧ (0 < reqSize →
       observations (m_httpRequestSize m') [method; endpoint]
       = (observations (m_httpRequestSize m) [method; endpoint]
          ++ [float64_of_int64 reqSize])%list
       ∧ ∀ labels, labels ≠ [method; endpoint] →
           observations (m_httpRequestSize m') labels
           = observations (m_httpRequestSize m) labels)
  ∧ (0 < respSize →
       observations (m_httpResponseSize m') [method; endpoint]
       = (observations (m_httpResponseSize m) [method; endpoint]
          ++ [float64_of_int64 respSize])%list
       ∧ ∀ labels, labels ≠ [method; endpoint] →
           observations (m_httpResponseSize m') labels
           = observations (m_httpResponseSize m) labels)
  ∧ (reqSize = 0 → m_httpRequestSize m' = m_httpRequestSize m)
  ∧ (respSize = 0 → m_httpResponseSize m' = m_httpResponseSize m).
Proof.
  unfold RecordHTTPRequest. simpl.
  destruct (Z.gtb_spec reqSize 0) as [Hq|Hq]; destruct (Z.gtb_spec respSize 0) as [Hp|Hp];
    repeat split; try lia; try done;
    try (intros _; apply Observe_changes);
    try apply observations_Observe;
    try (intros labels Hne; by apply observations_Observe_ne).
Qed.

End Record_.

(** A stand-in for the conversion, to run the function. *)
Definition sample_float (n : Z) : float64 := Float64frombits n.
Definition empty_metrics : Metrics := mkMetrics ∅ ∅ ∅ ∅.

Lemma RecordHTTPRequest_size_observations_witness :
  let m' := RecordHTTPRequest sample_float "GET" "/metrics" 200 (Float64frombits 0)
              512 0 empty_metrics in
  observations (m_httpRequestSize m') ["GET"; "/metrics"] = [sample_float 512]
  ∧ m_httpResponseSize m' = ∅.
Proof.
  intros m'.
  destruct (RecordHTTPRequest_size_observations sample_float "GET" "/metrics" 200
              (Float64frombits 0) 512 0 empty_metrics) as (_ & _ & Hreq & _ & _ & Hresp).
  split.
  - destruct Hreq as [Hobs _]; [lia|]. exact Hobs.
  - apply Hresp. reflexivity.
Defined.

End PrometheusFacts.

(** ** The playground *)

Module PlaygroundFacts.
Import GoNet handler.

(** The handler only reads the tables. *)
Definition same_tables (s s' : Server.t) : Prop :=
  Server.groups s' = Server.groups s ∧ Server.api_keys s' = Server.api_keys s.

Lemma query_frame {A} (f : Server.t → error + A) s :
  same_tables s (query f s).2 ∧ Server.sent (query f s).2 = Server.sent s.
Proof. unfold query. by destruct (Server.faults s) as [|[e|] fs]. Qed.

Lemma query_result {A} (f : Server.t → error + A) s a s' :
  query f s = (inr a, s') → f s = inr a.
Proof.
  unfold query. destruct (Server.faults s) as [|[e|] fs]; intros [= ? ?]; done.
Qed.

(** The key that [select_active_key] returns is an active key of the group. *)
Lemma select_active_key_active groupID s apiKey s' :
  select_active_key groupID s = (inr apiKey, s') →
  apiKey ∈ Server.api_keys s
  ∧ APIKey.GroupID apiKey = groupID
  ∧ APIKey.Status apiKey = KeyStatusActive.
Proof.
  intros Hsel. apply query_result in Hsel. cbv zeta in Hsel.
  destruct (active_keys groupID s
              !! (Server.random s `mod` length (active_keys groupID s))%nat)
    as [k|] eqn:Hk; [|done].
  injection Hsel as ->. apply list_elem_of_lookup_2 in Hk.
  unfold active_keys in Hk. apply list_elem_of_filter in Hk. tauto.
Qed.

Section Handlers.
Context `{External}.
Variable ShouldBindJSON : bytes → error + PlaygroundChatRequest.
Variable Decrypt : string → error + string.
Variable http_Do : Request → error + Response.

(** C9.  When the request binds, its group is found with an upstream, an
    active key is selected and that key fails to decrypt, [PlaygroundChat]
    answers with status 500 and the message "Failed to decrypt API key";
    nothing is sent upstream and the tables are as they were: the selected
    key is still stored with status active. *)
Theorem PlaygroundChat_decrypt_failure body s req group upstream rest s1 apiKey s2 err :
  ShouldBindJSON body = inr req →
  find_group (GroupName req) s = (inr group, s1) →
  Group.Upstreams group = upstream :: rest →
  select_active_key (Group.ID group) s1 = (inr apiKey, s2) →
  Decrypt (APIKey.KeyValue apiKey) = inl err →
  let out := PlaygroundChat ShouldBindJSON Decrypt http_Do body s in
  out.1 = ReplyError 500 "Failed to decrypt API key"
  ∧ reply_status out.1 = 500
  ∧ Server.api_keys out.2 = Server.api_keys s
  ∧ Server.sent out.2 = Server.sent s
  ∧ apiKey ∈ Server.api_keys out.2
  ∧ APIKey.Status apiKey = KeyStatusActive.
Proof.
  intros Hbind Hgroup Hup Hsel Hdec. unfold PlaygroundChat.
  rewrite Hbind, Hgroup, Hup, Hsel, Hdec. simpl.
  pose proof (query_frame (λ s,
    match find (λ g, String.eqb (Group.Name g) (GroupName req)) (Server.groups s) with
    | Some g => inr g
    | None => inl gorm.ErrRecordNotFound
    end) s) as [[_ Hk1] Hs1].
  fold (find_group (GroupName req)) in Hk1, Hs1. rewrite Hgroup in Hk1, Hs1. simpl in *.
  pose proof (query_frame (λ s,
    match active_keys (Group.ID group) s
            !! (Server.random s `mod` length (active_keys (Group.ID group) s))%nat with
    | Some k => inr k
    | None => inl gorm.ErrRecordNotFound
    end) s1) as [[_ Hk2] Hs2].
  fold (select_active_key (Group.ID group)) in Hk2, Hs2. rewrite Hsel in Hk2, Hs2.
  simpl in *.
  destruct (select_active_key_active _ _ _ _ Hsel) as (Hin & _ & Hact).
  repeat split; try done; try congruence.
Qed.

(** The request of [callOpenAI]. *)
Definition openai_chat_request (baseURL apiKey : string) (jsonData : bytes) : Request :=
  Request_SetHeader
    (Request_SetHeader
       (mkRequest "POST" (baseURL +:+ "/v1/chat/completions") ∅ (Some jsonData))
       "Authorization" ("Bearer " +:+ apiKey))
    "Content-Type" "application/json".

Definition openai_chat_payload (req : PlaygroundChatRequest) : JSON :=
  JObject [("model", JString (Model req));
           ("messages", JArray (map JObject (Messages req)));
           ("temperature", JNumber (Temperature req))].

Lemma openai_chat_request_fields baseURL apiKey jsonData :
  let r := openai_chat_request baseURL apiKey jsonData in
  Method r = "POST"
  ∧ ReqURL r = baseURL +:+ "/v1/chat/completions"
  ∧ Header_Get (ReqHeader r) "Authorization" = "Bearer " +:+ apiKey
  ∧ Header_Get (ReqHeader r) "Content-Type" = "application/json"
  ∧ ReqBody r = Some jsonData.
Proof.
  cbv zeta. split; [reflexivity | split; [reflexivity |]].
  unfold openai_chat_request, Request_SetHeader, Header_Get, Header_Set; simpl.
  change (CanonicalMIMEHeaderKey "Authorization") with "Authorization".
  change (CanonicalMIMEHeaderKey "Content-Type") with "Content-Type".
  rewrite lookup_insert_ne by done. rewrite !lookup_insert_eq. done.
Qed.

Lemma callOpenAI_sent baseURL apiKey req s jsonData :
  json_Marshal (openai_chat_payload req) = inr jsonData →
  (∃ u, url_Parse (baseURL +:+ "/v1/chat/completions") = inr u) →
  Server.sent (callOpenAI http_Do baseURL apiKey req s).2
  = (Server.sent s ++ [openai_chat_request baseURL apiKey jsonData])%list.
Proof.
  intros Hm [u Hu]. unfold callOpenAI. fold (openai_chat_payload req). rewrite Hm.
  unfold NewRequest. rewrite Hu. unfold send, client_Do.
  by destruct (http_Do _).
Qed.

Lemma dispatch_default channelType baseURL decryptedKey req s :
  channelType ≠ "openai" → channelType ≠ "gemini" → channelType ≠ "anthropic" →
  dispatch http_Do channelType baseURL decryptedKey req s
  = callOpenAI http_Do baseURL decryptedKey req s.
Proof.
  intros H1 H2 H3. unfold dispatch.
  by rewrite (proj2 (String.eqb_neq _ _) H1), (proj2 (String.eqb_neq _ _) H2),
             (proj2 (String.eqb_neq _ _) H3).
Qed.

(** C10.  For a group whose channel type is none of "openai", "gemini" and
    "anthropic", [PlaygroundChat] does what it does for "openai": the reply
    is the one [callOpenAI] leads to (there is no unknown-channel-type
    failure), and when the payload encodes and the URL parses, the one
    request sent is a POST to <upstream>/v1/chat/completions with
    [Authorization: Bearer <key>]. *)
Theorem PlaygroundChat_default_channel body s req group upstream rest s1 apiKey s2
    decryptedKey :
  ShouldBindJSON body = inr req →
  find_group (GroupName req) s = (inr group, s1) →
  Group.Upstreams group = upstream :: rest →
  select_active_key (Group.ID group) s1 = (inr apiKey, s2) →
  Decrypt (APIKey.KeyValue apiKey) = inr decryptedKey →
  Group.ChannelType group ≠ "openai" →
  Group.ChannelType group ≠ "gemini" →
  Group.ChannelType group ≠ "anthropic" →
  let baseURL := UpstreamInfo.URL upstream in
  let call := callOpenAI http_Do baseURL decryptedKey req s2 in
  PlaygroundChat ShouldBindJSON Decrypt http_Do body s
  = (match call.1 with
     | inl apiErr => ReplyError 500 ("API call failed: " +:+ apiErr)
     | inr upstreamResp => ReplySuccess (mkPlaygroundChatResponse upstreamResp (Model req))
     end, call.2)
  ∧ (∀ jsonData,
       json_Marshal (openai_chat_payload req) = inr jsonData →
       (∃ u, url_Parse (baseURL +:+ "/v1/chat/completions") = inr u) →
       let sentReq := openai_chat_request baseURL decryptedKey jsonData in
       Server.sent (PlaygroundChat ShouldBindJSON Decrypt http_Do body s).2
       = (Server.sent s ++ [sentReq])%list
       ∧ Method sentReq = "POST"
       ∧ ReqURL sentReq = baseURL +:+ "/v1/chat/completions"
       ∧ Header_Get (ReqHeader sentReq) "Authorization" = "Bearer " +:+ decryptedKey).
Proof.
  intros Hbind Hgroup Hup Hsel Hdec H1 H2 H3 baseURL call.
  assert (PlaygroundChat ShouldBindJSON Decrypt http_Do body s
          = (match call.1 with
             | inl apiErr => ReplyError 500 ("API call failed: " +:+ apiErr)
             | inr upstreamResp =>
                 ReplySuccess (mkPlaygroundChatResponse upstreamResp (Model req))
             end, call.2)) as Heq.
  { unfold PlaygroundChat. rewrite Hbind, Hgroup, Hup, Hsel, Hdec.
    rewrite dispatch_default by done. subst call baseURL.
    by destruct (callOpenAI _ _ _ _ _) as [[e|r] s']. }
  split; [exact Heq|].
  intros jsonData Hm Hu sentReq. rewrite Heq. simpl.
  split.
  - subst call. rewrite (callOpenAI_sent _ _ _ _ jsonData Hm Hu).
    pose proof (query_frame (λ s,
      match find (λ g, String.eqb (Group.Name g) (GroupName req)) (Server.groups s) with
      | Some g => inr g
      | None => inl gorm.ErrRecordNotFound
      end) s) as [_ Hs1].
    fold (find_group (GroupName req)) in Hs1. rewrite Hgroup in Hs1. simpl in Hs1.
    pose proof (query_frame (λ s,
      match active_keys (Group.ID group) s
              !! (Server.random s `mod` length (active_keys (Group.ID group) s))%nat with
      | Some k => inr k
      | None => inl gorm.ErrRecordNotFound
      end) s1) as [_ Hs2].
    fold (select_active_key (Group.ID group)) in Hs2. rewrite Hsel in Hs2. simpl in Hs2.
    by rewrite Hs2, Hs1.
  - destruct (openai_chat_request_fields baseURL decryptedKey jsonData) as (?&?&?&_).
    done.
Qed.

End Handlers.

(** *** Concrete runs *)

Definition play_env : External :=
  {| url_Parse := λ s, inr (mkURL "https" None "up.example" s "" "" "");
     URL_String := λ u, Path u;
     json_Marshal := λ _, inr "{}";
     json_Unmarshal_map := λ _,
       inr [("choices",
             JArray [JObject [("message", JObject [("content", JString "hello")])]])];
     json_Unmarshal_streamPayload := λ _, inr false;
     json_Unmarshal_modelPayload := λ _, inr "";
     json_Unmarshal_openaiModels := λ _, inr [];
     json_Unmarshal_anthropicModels := λ _, inr [];
     ParseUpstreamError := λ b, b;
     ApplyHeaderRules := λ h _ _, h |}.

Definition play_request : PlaygroundChatRequest :=
  mkPlaygroundChatRequest "legacy" "gpt-4o"
    [[("role", JString "user"); ("content", JString "hi")]] (Float64frombits 0).

Definition play_bind (body : bytes) : error + PlaygroundChatRequest := inr play_request.
Definition play_do (r : Request) : error + Response := inr (mkResponse 200 "{}" None).

Definition legacy_upstream : UpstreamInfo.t := UpstreamInfo.mk "https://up.example" 1.
Definition legacy_group : Group.t :=
  Group.mk 1 "legacy" "azure" [legacy_upstream] [] "/v1/chat/completions" "gpt-4o-mini".
Definition stored_key : APIKey.t := APIKey.mk 7 1 "ciphertext" KeyStatusActive.

Definition play_server : Server.t :=
  Server.mk [legacy_group] [APIKey.mk 6 1 "old" KeyStatusInvalid; stored_key] [] 5 [].

Definition broken_decrypt (c : string) : error + string :=
  inl "cipher: message authentication failed".
Definition working_decrypt (c : string) : error + string := inr "sk-plain".

Lemma PlaygroundChat_decrypt_failure_witness :
  let out := @PlaygroundChat play_env play_bind broken_decrypt play_do "{}" play_server in
  out.1 = ReplyError 500 "Failed to decrypt API key"
  ∧ reply_status out.1 = 500
  ∧ Server.api_keys out.2 = Server.api_keys play_server
  ∧ Server.sent out.2 = Server.sent play_server
  ∧ stored_key ∈ Server.api_keys out.2
  ∧ APIKey.Status stored_key = KeyStatusActive.
Proof.
  apply (@PlaygroundChat_decrypt_failure play_env play_bind broken_decrypt play_do
           "{}" play_server play_request legacy_group legacy_upstream [] play_server
           stored_key play_server "cipher: message authentication failed");
    vm_compute; reflexivity.
Defined.

Lemma PlaygroundChat_default_channel_witness :
  @PlaygroundChat play_env play_bind working_decrypt play_do "{}" play_server
  = (ReplySuccess (mkPlaygroundChatResponse "hello" "gpt-4o"),
     Server.mk [legacy_group] [APIKey.mk 6 1 "old" KeyStatusInvalid; stored_key] [] 5
       [openai_chat_request "https://up.example" "sk-plain" "{}"]).
Proof.
  destruct (@PlaygroundChat_default_channel play_env play_bind working_decrypt play_do
              "{}" play_server play_request legacy_group legacy_upstream [] play_server
              stored_key play_server "sk-plain") as [Heq _];
    [ first [discriminate | vm_compute; reflexivity] .. | ].
  rewrite Heq. vm_compute. reflexivity.
Defined.

(** With channel type "anthropic" the same request goes to /v1/messages. *)
Example PlaygroundChat_anthropic_url :
  let s := Server.mk [Group.mk 1 "legacy" "anthropic" [legacy_upstream] []
                        "/v1/messages" "claude-3-haiku"]
                     [stored_key] [] 0 [] in
  map ReqURL (Server.sent
    (@PlaygroundChat play_env play_bind working_decrypt play_do "{}" s).2)
  = ["https://up.example/v1/messages"].
Proof. vm_compute. reflexivity. Qed.

End PlaygroundFacts.

(** * Further properties of the adapters *)

Module AdapterFacts.
Import GoStrings GoNet.

Section Adapters.
Context `{External}.

(** The request of [FetchModels] (lines 145-166 of the OpenAI adapter). *)
Definition OpenAI_models_request (ch : BaseChannel.t) (apiKey : APIKey.t) (group : Group.t)
  : error + Request :=
  match BaseChannel.getUpstreamURL ch with
  | None => inl ("no upstream URL configured for channel " +:+ BaseChannel.Name ch)
  | Some upstreamURL =>
      match NewRequest "GET"
              (URL_String (set_Path upstreamURL
                             (TrimRight (Path upstreamURL) "/" +:+ "/v1/models"))) None with
      | inl err => inl ("failed to create models request: " +:+ err)
      | inr req =>
          inr (applyGroupHeaderRules
                 (Request_SetHeader
                    (Request_SetHeader req "Authorization"
                       ("Bearer " +:+ APIKey.KeyValue apiKey))
                    "Content-Type" "application/json") group apiKey)
      end
  end.

(** The request of [FetchModels] (lines 148-170 of the Anthropic adapter). *)
Definition Anthropic_models_request (ch : BaseChannel.t) (apiKey : APIKey.t)
    (group : Group.t) : error + Request :=
  match BaseChannel.getUpstreamURL ch with
  | None => inl ("no upstream URL configured for channel " +:+ BaseChannel.Name ch)
  | Some upstreamURL =>
      match NewRequest "GET"
              (URL_String (set_Path upstreamURL
                             (TrimRight (Path upstreamURL) "/" +:+ "/v1/models"))) None with
      | inl err => inl ("failed to create models request: " +:+ err)
      | inr req =>
          inr (applyGroupHeaderRules
                 (Request_SetHeader
                    (Request_SetHeader
                       (Request_SetHeader req "x-api-key" (APIKey.KeyValue apiKey))
                       "anthropic-version" "2023-06-01")
                    "Content-Type" "application/json") group apiKey)
      end
  end.

(** What [FetchModels] does with the answer to its request. *)
Definition models_reply {Entry} (decode : bytes → error + list Entry)
    (row : Entry → ModelCapabilities.t) (answer : error + Response)
  : error + list ModelCapabilities.t :=
  match answer with
  | inl err => inl ("failed to send models request: " +:+ err)
  | inr resp =>
      if negb (StatusCode resp =? 200) then
        inl ("failed to fetch models [status " +:+ Itoa (StatusCode resp) +:+ "]: "
               +:+ ParseUpstreamError (BodyData resp))
      else
        match BodyErr resp with
        | Some err => inl ("failed to read models response: " +:+ err)
        | None =>
            match decode (BodyData resp) with
            | inl err => inl ("failed to parse models response: " +:+ err)
            | inr data => inr (map row data)
            end
        end
  end.

Lemma OpenAI_FetchModels_unfold ch now apiKey group :
  OpenAIChannel.FetchModels ch now apiKey group
  = match OpenAI_models_request ch apiKey group with
    | inl err => inl err
    | inr req =>
        models_reply json_Unmarshal_openaiModels (OpenAIChannel.capability_of group now)
          (BaseChannel.HTTPClient ch req)
    end.
Proof.
  unfold OpenAIChannel.FetchModels, OpenAI_models_request, models_reply.
  destruct (BaseChannel.getUpstreamURL ch) as [u|]; [|done].
  destruct (NewRequest _ _ _) as [e|req]; [done|].
  destruct (BaseChannel.HTTPClient ch _) as [e|resp]; [done|].
  destruct (negb _); [done|]. unfold ReadAll. by destruct (BodyErr resp).
Qed.

Lemma Anthropic_FetchModels_unfold ch now apiKey group :
  AnthropicChannel.FetchModels ch now apiKey group
  = match Anthropic_models_request ch apiKey group with
    | inl err => inl err
    | inr req =>
        models_reply json_Unmarshal_anthropicModels
          (AnthropicChannel.capability_of group now) (BaseChannel.HTTPClient ch req)
    end.
Proof.
  unfold AnthropicChannel.FetchModels, Anthropic_models_request, models_reply.
  destruct (BaseChannel.getUpstreamURL ch) as [u|]; [|done].
  destruct (NewRequest _ _ _) as [e|req]; [done|].
  destruct (BaseChannel.HTTPClient ch _) as [e|resp]; [done|].
  destruct (negb _); [done|]. unfold ReadAll. by destruct (BodyErr resp).
Qed.

Lemma models_reply_inr {Entry} (decode : bytes → error + list Entry) row answer caps :
  models_reply decode row answer = inr caps →
  ∃ resp data, answer = inr resp ∧ StatusCode resp = 200 ∧ BodyErr resp = None
               ∧ decode (BodyData resp) = inr data ∧ caps = map row data.
Proof.
  unfold models_reply. destruct answer as [e|resp]; [done|].
  destruct (Z.eqb_spec (StatusCode resp) 200) as [Hst|Hst]; simpl; [|done].
  destruct (BodyErr resp) as [e|] eqn:Hb; [done|].
  destruct (decode (BodyData resp)) as [e|data] eqn:Hd; [done|].
  intros [= <-]. by exists resp, data.
Qed.

Lemma Anthropic_FetchModels_inr ch now apiKey group caps :
  AnthropicChannel.FetchModels ch now apiKey group = inr caps →
  ∃ req resp data,
    Anthropic_models_request ch apiKey group = inr req
    ∧ BaseChannel.HTTPClient ch req = inr resp ∧ StatusCode resp = 200
    ∧ BodyErr resp = None
    ∧ json_Unmarshal_anthropicModels (BodyData resp) = inr data
    ∧ caps = map (AnthropicChannel.capability_of group now) data.
Proof.
  rewrite Anthropic_FetchModels_unfold.
  destruct (Anthropic_models_request ch apiKey group) as [e|req]; [done|].
  intros (resp & data & ? & ? & ? & ? & ?)%models_reply_inr. by exists req, resp, data.
Qed.

Lemma OpenAI_FetchModels_inr' ch now apiKey group caps :
  OpenAIChannel.FetchModels ch now apiKey group = inr caps →
  ∃ req resp data,
    OpenAI_models_request ch apiKey group = inr req
    ∧ BaseChannel.HTTPClient ch req = inr resp ∧ StatusCode resp = 200
    ∧ BodyErr resp = None
    ∧ json_Unmarshal_openaiModels (BodyData resp) = inr data
    ∧ caps = map (OpenAIChannel.capability_of group now) data.
Proof.
  rewrite OpenAI_FetchModels_unfold.
  destruct (OpenAI_models_request ch apiKey group) as [e|req]; [done|].
  intros (resp & data & ? & ? & ? & ? & ?)%models_reply_inr. by exists req, resp, data.
Qed.

(** One row of the Anthropic catalog. *)
Lemma Anthropic_capability_of_flags group now model :
  let row := AnthropicChannel.capability_of group now model in
  let id := AnthropicModel.ID model in
  ModelCapabilities.ModelID row = id
  ∧ ModelCapabilities.SupportsStreaming row = true
  ∧ ModelCapabilities.SupportsFunctions row = false
  ∧ ModelCapabilities.SupportsVision row
    = (Contains id "claude-3" || Contains id "claude-sonnet" || Contains id "claude-opus").
Proof.
  unfold AnthropicChannel.capability_of. simpl.
  by destruct (Contains _ "claude-3" || Contains _ "claude-sonnet"
               || Contains _ "claude-opus").
Qed.

(** X1.  Every row that [AnthropicChannel.FetchModels] returns has
    [supports_streaming] set and [supports_functions] clear, and has
    [supports_vision] set exactly when the model id contains "claude-3",
    "claude-sonnet" or "claude-opus". *)
Theorem Anthropic_FetchModels_capabilities ch now apiKey group caps row :
  AnthropicChannel.FetchModels ch now apiKey group = inr caps →
  row ∈ caps →
  let id := ModelCapabilities.ModelID row in
  ModelCapabilities.SupportsStreaming row = true
  ∧ ModelCapabilities.SupportsFunctions row = false
  ∧ (ModelCapabilities.SupportsVision row = true
       ↔ occurs_in "claude-3" id ∨ occurs_in "claude-sonnet" id
         ∨ occurs_in "claude-opus" id).
Proof.
  intros Hfetch Hrow.
  apply Anthropic_FetchModels_inr in Hfetch as (req & resp & data & _ & _ & _ & _ & _ & ->).
  apply list_elem_of_fmap in Hrow as (model & -> & _).
  destruct (Anthropic_capability_of_flags group now model) as (Hid & Hs & Hf & Hv).
  cbv zeta. rewrite Hid, Hs, Hf, Hv.
  rewrite !orb_true_iff, !GoStringsFacts.Contains_spec. tauto.
Qed.

(** The columns a fetched row has whatever the model. *)
Definition fetched_at (group : Group.t) (now : Time) (row : ModelCapabilities.t) : Prop :=
  ModelCapabilities.ID row = 0
  ∧ ModelCapabilities.GroupID row = Group.ID group
  ∧ ModelCapabilities.ModelName row = ModelCapabilities.ModelID row
  ∧ ModelCapabilities.IsAutoFetched row = true
  ∧ ModelCapabilities.LastFetchedAt row = Some now
  ∧ ModelCapabilities.MaxTokens row = None
  ∧ ModelCapabilities.MaxInputTokens row = None
  ∧ ModelCapabilities.MaxOutputTokens row = None
  ∧ ModelCapabilities.CustomCapabilities row = JNull.

Lemma OpenAI_capability_of_fetched_at group now model :
  fetched_at group now (OpenAIChannel.capability_of group now model)
  ∧ ModelCapabilities.ModelID (OpenAIChannel.capability_of group now model)
    = OpenAIModel.ID model.
Proof.
  unfold OpenAIChannel.capability_of, fetched_at.
  destruct (Contains _ "gpt-4" || Contains _ "gpt-3.5"); [destruct (Contains _ "vision")|];
    done.
Qed.

Lemma Anthropic_capability_of_fetched_at group now model :
  fetched_at group now (AnthropicChannel.capability_of group now model)
  ∧ ModelCapabilities.ModelID (AnthropicChannel.capability_of group now model)
    = AnthropicModel.ID model.
Proof.
  unfold AnthropicChannel.capability_of, fetched_at.
  by destruct (Contains _ "claude-3" || Contains _ "claude-sonnet"
               || Contains _ "claude-opus").
Qed.

(** X2.  A successful [FetchModels], of either adapter, returns one row per
    entry of the decoded catalog, in catalog order, with the entry's id as
    model id and as model name; every row belongs to the group, is marked
    auto-fetched with [last_fetched_at] the time of the call, has no token
    limit, no custom capabilities and no primary key yet. *)
Theorem FetchModels_rows ch now apiKey group caps :
  (OpenAIChannel.FetchModels ch now apiKey group = inr caps →
     (∃ req resp data,
        BaseChannel.HTTPClient ch req = inr resp
        ∧ json_Unmarshal_openaiModels (BodyData resp) = inr data
        ∧ map ModelCapabilities.ModelID caps = map OpenAIModel.ID data)
     ∧ ∀ row, row ∈ caps → fetched_at group now row)
  ∧ (AnthropicChannel.FetchModels ch now apiKey group = inr caps →
     (∃ req resp data,
        BaseChannel.HTTPClient ch req = inr resp
        ∧ json_Unmarshal_anthropicModels (BodyData resp) = inr data
        ∧ map ModelCapabilities.ModelID caps = map AnthropicModel.ID data)
     ∧ ∀ row, row ∈ caps → fetched_at group now row).
Proof.
  split.
  - intros (req & resp & data & _ & Hdo & _ & _ & Hd & ->)%OpenAI_FetchModels_inr'. split.
    + exists req, resp, data. repeat split; try done.
      rewrite <- list_fmap_compose. apply list_fmap_ext. intros i model _. simpl.
      apply OpenAI_capability_of_fetched_at.
    + intros row (model & -> & _)%list_elem_of_fmap.
      apply OpenAI_capability_of_fetched_at.
  - intros (req & resp & data & _ & Hdo & _ & _ & Hd & ->)%Anthropic_FetchModels_inr. split.
    + exists req, resp, data. repeat split; try done.
      rewrite <- list_fmap_compose. apply list_fmap_ext. intros i model _. simpl.
      apply Anthropic_capability_of_fetched_at.
    + intros row (model & -> & _)%list_elem_of_fmap.
      apply Anthropic_capability_of_fetched_at.
Qed.

(** X3.  [FetchModels] accepts status 200 only.  When its request is
    answered with another status, be it a 2xx, either adapter fails with
    "failed to fetch models [status N]: " followed by what the upstream-error
    parser makes of the bytes read, also when the read of the body ended in
    an error. *)
Theorem FetchModels_status_not_200 ch now apiKey group reqO reqA resp :
  StatusCode resp ≠ 200 →
  (OpenAI_models_request ch apiKey group = inr reqO →
   BaseChannel.HTTPClient ch reqO = inr resp →
   OpenAIChannel.FetchModels ch now apiKey group
   = inl ("failed to fetch models [status " +:+ Itoa (StatusCode resp) +:+ "]: "
            +:+ ParseUpstreamError (BodyData resp)))
  ∧ (Anthropic_models_request ch apiKey group = inr reqA →
     BaseChannel.HTTPClient ch reqA = inr resp →
     AnthropicChannel.FetchModels ch now apiKey group
     = inl ("failed to fetch models [status " +:+ Itoa (StatusCode resp) +:+ "]: "
              +:+ ParseUpstreamError (BodyData resp))).
Proof.
  intros Hst. apply Z.eqb_neq in Hst. split; intros Hreq Hdo.
  - rewrite OpenAI_FetchModels_unfold, Hreq, Hdo. unfold models_reply. by rewrite Hst.
  - rewrite Anthropic_FetchModels_unfold, Hreq, Hdo. unfold models_reply. by rewrite Hst.
Qed.

(** The outcomes of a validation. *)
Ltac verdict_cases ch :=
  match goal with
  | |- context [BaseChannel.HTTPClient ch ?req] =>
      let resp := fresh "resp" in
      let Hdo := fresh "Hdo" in
      let Hst := fresh "Hst" in
      destruct (BaseChannel.HTTPClient ch req) as [?|resp] eqn:Hdo;
      [ intros [= <- <-]; split; [split; done | done]
      | destruct ((200 <=? StatusCode resp) && (StatusCode resp <? 300)) eqn:Hst;
        [ intros [= <- <-]; split; [done|]; intros _; exists req, resp;
          apply andb_true_iff in Hst as [?%Z.leb_le ?%Z.ltb_lt]; done
        | unfold ReadAll; destruct (BodyErr resp);
          (intros [= <- <-]; split; [split; done | done]) ] ]
  end.

(** X4.  [ValidateKey], of either adapter, answers [(true, nil)] or [false]
    with an error, never anything else; and it answers [true] only when the
    probe request was built and answered with a status in [200, 300). *)
Theorem ValidateKey_verdict ch apiKey group valid err :
  (OpenAIChannel.ValidateKey ch apiKey group = (valid, err) →
     (valid = true ↔ err = None)
     ∧ (valid = true →
          ∃ req resp, OpenAIChannel.ValidateKey_request ch apiKey group = inr req
                      ∧ BaseChannel.HTTPClient ch req = inr resp
                      ∧ 200 ≤ StatusCode resp < 300))
  ∧ (AnthropicChannel.ValidateKey ch apiKey group = (valid, err) →
       (valid = true ↔ err = None)
       ∧ (valid = true →
            ∃ req resp, AnthropicChannel.ValidateKey_request ch apiKey group = inr req
                        ∧ BaseChannel.HTTPClient ch req = inr resp
                        ∧ 200 ≤ StatusCode resp < 300)).
Proof.
  split.
  - unfold OpenAIChannel.ValidateKey.
    destruct (OpenAIChannel.ValidateKey_request ch apiKey group) as [e|req].
    { intros [= <- <-]. split; [split; done | done]. }
    verdict_cases ch.
  - unfold AnthropicChannel.ValidateKey.
    destruct (AnthropicChannel.ValidateKey_request ch apiKey group) as [e|req].
    { intros [= <- <-]. split; [split; done | done]. }
    verdict_cases ch.
Qed.

(** The headers the adapters put on a request of their own. *)
Definition OpenAI_native_header (apiKey : APIKey.t) : Header :=
  <["Content-Type" := ["application/json"]]>
    (<["Authorization" := ["Bearer " +:+ APIKey.KeyValue apiKey]]> ∅).

Definition Anthropic_native_header (apiKey : APIKey.t) : Header :=
  <["Content-Type" := ["application/json"]]>
    (<["Anthropic-Version" := ["2023-06-01"]]>
       (<["X-Api-Key" := [APIKey.KeyValue apiKey]]> ∅)).

Definition OpenAI_probe_payload (ch : BaseChannel.t) : JSON :=
  JObject [("model", JString (BaseChannel.TestModel ch));
           ("messages",
            JArray [JObject [("role", JString "user"); ("content", JString "hi")]])].

Definition Anthropic_probe_payload (ch : BaseChannel.t) : JSON :=
  JObject [("model", JString (BaseChannel.TestModel ch));
           ("max_tokens", JInt 100);
           ("messages",
            JArray [JObject [("role", JString "user"); ("content", JString "hi")]])].

(** The header of an outgoing request after the header-rule step. *)
Definition ruled_header (native : Header) (group : Group.t) (apiKey : APIKey.t) : Header :=
  match Group.HeaderRuleList group with
  | [] => native
  | rules => ApplyHeaderRules native rules (NewHeaderVariableContext group apiKey)
  end.

Lemma applyGroupHeaderRules_header req group apiKey :
  ReqHeader (applyGroupHeaderRules req group apiKey)
  = ruled_header (ReqHeader req) group apiKey
  ∧ Method (applyGroupHeaderRules req group apiKey) = Method req
  ∧ ReqBody (applyGroupHeaderRules req group apiKey) = ReqBody req.
Proof.
  unfold applyGroupHeaderRules, ruled_header.
  destruct (Group.HeaderRuleList group) as [|r rs]; done.
Qed.

(** X5.  The probe request of [ValidateKey] is a POST whose body is the
    encoding of the minimal chat payload for the test model (with
    [max_tokens] 100 for Anthropic).  Its header is the adapter's own
    (Authorization and Content-Type for OpenAI; X-Api-Key, Anthropic-Version
    and Content-Type for Anthropic) when the group has no header rule, and
    otherwise what the header rules make of that header: the rules run after
    the adapter's headers are set. *)
Theorem ValidateKey_request_shape ch apiKey group req :
  (OpenAIChannel.ValidateKey_request ch apiKey group = inr req →
     Method req = "POST"
     ∧ (∃ body, json_Marshal (OpenAI_probe_payload ch) = inr body ∧ ReqBody req = Some body)
     ∧ ReqHeader req = ruled_header (OpenAI_native_header apiKey) group apiKey)
  ∧ (AnthropicChannel.ValidateKey_request ch apiKey group = inr req →
       Method req = "POST"
       ∧ (∃ body, json_Marshal (Anthropic_probe_payload ch) = inr body
                  ∧ ReqBody req = Some body)
       ∧ ReqHeader req = ruled_header (Anthropic_native_header apiKey) group apiKey).
Proof.
  split.
  - unfold OpenAIChannel.ValidateKey_request.
    destruct (BaseChannel.getUpstreamURL ch) as [upstream|]; [|done].
    destruct (url_Parse (BaseChannel.ValidationEndpoint ch)) as [e|endpoint]; [done|].
    fold (OpenAI_probe_payload ch).
    destruct (json_Marshal (OpenAI_probe_payload ch)) as [e|body]; [done|].
    unfold NewRequest. destruct (url_Parse (URL_String _)) as [e|u]; [done|].
    intros [= <-].
    match goal with |- context [applyGroupHeaderRules ?r group apiKey] =>
      destruct (applyGroupHeaderRules_header r group apiKey) as (-> & -> & ->)
    end.
    split; [done | split; [by exists body | done]].
  - unfold AnthropicChannel.ValidateKey_request.
    destruct (BaseChannel.getUpstreamURL ch) as [upstream|]; [|done].
    destruct (url_Parse (BaseChannel.ValidationEndpoint ch)) as [e|endpoint]; [done|].
    fold (Anthropic_probe_payload ch).
    destruct (json_Marshal (Anthropic_probe_payload ch)) as [e|body]; [done|].
    unfold NewRequest. destruct (url_Parse (URL_String _)) as [e|u]; [done|].
    intros [= <-].
    match goal with |- context [applyGroupHeaderRules ?r group apiKey] =>
      destruct (applyGroupHeaderRules_header r group apiKey) as (-> & -> & ->)
    end.
    split; [done | split; [by exists body | done]].
Qed.

(** X6.  [ModifyRequest] of the OpenAI adapter sets the one header
    [Authorization] to "Bearer <key>", replacing whatever values it had;
    that of the Anthropic adapter sets [X-Api-Key] to the key and
    [Anthropic-Version] to "2023-06-01".  Neither touches another header, the
    method, the URL or the body, and doing it twice is doing it once. *)
Theorem ModifyRequest_headers req apiKey group :
  let reqO := OpenAIChannel.ModifyRequest req apiKey group in
  let reqA := AnthropicChannel.ModifyRequest req apiKey group in
  (ReqHeader reqO !! "Authorization" = Some ["Bearer " +:+ APIKey.KeyValue apiKey]
   ∧ (∀ k, k ≠ "Authorization" → ReqHeader reqO !! k = ReqHeader req !! k)
   ∧ (Method reqO, ReqURL reqO, ReqBody reqO) = (Method req, ReqURL req, ReqBody req)
   ∧ OpenAIChannel.ModifyRequest reqO apiKey group = reqO)
  ∧ (ReqHeader reqA !! "X-Api-Key" = Some [APIKey.KeyValue apiKey]
     ∧ ReqHeader reqA !! "Anthropic-Version" = Some ["2023-06-01"]
     ∧ (∀ k, k ≠ "X-Api-Key" → k ≠ "Anthropic-Version" →
          ReqHeader reqA !! k = ReqHeader req !! k)
     ∧ (Method reqA, ReqURL reqA, ReqBody reqA) = (Method req, ReqURL req, ReqBody req)
     ∧ AnthropicChannel.ModifyRequest reqA apiKey group = reqA).
Proof.
  unfold OpenAIChannel.ModifyRequest, AnthropicChannel.ModifyRequest,
    Request_SetHeader, Header_Set. simpl.
  change (CanonicalMIMEHeaderKey "Authorization") with "Authorization".
  change (CanonicalMIMEHeaderKey "x-api-key") with "X-Api-Key".
  change (CanonicalMIMEHeaderKey "anthropic-version") with "Anthropic-Version".
  split; [split; [|split; [|split]] | split; [|split; [|split; [|split]]]].
  - apply lookup_insert_eq.
  - intros k Hk. by rewrite lookup_insert_ne.
  - done.
  - by rewrite insert_insert_eq.
  - rewrite lookup_insert_ne by done. apply lookup_insert_eq.
  - apply lookup_insert_eq.
  - intros k Hk1 Hk2. by rewrite !lookup_insert_ne.
  - done.
  - f_equal. apply map_eq. intros k.
    destruct (decide (k = "Anthropic-Version")) as [->|Hk1];
      [|destruct (decide (k = "X-Api-Key")) as [->|Hk2]]; by simplify_map_eq.
Qed.

End Adapters.

(** *** Concrete runs *)

Definition claude_catalog : list AnthropicModel.t :=
  [AnthropicModel.mk "claude-3-opus-20240229" "model" "Claude 3 Opus";
   AnthropicModel.mk "claude-2.1" "model" "Claude 2.1"].

Definition claude_env : External :=
  {| url_Parse := λ s, inr (mkURL "https" None "api.anthropic.com" s "" "" "");
     URL_String := λ u, Scheme u +:+ "://" +:+ Host u +:+ Path u;
     json_Marshal := λ _, inr "{}";
     json_Unmarshal_map := λ _, inr [];
     json_Unmarshal_streamPayload := λ _, inr false;
     json_Unmarshal_modelPayload := λ _, inr "";
     json_Unmarshal_openaiModels := λ _, inr [];
     json_Unmarshal_anthropicModels := λ _, inr claude_catalog;
     ParseUpstreamError := λ b, b;
     ApplyHeaderRules := λ h _ _, h |}.

Definition claude_channel (status : Z) (body : bytes) : BaseChannel.t :=
  BaseChannel.mk "anthropic" ["/"] (λ _, inr (mkResponse status body None))
                 "claude-3-haiku" "/v1/messages".
Definition claude_group : Group.t :=
  Group.mk 2 "claude" "anthropic" [UpstreamInfo.mk "/" 1] [] "/v1/messages" "claude-3-haiku".
Definition claude_key : APIKey.t := APIKey.mk 9 2 "sk-ant" KeyStatusActive.

Definition claude_rows : list ModelCapabilities.t :=
  [ModelCapabilities.mk 0 2 "claude-3-opus-20240229" "claude-3-opus-20240229"
     true true false None None None JNull true (Some 5);
   ModelCapabilities.mk 0 2 "claude-2.1" "claude-2.1"
     true false false None None None JNull true (Some 5)].

Example Anthropic_FetchModels_run :
  @AnthropicChannel.FetchModels claude_env (claude_channel 200 "{}") 5 claude_key claude_group
  = inr claude_rows.
Proof. vm_compute. reflexivity. Qed.

Definition opus_row : ModelCapabilities.t :=
  ModelCapabilities.mk 0 2 "claude-3-opus-20240229" "claude-3-opus-20240229"
    true true false None None None JNull true (Some 5).

Lemma Anthropic_FetchModels_capabilities_witness :
  ModelCapabilities.SupportsStreaming opus_row = true
  ∧ ModelCapabilities.SupportsFunctions opus_row = false
  ∧ (ModelCapabilities.SupportsVision opus_row = true
       ↔ occurs_in "claude-3" (ModelCapabilities.ModelID opus_row)
         ∨ occurs_in "claude-sonnet" (ModelCapabilities.ModelID opus_row)
         ∨ occurs_in "claude-opus" (ModelCapabilities.ModelID opus_row)).
Proof.
  apply (@Anthropic_FetchModels_capabilities claude_env (claude_channel 200 "{}") 5
           claude_key claude_group claude_rows opus_row); [|left].
  vm_compute. reflexivity.
Defined.

Lemma FetchModels_rows_witness : fetched_at claude_group 5 opus_row.
Proof.
  apply (proj2 (proj2 (@FetchModels_rows claude_env (claude_channel 200 "{}") 5
                         claude_key claude_group claude_rows)
                  ltac:(vm_compute; reflexivity))).
  left.
Defined.

Definition claude_models_request : Request :=
  mkRequest "GET" "https://api.anthropic.com/v1/models"
    (<["Content-Type" := ["application/json"]]>
       (<["Anthropic-Version" := ["2023-06-01"]]>
          (<["X-Api-Key" := ["sk-ant"]]> ∅))) None.

(** A 204, which a validation would accept, fails a model fetch. *)
Lemma FetchModels_status_not_200_witness :
  @AnthropicChannel.FetchModels claude_env (claude_channel 204 "no content") 5
    claude_key claude_group
  = inl "failed to fetch models [status 204]: no content".
Proof.
  apply (proj2 (@FetchModels_status_not_200 claude_env (claude_channel 204 "no content") 5
                  claude_key claude_group claude_models_request claude_models_request
                  (mkResponse 204 "no content" None) ltac:(discriminate)));
    vm_compute; reflexivity.
Defined.

Lemma ValidateKey_verdict_witness :
  (true = true ↔ @None error = None)
  ∧ (true = true →
       ∃ req resp,
         @AnthropicChannel.ValidateKey_request claude_env (claude_channel 204 "")
           claude_key claude_group = inr req
         ∧ BaseChannel.HTTPClient (claude_channel 204 "") req = inr resp
         ∧ 200 ≤ StatusCode resp < 300).
Proof.
  apply (proj2 (@ValidateKey_verdict claude_env (claude_channel 204 "") claude_key
                  claude_group true None)).
  vm_compute. reflexivity.
Defined.

Lemma ValidateKey_request_shape_witness :
  Method ValidateKeyFacts.probe_request_openai = "POST"
  ∧ (∃ body, @json_Marshal ValidateKeyFacts.probe_env
               (OpenAI_probe_payload ValidateKeyFacts.probe_channel) = inr body
             ∧ ReqBody ValidateKeyFacts.probe_request_openai = Some body)
  ∧ ReqHeader ValidateKeyFacts.probe_request_openai
    = @ruled_header ValidateKeyFacts.probe_env
        (OpenAI_native_header ValidateKeyFacts.probe_key)
        ValidateKeyFacts.probe_group ValidateKeyFacts.probe_key.
Proof.
  apply (proj1 (@ValidateKey_request_shape ValidateKeyFacts.probe_env
                  ValidateKeyFacts.probe_channel ValidateKeyFacts.probe_key
                  ValidateKeyFacts.probe_group ValidateKeyFacts.probe_request_openai)).
  vm_compute. reflexivity.
Defined.

(** Header rules run last: a rule engine that drops every header leaves the
    probe without its [Authorization]. *)
Definition dropping_env : External :=
  {| url_Parse := @url_Parse ValidateKeyFacts.probe_env;
     URL_String := @URL_String ValidateKeyFacts.probe_env;
     json_Marshal := λ _, inr "{}";
     json_Unmarshal_map := λ _, inr [];
     json_Unmarshal_streamPayload := λ _, inr false;
     json_Unmarshal_modelPayload := λ _, inr "";
     json_Unmarshal_openaiModels := λ _, inr [];
     json_Unmarshal_anthropicModels := λ _, inr [];
     ParseUpstreamError := λ b, b;
     ApplyHeaderRules := λ _ _ _, ∅ |}.

Example ValidateKey_rules_override :
  let group := Group.mk 1 "demo" "openai" [UpstreamInfo.mk "/base/" 1]
                 [HeaderRule.mk "remove" "Authorization" ""]
                 "/v1/chat/completions?beta=1" "gpt-4o-mini" in
  @OpenAIChannel.ValidateKey_request dropping_env ValidateKeyFacts.probe_channel
    ValidateKeyFacts.probe_key group
  = inr (mkRequest "POST" "https://api.example.com/base/v1/chat/completions?beta=1"
           ∅ (Some "{}")).
Proof. vm_compute. reflexivity. Qed.

End AdapterFacts.

(** * Further properties of the model registry *)

Module RegistryFacts.
Import gorm StoreFacts ModelService ModelServiceFacts.

(** The fault script only shrinks, and stays empty once empty. *)
Lemma stmt_healthy_inr {A}
    (f : list ModelCapabilities.t → error + (A * list ModelCapabilities.t)) w a w' :
  stmt f w = (inr a, w') →
  ∃ tbl, f (World.table w) = inr (a, tbl) ∧ World.table w' = tbl.
Proof.
  destruct (stmt_cases f w) as [fs [[e Hs] | (a' & tbl & Hrun & Hs)]]; rewrite Hs; [done|].
  intros [= <- <-]. by exists tbl.
Qed.

Lemma stmt_inl_table {A}
    (f : list ModelCapabilities.t → error + (A * list ModelCapabilities.t)) w e w' :
  stmt f w = (inl e, w') → World.table w' = World.table w.
Proof.
  unfold stmt. destruct w as [tbl fs now tr]. simpl.
  destruct fs as [|[e'|] fs]; simpl.
  - destruct (f tbl) as [e'|[a tbl']]; by intros [= <- <-].
  - by intros [= <- <-].
  - destruct (f tbl) as [e'|[a tbl']]; by intros [= <- <-].
Qed.

Lemma stmt_keeps_healthy {A}
    (f : list ModelCapabilities.t → error + (A * list ModelCapabilities.t)) w :
  World.faults w = [] → World.faults (stmt f w).2 = [].
Proof.
  intros Hf. rewrite stmt_healthy by done.
  destruct (f (World.table w)) as [e|[a tbl]]; done.
Qed.

Lemma Transaction_inl f w e w' :
  Transaction f w = (inl e, w') → World.table w' = World.table w.
Proof.
  unfold Transaction.
  destruct (stmt _ w) as [[e1|[]] w1] eqn:H1.
  { intros [= <- <-]. by eapply stmt_inl_table. }
  destruct (f w1) as [[e2|[]] w2]; [by intros [= <- <-]|].
  destruct (stmt _ w2) as [[e3|[]] w3]; by intros [= <- <-].
Qed.

Lemma Transaction_inr f w w' :
  Transaction f w = (inr tt, w') →
  ∃ w1 w2, World.table w1 = World.table w ∧ f w1 = (inr tt, w2)
           ∧ World.table w' = World.table w2.
Proof.
  unfold Transaction.
  pose proof (stmt_id_table w) as H1.
  destruct (stmt _ w) as [[e1|[]] w1]; [done|]. simpl in H1.
  destruct (f w1) as [[e2|[]] w2] eqn:Hf; [done|].
  pose proof (stmt_id_table w2) as H3.
  destruct (stmt _ w2) as [[e3|[]] w3]; [done|]. simpl in H3.
  intros [= <-]. by exists w1, w2.
Qed.

Section Service.
Variable GetChannel : Group.t → error + ChannelProxy.t.

(** X7.  [FetchAndStoreModels] is all or nothing: whenever it returns an
    error, be it from the factory, the provider, an empty catalog, a
    statement in the middle of the batch or the commit, the table is the one
    it started with. *)
Theorem FetchAndStoreModels_all_or_nothing group apiKey w err w' :
  FetchAndStoreModels GetChannel group apiKey w = (inl err, w') →
  World.table w' = World.table w.
Proof.
  unfold FetchAndStoreModels.
  destruct (GetChannel group) as [e|ch]; [by intros [= <- <-]|].
  unfold callFetchModels.
  destruct (ChannelProxy.FetchModels ch _ apiKey group) as [e|caps]; simpl;
    [by intros [= <- <-]|].
  destruct (Z.of_nat (length caps) =? 0); [by intros [= <- <-]|].
  intros Htx. by apply Transaction_inl in Htx.
Qed.

(** The world after the two events of a fetch. *)
Definition after_fetch (group : Group.t) (apiKey : APIKey.t) (w : World.t) : World.t :=
  World.emit
    (World.emit w (EvFetchAndStoreModels (Group.ID group) (APIKey.ID apiKey)))
    (EvFetchModels (Group.ID group) (APIKey.ID apiKey)).

(** X8.  When the factory has no channel for the group, the provider is not
    called; when the provider fails, or returns no model, the call fails
    with "failed to fetch models: ..." or "no models returned from provider".
    In all three cases no statement reaches the store: the table and the
    script of the statements to come are as before. *)
Theorem FetchAndStoreModels_early_failures group apiKey w :
  (∀ err, GetChannel group = inl err →
     FetchAndStoreModels GetChannel group apiKey w
     = (inl ("failed to get channel: " +:+ err),
        World.emit w (EvFetchAndStoreModels (Group.ID group) (APIKey.ID apiKey)))
     ∧ provider_calls (FetchAndStoreModels GetChannel group apiKey w).2
       = provider_calls w)
  ∧ (∀ ch err, GetChannel group = inr ch →
       ChannelProxy.FetchModels ch (World.now w) apiKey group = inl err →
       FetchAndStoreModels GetChannel group apiKey w
       = (inl ("failed to fetch models: " +:+ err), after_fetch group apiKey w))
  ∧ (∀ ch, GetChannel group = inr ch →
       ChannelProxy.FetchModels ch (World.now w) apiKey group = inr [] →
       FetchAndStoreModels GetChannel group apiKey w
       = (inl "no models returned from provider", after_fetch group apiKey w))
  ∧ World.table (after_fetch group apiKey w) = World.table w
  ∧ World.faults (after_fetch group apiKey w) = World.faults w
  ∧ provider_calls (after_fetch group apiKey w) = S (provider_calls w).
Proof.
  unfold FetchAndStoreModels, callFetchModels, after_fetch.
  split; [|split; [|split; [|split; [|split]]]].
  - intros err ->. split; [done|]. simpl. unfold provider_calls. simpl.
    by rewrite filter_app, length_app, Nat.add_0_r.
  - intros ch err -> Hfetch. simpl. by rewrite Hfetch.
  - intros ch -> Hfetch. simpl. by rewrite Hfetch.
  - done.
  - done.
  - unfold provider_calls. simpl. rewrite !filter_app, !length_app. simpl. lia.
Qed.

(** A successful upsert leaves a row with the key of the capability. *)
Definition has_key (capability : ModelCapabilities.t) (tbl : list ModelCapabilities.t)
  : Prop :=
  ∃ r, r ∈ tbl
       ∧ ModelCapabilities.GroupID r = ModelCapabilities.GroupID capability
       ∧ ModelCapabilities.ModelID r = ModelCapabilities.ModelID capability.

Lemma has_key_extends capability tbl tbl' :
  table_extends tbl tbl' → has_key capability tbl → has_key capability tbl'.
Proof.
  intros Hext (r & Hr & Hg & Hm).
  apply list_elem_of_lookup in Hr as [i Hi].
  destruct (Hext i r Hi) as (r' & Hi' & _ & Hg' & Hm' & _).
  exists r'. split; [by eapply list_elem_of_lookup_2 | split; congruence].
Qed.

Lemma same_key_spec capability r :
  same_key capability r = true
  ↔ ModelCapabilities.GroupID r = ModelCapabilities.GroupID capability
    ∧ ModelCapabilities.ModelID r = ModelCapabilities.ModelID capability.
Proof. unfold same_key. by rewrite andb_true_iff, Z.eqb_eq, String.eqb_eq. Qed.

Lemma upsert_inr_has_key capability w w' :
  upsert capability w = (inr tt, w') → has_key capability (World.table w').
Proof.
  unfold upsert.
  destruct (First _ w) as [[e|existing] w1] eqn:Hfirst.
  - destruct (String.eqb e ErrRecordNotFound); [|done].
    unfold Create. intros (tbl & Hrun & ->)%stmt_healthy_inr.
    destruct (ModelCapabilities.ID capability =? 0).
    + injection Hrun as <-. exists (set_ID capability (next_ID (World.table w1))).
      split; [apply elem_of_app; right; left | done].
    + destruct (existsb _ _); [done|]. injection Hrun as <-.
      exists capability. split; [apply elem_of_app; right; left | done].
  - unfold First in Hfirst. apply stmt_healthy_inr in Hfirst as (tbl & Hrun & Ht).
    destruct (min_by_ID _) as [r|] eqn:Hmin; [|done]. injection Hrun as -> <-.
    apply min_by_ID_elem_of, list_elem_of_filter in Hmin as [Hkey Hin].
    fold (same_key capability existing) in Hkey. apply same_key_spec in Hkey as [Hg Hm].
    unfold Updates. intros (tbl' & Hrun & ->)%stmt_healthy_inr. injection Hrun as <-.
    rewrite Ht.
    exists (if ModelCapabilities.ID existing =? ModelCapabilities.ID existing
            then apply_updates (updates_of capability) existing else existing).
    split.
    + apply list_elem_of_fmap. by exists existing.
    + by destruct (_ =? _).
Qed.

Lemma upsert_all_inr_has_key capabilities w w' :
  upsert_all capabilities w = (inr tt, w') →
  ∀ capability, capability ∈ capabilities → has_key capability (World.table w').
Proof.
  revert w. induction capabilities as [|c cs IH]; intros w.
  { intros _ capability Hc. by apply elem_of_nil in Hc. }
  simpl. unfold bind. destruct (upsert c w) as [[e|[]] w1] eqn:Hc; [done|].
  intros Hrest capability [->|Hin]%elem_of_cons.
  - apply upsert_inr_has_key in Hc.
    pose proof (upsert_all_preserves_rows cs w1) as Hext. rewrite Hrest in Hext.
    by eapply has_key_extends.
  - by eapply IH.
Qed.

(** What a successful [FetchAndStoreModels] went through. *)
Lemma FetchAndStoreModels_inr_inv group apiKey w w' :
  FetchAndStoreModels GetChannel group apiKey w = (inr tt, w') →
  ∃ ch capabilities,
    GetChannel group = inr ch
    ∧ ChannelProxy.FetchModels ch (World.now w) apiKey group = inr capabilities
    ∧ capabilities ≠ []
    ∧ ∀ capability, capability ∈ capabilities →
        ∃ r, r ∈ World.table w'
             ∧ ModelCapabilities.GroupID r = ModelCapabilities.GroupID capability
             ∧ ModelCapabilities.ModelID r = ModelCapabilities.ModelID capability.
Proof.
  unfold FetchAndStoreModels.
  destruct (GetChannel group) as [e|ch]; [done|].
  unfold callFetchModels.
  destruct (ChannelProxy.FetchModels ch _ apiKey group) as [e|caps] eqn:Hfetch;
    simpl; [done|].
  destruct (Z.eqb_spec (Z.of_nat (length caps)) 0) as [|Hlen]; [done|].
  intros (w1 & w2 & _ & Hbatch & Ht)%Transaction_inr.
  exists ch, caps. split; [done | split; [done | split]].
  - intros ->. simpl in Hlen. lia.
  - intros capability Hc. rewrite Ht.
    by eapply (upsert_all_inr_has_key caps w1 w2).
Qed.

(** X9.  After a successful [FetchAndStoreModels] the provider returned a
    non-empty list, and every capability of that list has a row with its
    group and model id in the table. *)
Theorem FetchAndStoreModels_stores_every_model group apiKey w w' :
  FetchAndStoreModels GetChannel group apiKey w = (inr tt, w') →
  ∃ ch capabilities,
    GetChannel group = inr ch
    ∧ ChannelProxy.FetchModels ch (World.now w) apiKey group = inr capabilities
    ∧ capabilities ≠ []
    ∧ ∀ capability, capability ∈ capabilities →
        ∃ r, r ∈ World.table w'
             ∧ ModelCapabilities.GroupID r = ModelCapabilities.GroupID capability
             ∧ ModelCapabilities.ModelID r = ModelCapabilities.ModelID capability.
Proof. apply FetchAndStoreModels_inr_inv. Qed.

(** *** A second fetch of the same catalog *)

Lemma min_by_ID_None l : min_by_ID l = None → l = [].
Proof.
  destruct l as [|x l]; [done|]. simpl.
  destruct (min_by_ID l) as [r|]; [|done].
  by destruct (ModelCapabilities.ID x <=? ModelCapabilities.ID r).
Qed.

Lemma upsert_present capability w :
  World.faults w = [] → has_key capability (World.table w) →
  ∃ w', upsert capability w = (inr tt, w')
        ∧ World.faults w' = []
        ∧ length (World.table w') = length (World.table w).
Proof.
  intros Hf (r & Hr & Hg & Hm).
  destruct (min_by_ID (filter (λ r, same_key capability r = true) (World.table w)))
    as [existing|] eqn:Hmin.
  - destruct (upsert_existing capability w existing Hf Hmin) as (_ & _ & _ & ->).
    eexists. split; [done|]. simpl. split; [done|]. by rewrite length_map.
  - apply min_by_ID_None in Hmin.
    assert (r ∈ filter (λ r, same_key capability r = true) (World.table w)) as Hin.
    { apply list_elem_of_filter. split; [by apply same_key_spec | done]. }
    rewrite Hmin in Hin. by apply elem_of_nil in Hin.
Qed.

Lemma upsert_all_present capabilities w :
  World.faults w = [] →
  (∀ capability, capability ∈ capabilities → has_key capability (World.table w)) →
  ∃ w', upsert_all capabilities w = (inr tt, w')
        ∧ World.faults w' = []
        ∧ length (World.table w') = length (World.table w).
Proof.
  revert w. induction capabilities as [|c cs IH]; intros w Hf Hkeys.
  { by exists w. }
  destruct (upsert_present c w Hf) as (w1 & Hc & Hf1 & Hlen1); [apply Hkeys; left|].
  destruct (IH w1 Hf1) as (w2 & Hcs & Hf2 & Hlen2).
  { intros capability Hin.
    pose proof (upsert_preserves_rows c w) as Hext. rewrite Hc in Hext.
    eapply has_key_extends; [exact Hext | apply Hkeys; by right]. }
  exists w2. simpl. unfold bind. rewrite Hc. split; [done | split; [done | congruence]].
Qed.

Lemma Transaction_healthy_inr f w w2 :
  World.faults w = [] → f w = (inr tt, w2) → World.faults w2 = [] →
  Transaction f w = (inr tt, w2).
Proof.
  intros Hf Hrun Hf2. unfold Transaction.
  destruct w as [tbl fs now tr]. simpl in Hf. subst fs.
  unfold stmt at 1. simpl. unfold World.set_table. simpl. rewrite Hrun.
  destruct w2 as [tbl2 fs2 now2 tr2]. simpl in Hf2. subst fs2. done.
Qed.

Lemma Transaction_keeps_healthy f w :
  (∀ w0, World.faults w0 = [] → World.faults (f w0).2 = []) →
  World.faults w = [] → World.faults (Transaction f w).2 = [].
Proof.
  intros Hkeep Hf. unfold Transaction.
  pose proof (stmt_keeps_healthy (λ tbl, @inr error _ (tt, tbl)) w Hf) as H1.
  destruct (stmt _ w) as [[e|[]] w1]; simpl in *; [done|].
  specialize (Hkeep w1 H1).
  destruct (f w1) as [[e|[]] w2]; simpl in *; [done|].
  pose proof (stmt_keeps_healthy (λ tbl, @inr error _ (tt, tbl)) w2 Hkeep) as H3.
  by destruct (stmt _ w2) as [[e|[]] w3].
Qed.

Lemma upsert_keeps_healthy capability w :
  World.faults w = [] → World.faults (upsert capability w).2 = [].
Proof.
  intros Hf. unfold upsert, First.
  match goal with |- context [stmt ?f w] =>
    pose proof (stmt_keeps_healthy f w Hf) as H1; destruct (stmt f w) as [[e|existing] w1]
  end; simpl in H1.
  - destruct (String.eqb e ErrRecordNotFound); [|done]. by apply stmt_keeps_healthy.
  - by apply stmt_keeps_healthy.
Qed.

Lemma upsert_all_keeps_healthy capabilities w :
  World.faults w = [] → World.faults (upsert_all capabilities w).2 = [].
Proof.
  revert w. induction capabilities as [|c cs IH]; intros w Hf; [done|].
  simpl. unfold bind. pose proof (upsert_keeps_healthy c w Hf) as H1.
  destruct (upsert c w) as [[e|[]] w1]; simpl in *; [done | by apply IH].
Qed.

Lemma FetchAndStoreModels_keeps_healthy group apiKey w :
  World.faults w = [] →
  World.faults (FetchAndStoreModels GetChannel group apiKey w).2 = [].
Proof.
  intros Hf. unfold FetchAndStoreModels.
  destruct (GetChannel group) as [e|ch]; [done|].
  unfold callFetchModels.
  destruct (ChannelProxy.FetchModels ch _ apiKey group) as [e|caps]; simpl; [done|].
  destruct (Z.of_nat (length caps) =? 0); [done|].
  apply Transaction_keeps_healthy; [apply upsert_all_keeps_healthy | done].
Qed.

(** X10.  On a store whose statements succeed, a successful
    [FetchAndStoreModels] can be repeated: the second run (the provider
    answering as it did) succeeds too, finds every model in place and adds no
    row. *)
Theorem FetchAndStoreModels_again group apiKey w w1 :
  World.faults w = [] →
  FetchAndStoreModels GetChannel group apiKey w = (inr tt, w1) →
  ∃ w2, FetchAndStoreModels GetChannel group apiKey w1 = (inr tt, w2)
        ∧ length (World.table w2) = length (World.table w1).
Proof.
  intros Hf Hrun.
  pose proof (FetchAndStoreModels_keeps_healthy group apiKey w Hf) as Hf1.
  destruct (FetchAndStoreModels_trace GetChannel group apiKey w) as [Hnow _].
  rewrite Hrun in Hf1, Hnow. simpl in Hf1, Hnow.
  destruct (FetchAndStoreModels_inr_inv group apiKey w w1 Hrun)
    as (ch & caps & Hch & Hfetch & Hne & Hkeys).
  unfold FetchAndStoreModels. rewrite Hch. unfold callFetchModels. simpl.
  rewrite Hnow, Hfetch.
  destruct (Z.eqb_spec (Z.of_nat (length caps)) 0) as [Hlen|_].
  { destruct caps; [done | simpl in Hlen; lia]. }
  destruct (upsert_all_present caps (after_fetch group apiKey w1)) as (w2 & Hall & Hf2 & Hlen).
  { done. }
  { intros capability Hc. destruct (Hkeys capability Hc) as (r & ? & ? & ?). by exists r. }
  exists w2. split; [|done].
  by apply Transaction_healthy_inr.
Qed.

(** *** Rows the catalog does not name *)

Definition unique_ids (tbl : list ModelCapabilities.t) : Prop :=
  NoDup (map ModelCapabilities.ID tbl).

Lemma unique_ids_eq tbl r r' :
  unique_ids tbl → r ∈ tbl → r' ∈ tbl →
  ModelCapabilities.ID r = ModelCapabilities.ID r' → r = r'.
Proof.
  intros Hnd [i Hi]%list_elem_of_lookup [j Hj]%list_elem_of_lookup Hid.
  assert (i = j) as ->; [|congruence].
  eapply (NoDup_lookup _ i j (ModelCapabilities.ID r) Hnd);
    rewrite list_lookup_fmap; [by rewrite Hi | by rewrite Hj, Hid].
Qed.

Lemma next_ID_fresh tbl : next_ID tbl ∉ map ModelCapabilities.ID tbl.
Proof.
  unfold next_ID.
  assert (∀ l x, x ∈ l → x ≤ foldr Z.max 0 l) as Hmax.
  { induction l as [|y l IH]; intros x Hx; [by apply elem_of_nil in Hx|].
    simpl. apply elem_of_cons in Hx as [->|Hx]; [lia|]. specialize (IH x Hx). lia. }
  intros Hin. apply Hmax in Hin. lia.
Qed.

(** The table after a statement: the old one, or the one the statement
    computed. *)
Lemma stmt_table {A}
    (f : list ModelCapabilities.t → error + (A * list ModelCapabilities.t)) w :
  World.table (stmt f w).2 = World.table w
  ∨ ∃ a tbl, f (World.table w) = inr (a, tbl) ∧ World.table (stmt f w).2 = tbl.
Proof.
  destruct (stmt_cases f w) as [fs [[e ->] | (a & tbl & Hrun & ->)]]; [by left|].
  right. by exists a, tbl.
Qed.

Definition untouched (tbl tbl' : list ModelCapabilities.t)
    (P : ModelCapabilities.t → Prop) : Prop :=
  ∀ i r, tbl !! i = Some r → P r → tbl' !! i = Some r.

Lemma upsert_untouched capability w :
  unique_ids (World.table w) →
  unique_ids (World.table (upsert capability w).2)
  ∧ untouched (World.table w) (World.table (upsert capability w).2)
      (λ r, same_key capability r = false).
Proof.
  intros Hnd. unfold upsert.
  destruct (First _ w) as [[e|existing] w1] eqn:Hfirst.
  - assert (World.table w1 = World.table w) as Ht1.
    { unfold First in Hfirst. by apply stmt_inl_table in Hfirst. }
    destruct (String.eqb e ErrRecordNotFound); simpl;
      [|rewrite Ht1; split; [done | by intros i r Hi _]].
    unfold Create.
    match goal with |- context [stmt ?f w1] =>
      destruct (stmt_table f w1) as [-> | (a & tbl & Hrun & ->)]
    end.
    { rewrite Ht1. split; [done | by intros i r Hi _]. }
    rewrite Ht1 in Hrun.
    assert (∃ x, tbl = (World.table w ++ [x])%list
                 ∧ ModelCapabilities.ID x ∉ map ModelCapabilities.ID (World.table w))
      as (x & -> & Hfresh).
    { destruct (ModelCapabilities.ID capability =? 0).
      - injection Hrun as <-. eexists. split; [done|]. simpl. apply next_ID_fresh.
      - destruct (existsb _ _) eqn:Hex; [done|]. injection Hrun as <-.
        exists capability. split; [done|].
        intros (r & Hid & Hr)%list_elem_of_fmap.
        assert (existsb (λ r, ModelCapabilities.ID r =? ModelCapabilities.ID capability)
                        (World.table w) = true); [|congruence].
        apply existsb_exists. exists r. split; [by apply list_elem_of_In | lia]. }
    split.
    + unfold unique_ids. rewrite map_app. simpl. apply NoDup_app.
      split; [done|]. split; [|apply NoDup_singleton].
      intros y Hy ->%list_elem_of_singleton. done.
    + intros i r Hi _. by apply lookup_app_l_Some.
  - unfold First in Hfirst. apply stmt_healthy_inr in Hfirst as (tbl & Hrun & Ht1).
    destruct (min_by_ID _) as [r0|] eqn:Hmin; [|done]. injection Hrun as -> <-.
    apply min_by_ID_elem_of, list_elem_of_filter in Hmin as [Hkey Hin].
    fold (same_key capability existing) in Hkey.
    unfold Updates.
    match goal with |- context [stmt ?f w1] =>
      destruct (stmt_table f w1) as [-> | (a & tbl & Hrun & ->)]
    end.
    { rewrite Ht1. split; [done | by intros i r Hi _]. }
    injection Hrun as Htbl. subst tbl. rewrite Ht1. split.
    + unfold unique_ids. rewrite <- list_fmap_compose.
      erewrite list_fmap_ext; [exact Hnd|]. intros i r _. simpl.
      by destruct (_ =? _).
    + intros i r Hi Hr. rewrite list_lookup_fmap, Hi. simpl.
      destruct (Z.eqb_spec (ModelCapabilities.ID r) (ModelCapabilities.ID existing))
        as [Hid|]; [|done].
      assert (r = existing) as ->; [|congruence].
      apply (unique_ids_eq (World.table w)); [done | | done | done].
      by eapply list_elem_of_lookup_2.
Qed.

Lemma upsert_all_untouched capabilities w :
  unique_ids (World.table w) →
  unique_ids (World.table (upsert_all capabilities w).2)
  ∧ untouched (World.table w) (World.table (upsert_all capabilities w).2)
      (λ r, ∀ capability, capability ∈ capabilities → same_key capability r = false).
Proof.
  revert w. induction capabilities as [|c cs IH]; intros w Hnd.
  { split; [done | by intros i r Hi _]. }
  simpl. unfold bind.
  destruct (upsert_untouched c w Hnd) as [Hnd1 Hun1].
  destruct (upsert c w) as [[e|[]] w1]; simpl in *.
  { split; [done|]. intros i r Hi Hr. apply Hun1; [done | apply Hr; left]. }
  destruct (IH w1 Hnd1) as [Hnd2 Hun2]. split; [done|].
  intros i r Hi Hr. apply Hun2.
  - apply Hun1; [done | apply Hr; left].
  - intros capability Hc. apply Hr. by right.
Qed.

(** Rows that the catalog does not name, through a whole call. *)
Lemma FetchAndStoreModels_untouched group apiKey w i r :
  unique_ids (World.table w) →
  World.table w !! i = Some r →
  (∀ ch capabilities capability,
     GetChannel group = inr ch →
     ChannelProxy.FetchModels ch (World.now w) apiKey group = inr capabilities →
     capability ∈ capabilities →
     ¬ (ModelCapabilities.GroupID r = ModelCapabilities.GroupID capability
        ∧ ModelCapabilities.ModelID r = ModelCapabilities.ModelID capability)) →
  World.table (FetchAndStoreModels GetChannel group apiKey w).2 !! i = Some r
  ∧ unique_ids (World.table (FetchAndStoreModels GetChannel group apiKey w).2).
Proof.
  intros Hnd Hi Hother. unfold FetchAndStoreModels.
  destruct (GetChannel group) as [e|ch] eqn:Hch; [done|].
  unfold callFetchModels.
  destruct (ChannelProxy.FetchModels ch _ apiKey group) as [e|caps] eqn:Hfetch;
    simpl; [done|].
  destruct (Z.of_nat (length caps) =? 0); [done|].
  fold (after_fetch group apiKey w).
  unfold Transaction.
  pose proof (stmt_id_table (after_fetch group apiKey w)) as H1.
  destruct (stmt _ (after_fetch group apiKey w)) as [[e1|[]] w1]; simpl in H1;
    [simpl; by rewrite H1|].
  destruct (upsert_all_untouched caps w1) as [Hnd2 Hun2]; [by rewrite H1|].
  destruct (upsert_all caps w1) as [[e2|[]] w2]; simpl in *; [done|].
  pose proof (stmt_id_table w2) as H3.
  destruct (stmt _ w2) as [[e3|[]] w3]; simpl in *; [done|].
  rewrite H3. split; [|done].
  apply Hun2; [by rewrite H1|].
  intros capability Hc.
  destruct (same_key capability r) eqn:Hkey; [|done].
  apply same_key_spec in Hkey. by destruct (Hother ch caps capability).
Qed.

(** X11.  [FetchAndStoreModels] only adds and updates.  On a table whose
    primary keys are distinct, a row whose (group_id, model_id) is not among
    the fetched capabilities is, after the call, where it was and as it was,
    whatever the outcome; and the primary keys are still distinct. *)
Theorem FetchAndStoreModels_leaves_other_rows group apiKey w i r :
  unique_ids (World.table w) →
  World.table w !! i = Some r →
  (∀ ch capabilities capability,
     GetChannel group = inr ch →
     ChannelProxy.FetchModels ch (World.now w) apiKey group = inr capabilities →
     capability ∈ capabilities →
     ¬ (ModelCapabilities.GroupID r = ModelCapabilities.GroupID capability
        ∧ ModelCapabilities.ModelID r = ModelCapabilities.ModelID capability)) →
  World.table (FetchAndStoreModels GetChannel group apiKey w).2 !! i = Some r
  ∧ unique_ids (World.table (FetchAndStoreModels GetChannel group apiKey w).2).
Proof. apply FetchAndStoreModels_untouched. Qed.

(** X12.  Hence a stale auto-fetched row whose model the provider no longer
    lists stays stale: after [FetchAndStoreModels], whatever its outcome, a
    refresh with the same stale duration is called for again. *)
Theorem stale_row_outside_catalog_stays_stale group apiKey staleDuration w i r :
  unique_ids (World.table w) →
  World.table w !! i = Some r →
  stale_row (Group.ID group) (stale_time w staleDuration) r →
  (∀ ch capabilities capability,
     GetChannel group = inr ch →
     ChannelProxy.FetchModels ch (World.now w) apiKey group = inr capabilities →
     capability ∈ capabilities →
     ¬ (ModelCapabilities.GroupID r = ModelCapabilities.GroupID capability
        ∧ ModelCapabilities.ModelID r = ModelCapabilities.ModelID capability)) →
  needs_refresh (FetchAndStoreModels GetChannel group apiKey w).2
    (Group.ID group) staleDuration.
Proof.
  intros Hnd Hi Hstale Hother.
  destruct (FetchAndStoreModels_untouched group apiKey w i r Hnd Hi Hother)
    as [Hi' _].
  destruct (FetchAndStoreModels_trace GetChannel group apiKey w) as [Hnow _].
  left. exists r. split; [by eapply list_elem_of_lookup_2|].
  unfold stale_time in *. by rewrite Hnow.
Qed.

(** *** After a refresh *)




Lemma refreshed_key capability r :
  ModelCapabilities.GroupID (refreshed capability r) = ModelCapabilities.GroupID r
  ∧ ModelCapabilities.ModelID (refreshed capability r) = ModelCapabilities.ModelID r.
Proof. done. Qed.





End Service.

(** *** Concrete runs *)

Definition locked_world : World.t :=
  World.mk [fetched_row 1 "gpt-4o" (Some (noon - Hour))]
           [None; None; None; None; Some "database is locked"] noon [].

Lemma FetchAndStoreModels_all_or_nothing_witness :
  World.table (FetchAndStoreModels sample_factory sample_group sample_key locked_world).2
  = World.table locked_world.
Proof.
  apply (FetchAndStoreModels_all_or_nothing sample_factory sample_group sample_key
           locked_world "database is locked").
  vm_compute. reflexivity.
Defined.

Definition stored_world : World.t :=
  World.mk [fetched_row 1 "gpt-4o" (Some noon); fetched_row 2 "gpt-3.5-turbo" (Some noon)]
           [] noon [EvFetchAndStoreModels 1 7; EvFetchModels 1 7].

Lemma FetchAndStoreModels_stores_every_model_witness :
  ∃ ch capabilities,
    sample_factory sample_group = inr ch
    ∧ ChannelProxy.FetchModels ch (World.now empty_world) sample_key sample_group
      = inr capabilities
    ∧ capabilities ≠ []
    ∧ ∀ capability, capability ∈ capabilities →
        ∃ r, r ∈ World.table stored_world
             ∧ ModelCapabilities.GroupID r = ModelCapabilities.GroupID capability
             ∧ ModelCapabilities.ModelID r = ModelCapabilities.ModelID capability.
Proof.
  apply (FetchAndStoreModels_stores_every_model sample_factory sample_group sample_key
           empty_world stored_world).
  vm_compute. reflexivity.
Defined.

Lemma FetchAndStoreModels_again_witness :
  ∃ w2, FetchAndStoreModels sample_factory sample_group sample_key stored_world = (inr tt, w2)
        ∧ length (World.table w2) = length (World.table stored_world).
Proof.
  apply (FetchAndStoreModels_again sample_factory sample_group sample_key
           empty_world stored_world eq_refl).
  vm_compute. reflexivity.
Defined.

Definition silent_factory (group : Group.t) : error + ChannelProxy.t :=
  inr (ChannelProxy.mk (λ _ _ _, inr [])).

Lemma FetchAndStoreModels_early_failures_witness :
  FetchAndStoreModels silent_factory sample_group sample_key locked_world
  = (inl "no models returned from provider",
     after_fetch sample_group sample_key locked_world)
  ∧ World.faults (after_fetch sample_group sample_key locked_world)
    = World.faults locked_world.
Proof.
  destruct (FetchAndStoreModels_early_failures silent_factory sample_group sample_key
              locked_world) as (_ & _ & Hempty & _ & Hfaults & _).
  split; [|exact Hfaults].
  apply (Hempty (ChannelProxy.mk (λ _ _ _, inr []))); reflexivity.
Defined.





Lemma sample_catalog_misses_turbo ch capabilities capability :
  sample_factory sample_group = inr ch →
  ChannelProxy.FetchModels ch (World.now fresh_world) sample_key sample_group
  = inr capabilities →
  capability ∈ capabilities →
  ¬ (ModelCapabilities.GroupID (fetched_row 3 "gpt-4-turbo" (Some (noon - Hour)))
     = ModelCapabilities.GroupID capability
     ∧ ModelCapabilities.ModelID (fetched_row 3 "gpt-4-turbo" (Some (noon - Hour)))
       = ModelCapabilities.ModelID capability).
Proof.
  intros [= <-] Hfetch Hin. vm_compute in Hfetch. injection Hfetch as <-.
  repeat (apply elem_of_cons in Hin as [->|Hin]; [intros [_ Hm]; discriminate Hm|]).
  by apply elem_of_nil in Hin.
Qed.

Lemma fresh_world_unique_ids : unique_ids (World.table fresh_world).
Proof. apply (bool_decide_unpack _). vm_compute. reflexivity. Qed.

Lemma FetchAndStoreModels_leaves_other_rows_witness :
  World.table (FetchAndStoreModels sample_factory sample_group sample_key fresh_world).2
    !! 2%nat
  = Some (fetched_row 3 "gpt-4-turbo" (Some (noon - Hour)))
  ∧ unique_ids
      (World.table (FetchAndStoreModels sample_factory sample_group sample_key fresh_world).2).
Proof.
  apply (FetchAndStoreModels_leaves_other_rows sample_factory sample_group sample_key
           fresh_world 2 (fetched_row 3 "gpt-4-turbo" (Some (noon - Hour)))
           fresh_world_unique_ids eq_refl sample_catalog_misses_turbo).
Defined.

(** One hour after the fetch the row of "gpt-4-turbo" is stale at 30
    minutes, and stays so after a refresh. *)
Lemma stale_row_outside_catalog_stays_stale_witness :
  needs_refresh (FetchAndStoreModels sample_factory sample_group sample_key fresh_world).2
    (Group.ID sample_group) (Hour / 2).
Proof.
  apply (stale_row_outside_catalog_stays_stale sample_factory sample_group sample_key
           (Hour / 2) fresh_world 2 (fetched_row 3 "gpt-4-turbo" (Some (noon - Hour)))
           fresh_world_unique_ids eq_refl).
  - split; [reflexivity | split; [reflexivity|]].
    right. exists (noon - Hour). split; [reflexivity | vm_compute; reflexivity].
  - exact sample_catalog_misses_turbo.
Defined.

End RegistryFacts.

(** * The handlers of the model registry *)

Module ModelHandlerFacts.
Import gorm StoreFacts ModelService ModelServiceFacts RegistryFacts.
Import ModelServiceQueries model_handler.

Lemma ParseUint_range s n : strconv.ParseUint s = inr n → s ≠ "" ∧ 0 ≤ n < 2^64.
Proof.
  unfold strconv.ParseUint. destruct s as [|c s]; [done|].
  destruct (strconv.digits (String c s) 0) as [m|] eqn:Hd; [|done].
  assert (∀ t acc v, 0 ≤ acc → strconv.digits t acc = Some v → 0 ≤ v) as Hpos.
  { induction t as [|d t IH]; simpl; intros acc v Hacc; [by intros [= <-]|].
    unfold strconv.digit_value.
    destruct ((48 <=? N_of_ascii d)%N && (N_of_ascii d <=? 57)%N) eqn:Hr; [|done].
    apply andb_true_iff in Hr as [H1%N.leb_le H2%N.leb_le]. apply IH. lia. }
  destruct (Z.ltb_spec m (2^64)); [|done]. intros [= <-].
  split; [done|]. split; [by eapply (Hpos _ 0) | done].
Qed.

Lemma Delete_inr cond w w' :
  Delete cond w = (inr tt, w') →
  World.table w' = filter (λ r, cond r = false) (World.table w).
Proof.
  unfold Delete. intros (tbl & Hrun & ->)%stmt_healthy_inr. by injection Hrun as <-.
Qed.

Section Refresh.
Variable GetChannel : Group.t → error + ChannelProxy.t.

(** X13.  A successful [DeleteGroupModels] removes the rows of the group and
    no other row; and on a store whose statements succeed the next
    [RefreshStaleModels] of the group fetches from the provider, whatever the
    stale duration. *)
Theorem DeleteGroupModels_then_refresh group apiKey staleDuration w w' :
  DeleteGroupModels (Group.ID group) w = (inr tt, w') →
  World.table w'
  = filter (λ r, ModelCapabilities.GroupID r ≠ Group.ID group) (World.table w)
  ∧ (∀ r, r ∈ World.table w' → ModelCapabilities.GroupID r ≠ Group.ID group)
  ∧ (World.faults w' = [] →
       RefreshStaleModels GetChannel group apiKey staleDuration w'
       = FetchAndStoreModels GetChannel group apiKey w').
Proof.
  intros Hdel. unfold DeleteGroupModels in Hdel. apply Delete_inr in Hdel.
  assert (World.table w'
          = filter (λ r, ModelCapabilities.GroupID r ≠ Group.ID group) (World.table w))
    as Htbl.
  { rewrite Hdel. apply list_filter_iff. intros r.
    destruct (Z.eqb_spec (ModelCapabilities.GroupID r) (Group.ID group)); split; done. }
  assert (∀ r, r ∈ World.table w' → ModelCapabilities.GroupID r ≠ Group.ID group) as Hnone.
  { intros r. rewrite Htbl. by intros [? _]%list_elem_of_filter. }
  split; [done | split; [done|]]. intros Hf.
  destruct (RefreshStaleModels_cases GetChannel group apiKey staleDuration w' Hf)
    as [[_ Heq] | [Hn _]]; [done|].
  destruct Hn. by right.
Qed.

End Refresh.

(** The row that a patch makes of a row. *)
Definition patched (req : UpdateModelRequest) (r : ModelCapabilities.t)
  : ModelCapabilities.t :=
  ModelCapabilities.mk
    (ModelCapabilities.ID r)
    (ModelCapabilities.GroupID r)
    (ModelCapabilities.ModelID r)
    (ModelCapabilities.ModelName r)
    (default (ModelCapabilities.SupportsStreaming r) (SupportsStreaming req))
    (default (ModelCapabilities.SupportsVision r) (SupportsVision req))
    (default (ModelCapabilities.SupportsFunctions r) (SupportsFunctions req))
    (match MaxTokens req with
     | Some n => Some n | None => ModelCapabilities.MaxTokens r end)
    (match MaxInputTokens req with
     | Some n => Some n | None => ModelCapabilities.MaxInputTokens r end)
    (match MaxOutputTokens req with
     | Some n => Some n | None => ModelCapabilities.MaxOutputTokens r end)
    (default (ModelCapabilities.CustomCapabilities r) (CustomCapabilities req))
    (ModelCapabilities.IsAutoFetched r)
    (ModelCapabilities.LastFetchedAt r).


Lemma patched_nothing r :
  patched (mkUpdateModelRequest None None None None None None None) r = r.
Proof. by destruct r. Qed.

Lemma GetModelByID_healthy id w :
  World.faults w = [] →
  (GetModelByID id w).1
  = match min_by_ID (filter (λ r, (ModelCapabilities.ID r =? id) = true) (World.table w)) with
    | Some r => inr r
    | None => inl ErrRecordNotFound
    end
  ∧ World.table (GetModelByID id w).2 = World.table w.
Proof.
  intros Hf. unfold GetModelByID, First. rewrite stmt_healthy by done.
  by destruct (min_by_ID _).
Qed.

Section Handlers.
Variable ShouldBindJSON : bytes → error + UpdateModelRequest.


(** X15.  On a store whose statements succeed, [DeleteModel] with a valid id
    replies with success whether or not a row had the id, removes the rows of
    that id and no other, and a [GetModel] of the same id then replies "not
    found".  A path parameter that is not a decimal number below 2^64 gets
    "bad request" from all three handlers, and nothing reaches the store. *)
Theorem DeleteModel_then_GetModel modelIDStr w :
  (∀ id, World.faults w = [] → strconv.ParseUint modelIDStr = inr id →
     let out := DeleteModel modelIDStr w in
     out.1 = inr (SuccessMessage "model.deleted_successfully")
     ∧ World.table out.2
       = filter (λ r, ModelCapabilities.ID r ≠ id) (World.table w)
     ∧ (GetModel modelIDStr out.2).1 = inr (ResourceNotFound "model.model_not_found"))
  ∧ (∀ err body, strconv.ParseUint modelIDStr = inl err →
       DeleteModel modelIDStr w = (inr (BadRequest "validation.invalid_model_id"), w)
       ∧ GetModel modelIDStr w = (inr (BadRequest "validation.invalid_model_id"), w)
       ∧ UpdateModel ShouldBindJSON modelIDStr body w
         = (inr (BadRequest "validation.invalid_model_id"), w)).
Proof.
  split.
  - intros id Hf Hid out. subst out. unfold DeleteModel, GetModel. rewrite Hid.
    unfold ModelServiceQueries.DeleteModel, Delete. rewrite stmt_healthy by done. simpl.
    assert (filter (λ r, (ModelCapabilities.ID r =? id) = false) (World.table w)
            = filter (λ r, ModelCapabilities.ID r ≠ id) (World.table w)) as Htbl.
    { apply list_filter_iff. intros r.
      destruct (Z.eqb_spec (ModelCapabilities.ID r) id); split; done. }
    split; [done | split; [done|]].
    match goal with |- context [GetModelByID id ?w1] =>
      destruct (GetModelByID_healthy id w1 Hf) as [Hget _];
      destruct (GetModelByID id w1) as [[e|r'] w2]
    end; [done|]. simpl in Hget. exfalso.
    destruct (min_by_ID _) as [r0|] eqn:Hmin; [|done].
    apply min_by_ID_elem_of, list_elem_of_filter in Hmin as [Hk Hin].
    apply list_elem_of_filter in Hin as [Hne _]. congruence.
  - intros err body Hid. unfold DeleteModel, GetModel, UpdateModel. by rewrite Hid.
Qed.

End Handlers.

(** The largest number of hours whose nanoseconds fit an [int64]. *)
Definition max_hours : Z := 2562047.

(** X16.  The stale duration of [RefreshModels] is 24 hours when
    [stale_hours] is absent, is not a decimal integer, or is zero or
    negative.  For a positive integer h it is h hours exactly when
    h <= 2562047; beyond that the product overflows [int64] and the duration
    is some other value. *)
Theorem staleDuration_of_query_cases hoursStr :
  (∀ err, strconv.Atoi hoursStr = inl err → staleDuration_of_query hoursStr = 24 * Hour)
  ∧ (∀ h, strconv.Atoi hoursStr = inr h → h ≤ 0 →
       staleDuration_of_query hoursStr = 24 * Hour)
  ∧ (∀ h, strconv.Atoi hoursStr = inr h → 0 < h →
       staleDuration_of_query hoursStr = wrap64 (h * Hour)
       ∧ (staleDuration_of_query hoursStr = h * Hour ↔ h ≤ max_hours)).
Proof.
  unfold staleDuration_of_query.
  assert (wrap64 (24 * Hour) = 24 * Hour) as H24 by (vm_compute; reflexivity).
  split; [|split].
  - intros err Herr. rewrite Herr. by destruct (negb _).
  - intros h Hh Hle. rewrite Hh.
    destruct (Z.gtb_spec h 0); [lia|]. by destruct (negb _).
  - intros h Hh Hpos. rewrite Hh.
    assert (hoursStr ≠ "") as Hne by (intros ->; discriminate Hh).
    rewrite (proj2 (String.eqb_neq _ _) Hne). simpl.
    destruct (Z.gtb_spec h 0); [|lia]. split; [done|].
    unfold wrap64, max_hours, Hour. split.
    + intros Heq.
      pose proof (Z.mod_pos_bound (h * (3600 * 1000000000) + 2^63) (2^64)
                    ltac:(lia)) as Hb.
      lia.
    + intros Hle. rewrite Z.mod_small by lia. lia.
Qed.

(** *** Concrete runs *)

Lemma DeleteGroupModels_then_refresh_witness :
  World.table (World.set_table fresh_world [])
  = filter (λ r, ModelCapabilities.GroupID r ≠ Group.ID sample_group)
           (World.table fresh_world)
  ∧ (∀ r, r ∈ World.table (World.set_table fresh_world []) →
          ModelCapabilities.GroupID r ≠ Group.ID sample_group)
  ∧ (World.faults (World.set_table fresh_world []) = [] →
       RefreshStaleModels sample_factory sample_group sample_key (24 * Hour)
         (World.set_table fresh_world [])
       = FetchAndStoreModels sample_factory sample_group sample_key
           (World.set_table fresh_world [])).
Proof.
  apply (DeleteGroupModels_then_refresh sample_factory sample_group sample_key (24 * Hour)
           fresh_world (World.set_table fresh_world [])).
  vm_compute. reflexivity.
Defined.

Definition vision_patch : UpdateModelRequest :=
  mkUpdateModelRequest None (Some true) None (Some 4096) None None None.

Definition patch_bind (body : bytes) : error + UpdateModelRequest := inr vision_patch.


Lemma DeleteModel_then_GetModel_witness :
  let out := DeleteModel "3" fresh_world in
  out.1 = inr (SuccessMessage "model.deleted_successfully")
  ∧ World.table out.2
    = filter (λ r, ModelCapabilities.ID r ≠ 3) (World.table fresh_world)
  ∧ (GetModel "3" out.2).1 = inr (ResourceNotFound "model.model_not_found").
Proof.
  exact (proj1 (DeleteModel_then_GetModel patch_bind "3" fresh_world) 3 eq_refl eq_refl).
Defined.

Lemma staleDuration_of_query_cases_witness :
  staleDuration_of_query "48" = 48 * Hour
  ∧ staleDuration_of_query "soon" = 24 * Hour
  ∧ staleDuration_of_query "-3" = 24 * Hour.
Proof.
  destruct (staleDuration_of_query_cases "48") as (_ & _ & Hpos).
  destruct (staleDuration_of_query_cases "soon") as (Herr & _ & _).
  destruct (staleDuration_of_query_cases "-3") as (_ & Hneg & _).
  split; [|split].
  - destruct (Hpos 48 eq_refl ltac:(lia)) as [_ Hiff]. apply Hiff. unfold max_hours. lia.
  - apply (Herr "invalid syntax"). reflexivity.
  - apply (Hneg (-3)); [reflexivity | lia].
Defined.

(** 2562048 hours do not fit: the duration comes out negative. *)
Example staleDuration_of_query_overflow :
  staleDuration_of_query "2562048" = 2562048 * Hour - 2^64
  ∧ staleDuration_of_query "2562048" < 0.
Proof. split; vm_compute; reflexivity. Qed.

Example ParseUint_examples :
  strconv.ParseUint "42" = inr 42
  ∧ strconv.ParseUint "" = inl "invalid syntax"
  ∧ strconv.ParseUint "-1" = inl "invalid syntax"
  ∧ strconv.ParseUint "18446744073709551616" = inl "value out of range".
Proof. repeat split; vm_compute; reflexivity. Qed.

Example Atoi_examples :
  strconv.Atoi "+7" = inr 7
  ∧ strconv.Atoi "-" = inl "invalid syntax"
  ∧ strconv.Atoi "1e3" = inl "invalid syntax"
  ∧ strconv.Atoi "9223372036854775808" = inl "value out of range"
  ∧ strconv.Atoi "-9223372036854775808" = inr (- 2^63).
Proof. repeat split; vm_compute; reflexivity. Qed.

End ModelHandlerFacts.

(** * Further properties of the playground *)

Module PlaygroundMoreFacts.
Import GoNet handler PlaygroundFacts.

Lemma active_keys_tables groupID s s' :
  Server.api_keys s' = Server.api_keys s → active_keys groupID s' = active_keys groupID s.
Proof. unfold active_keys. by intros ->. Qed.

Section Handlers.
Context `{External}.
Variable ShouldBindJSON : bytes → error + PlaygroundChatRequest.
Variable Decrypt : string → error + string.
Variable http_Do : Request → error + Response.

(** What an upstream call comes to: no request and an error, or one request
    and the reading of its answer. *)
Definition call_outcome (out : (error + string) * Server.t) (s : Server.t) : Prop :=
  (∃ err, out = (inl err, s))
  ∨ (∃ r extract,
       out = (match http_Do r with
              | inl err => inl err
              | inr resp => read_reply extract resp
              end, Server.log_sent s r)).

Lemma send_outcome r extract s : call_outcome (send http_Do r extract s) s.
Proof.
  right. exists r, extract. unfold send, client_Do. by destruct (http_Do r).
Qed.

Lemma callOpenAI_outcome baseURL apiKey req s :
  call_outcome (callOpenAI http_Do baseURL apiKey req s) s.
Proof.
  unfold callOpenAI. destruct (json_Marshal _) as [e|jsonData]; [left; eauto|].
  destruct (NewRequest _ _ _) as [e|r]; [left; eauto | apply send_outcome].
Qed.

Lemma callGemini_outcome baseURL apiKey req s :
  call_outcome (callGemini http_Do baseURL apiKey req s) s.
Proof.
  unfold callGemini. destruct (json_Marshal _) as [e|jsonData]; [left; eauto|].
  destruct (NewRequest _ _ _) as [e|r]; [left; eauto | apply send_outcome].
Qed.

Lemma callAnthropic_outcome baseURL apiKey req s :
  call_outcome (callAnthropic http_Do baseURL apiKey req s) s.
Proof.
  unfold callAnthropic. destruct (json_Marshal _) as [e|jsonData]; [left; eauto|].
  destruct (NewRequest _ _ _) as [e|r]; [left; eauto | apply send_outcome].
Qed.

Lemma dispatch_outcome channelType baseURL key req s :
  call_outcome (dispatch http_Do channelType baseURL key req s) s.
Proof.
  unfold dispatch.
  destruct (String.eqb channelType "openai"); [apply callOpenAI_outcome|].
  destruct (String.eqb channelType "gemini"); [apply callGemini_outcome|].
  destruct (String.eqb channelType "anthropic");
    [apply callAnthropic_outcome | apply callOpenAI_outcome].
Qed.

Lemma read_reply_inr extract resp content :
  read_reply extract resp = inr content →
  StatusCode resp = 200 ∧ BodyErr resp = None.
Proof.
  unfold read_reply, ReadAll. destruct (BodyErr resp); [done|].
  destruct (Z.eqb_spec (StatusCode resp) StatusOK); [done | done].
Qed.

(** The state after the two lookups of the handler. *)
Lemma lookups_frame name s group s1 :
  find_group name s = (inr group, s1) →
  Server.api_keys s1 = Server.api_keys s ∧ Server.groups s1 = Server.groups s
  ∧ Server.sent s1 = Server.sent s.
Proof.
  intros Hg. unfold find_group in Hg.
  match type of Hg with query ?f s = _ =>
    destruct (query_frame f s) as [[? ?] ?] end.
  rewrite Hg in *. done.
Qed.

(** X17.  [PlaygroundChat] only reads the store and makes at most one
    upstream request, whatever the request and the state; its reply has
    status 200, 400, 404 or 500. *)
Theorem PlaygroundChat_frame body s :
  let out := PlaygroundChat ShouldBindJSON Decrypt http_Do body s in
  Server.groups out.2 = Server.groups s
  ∧ Server.api_keys out.2 = Server.api_keys s
  ∧ (Server.sent out.2 = Server.sent s
     ∨ ∃ r, Server.sent out.2 = (Server.sent s ++ [r])%list)
  ∧ reply_status out.1 ∈ [200; 400; 404; 500].
Proof.
  unfold PlaygroundChat.
  destruct (ShouldBindJSON body) as [e|req]; simpl.
  { repeat split; [by left | set_solver]. }
  match goal with |- context [find_group ?n s] =>
    destruct (query_frame (λ s,
      match find (λ g, String.eqb (Group.Name g) n) (Server.groups s) with
      | Some g => inr g
      | None => inl gorm.ErrRecordNotFound
      end) s) as [[Hg1 Hk1] Hs1];
    fold (find_group n) in Hg1, Hk1, Hs1;
    destruct (find_group n s) as [[e|group] s1]
  end; simpl in *.
  { repeat split; [done | done | by left | set_solver]. }
  destruct (Group.Upstreams group) as [|upstream rest]; simpl.
  { repeat split; [done | done | by left | set_solver]. }
  match goal with |- context [select_active_key ?g s1] =>
    destruct (query_frame (λ s,
      match active_keys g s !! (Server.random s `mod` length (active_keys g s))%nat with
      | Some k => inr k
      | None => inl gorm.ErrRecordNotFound
      end) s1) as [[Hg2 Hk2] Hs2];
    fold (select_active_key g) in Hg2, Hk2, Hs2;
    destruct (select_active_key g s1) as [[e|apiKey] s2]
  end; simpl in *.
  { repeat split; [congruence | congruence | left; congruence | set_solver]. }
  destruct (Decrypt (APIKey.KeyValue apiKey)) as [e|decryptedKey]; simpl.
  { repeat split; [congruence | congruence | left; congruence | set_solver]. }
  destruct (dispatch_outcome (Group.ChannelType group) (UpstreamInfo.URL upstream)
              decryptedKey req s2) as [[err ->] | (r & extract & ->)]; simpl.
  { repeat split; [congruence | congruence | left; congruence | set_solver]. }
  destruct (match http_Do r with
            | inl err => inl err
            | inr resp => read_reply extract resp
            end) as [apiErr|upstreamResp]; simpl;
    (repeat split; [congruence | congruence | right; exists r; congruence | set_solver]).
Qed.

(** X18.  A reply with status 200 carries the model of the request, and
    comes only after exactly one upstream request whose answer had status 200
    and a body that could be read. *)
Theorem PlaygroundChat_success body s data :
  (PlaygroundChat ShouldBindJSON Decrypt http_Do body s).1 = ReplySuccess data →
  ∃ req r resp,
    ShouldBindJSON body = inr req
    ∧ RespModel data = Model req
    ∧ Server.sent (PlaygroundChat ShouldBindJSON Decrypt http_Do body s).2
      = (Server.sent s ++ [r])%list
    ∧ http_Do r = inr resp
    ∧ StatusCode resp = 200
    ∧ BodyErr resp = None.
Proof.
  unfold PlaygroundChat.
  destruct (ShouldBindJSON body) as [e|req]; [done|].
  destruct (find_group (GroupName req) s) as [[e|group] s1] eqn:Hgroup; [done|].
  destruct (lookups_frame _ _ _ _ Hgroup) as (_ & _ & Hs1).
  destruct (Group.Upstreams group) as [|upstream rest]; [done|].
  match goal with |- context [select_active_key ?g s1] =>
    destruct (query_frame (λ s,
      match active_keys g s !! (Server.random s `mod` length (active_keys g s))%nat with
      | Some k => inr k
      | None => inl gorm.ErrRecordNotFound
      end) s1) as [_ Hs2];
    fold (select_active_key g) in Hs2;
    destruct (select_active_key g s1) as [[e|apiKey] s2]
  end; [done|]. simpl in Hs2.
  destruct (Decrypt (APIKey.KeyValue apiKey)) as [e|decryptedKey]; [done|].
  destruct (dispatch_outcome (Group.ChannelType group) (UpstreamInfo.URL upstream)
              decryptedKey req s2) as [[err ->] | (r & extract & ->)]; [done|].
  destruct (http_Do r) as [e|resp] eqn:Hdo; [done|].
  destruct (read_reply extract resp) as [e|content] eqn:Hread; [done|].
  simpl. intros [= <-].
  destruct (read_reply_inr extract resp content Hread) as [Hst Hb].
  exists req, r, resp. repeat split; try done. congruence.
Qed.

(** X19.  When the group has no active key (no key at all, or only invalid
    ones), [PlaygroundChat] replies with status 500 and "No active API keys
    available in this group", and sends nothing upstream: an invalid key is
    never used. *)
Theorem PlaygroundChat_no_active_key body s req group s1 upstream rest :
  ShouldBindJSON body = inr req →
  find_group (GroupName req) s = (inr group, s1) →
  Group.Upstreams group = upstream :: rest →
  (∀ k, k ∈ Server.api_keys s → APIKey.GroupID k = Group.ID group →
        APIKey.Status k = KeyStatusInvalid) →
  let out := PlaygroundChat ShouldBindJSON Decrypt http_Do body s in
  out.1 = ReplyError 500 "No active API keys available in this group"
  ∧ Server.sent out.2 = Server.sent s.
Proof.
  intros Hbind Hgroup Hup Hnone out. subst out. unfold PlaygroundChat.
  rewrite Hbind, Hgroup, Hup.
  destruct (lookups_frame _ _ _ _ Hgroup) as (Hk1 & _ & Hs1).
  match goal with |- context [select_active_key ?g s1] =>
    destruct (query_frame (λ s,
      match active_keys g s !! (Server.random s `mod` length (active_keys g s))%nat with
      | Some k => inr k
      | None => inl gorm.ErrRecordNotFound
      end) s1) as [_ Hs2];
    fold (select_active_key g) in Hs2;
    destruct (select_active_key g s1) as [[e|apiKey] s2] eqn:Hsel
  end; simpl in *.
  { split; [done | congruence]. }
  apply select_active_key_active in Hsel as (Hin & Hgid & Hact).
  rewrite Hk1 in Hin. rewrite (Hnone apiKey Hin Hgid) in Hact. discriminate Hact.
Qed.





(** A message as Gemini gets it: a role and one text part. *)
Definition gemini_turn (role text : string) : JSON :=
  JObject [("role", JString role); ("parts", JArray [JObject [("text", JString text)]])].



(** X21.  What the caller sees of a failing upstream: when the one request
    sent is answered with a status other than 200 and a readable body, the
    reply is 500 with "API call failed: API returned status N: " and the
    body; when the body cannot be read, or the request fails at the
    transport, the reply is 500 with that error. *)
Theorem PlaygroundChat_upstream_failure body s r :
  let out := PlaygroundChat ShouldBindJSON Decrypt http_Do body s in
  Server.sent out.2 = (Server.sent s ++ [r])%list →
  (∀ err, http_Do r = inl err → out.1 = ReplyError 500 ("API call failed: " +:+ err))
  ∧ (∀ resp err, http_Do r = inr resp → BodyErr resp = Some err →
       out.1 = ReplyError 500 ("API call failed: " +:+ err))
  ∧ (∀ resp, http_Do r = inr resp → BodyErr resp = None → StatusCode resp ≠ 200 →
       out.1 = ReplyError 500
                 ("API call failed: " +:+ "API returned status "
                    +:+ GoStrings.Itoa (StatusCode resp) +:+ ": " +:+ BodyData resp)).
Proof.
  assert (∀ l : list Request, l ≠ (l ++ [r])%list) as Hgrow.
  { intros l Heq. apply (f_equal length) in Heq. rewrite length_app in Heq.
    simpl in Heq. lia. }
  unfold PlaygroundChat.
  destruct (ShouldBindJSON body) as [e|req]; simpl; [intros Hs0; by apply Hgrow in Hs0|].
  destruct (find_group (GroupName req) s) as [[e|group] s1] eqn:Hgroup.
  { unfold find_group in Hgroup.
    match type of Hgroup with query ?f s = _ =>
      destruct (query_frame f s) as [_ Hs] end.
    rewrite Hgroup in Hs. simpl in *. rewrite Hs. intros Hs0; by apply Hgrow in Hs0. }
  destruct (lookups_frame _ _ _ _ Hgroup) as (_ & _ & Hs1).
  destruct (Group.Upstreams group) as [|upstream rest]; simpl.
  { rewrite Hs1. intros Hs0; by apply Hgrow in Hs0. }
  match goal with |- context [select_active_key ?g s1] =>
    destruct (query_frame (λ s,
      match active_keys g s !! (Server.random s `mod` length (active_keys g s))%nat with
      | Some k => inr k
      | None => inl gorm.ErrRecordNotFound
      end) s1) as [_ Hs2];
    fold (select_active_key g) in Hs2;
    destruct (select_active_key g s1) as [[e|apiKey] s2]
  end; simpl in *.
  { rewrite Hs2, Hs1. intros Hs0; by apply Hgrow in Hs0. }
  destruct (Decrypt (APIKey.KeyValue apiKey)) as [e|decryptedKey]; simpl.
  { rewrite Hs2, Hs1. intros Hs0; by apply Hgrow in Hs0. }
  destruct (dispatch_outcome (Group.ChannelType group) (UpstreamInfo.URL upstream)
              decryptedKey req s2) as [[err ->] | (r' & extract & ->)]; simpl.
  { rewrite Hs2, Hs1. intros Hs0; by apply Hgrow in Hs0. }
  assert ((Server.sent s2 ++ [r'])%list = (Server.sent s ++ [r])%list → r' = r) as Hsame.
  { rewrite Hs2, Hs1. by intros [_ ?]%app_inj_tail. }
  destruct (http_Do r') as [e|resp] eqn:Hdo; simpl.
  - intros Hs0. simpl in Hs0. apply Hsame in Hs0 as <-. rewrite Hdo.
    split; [by intros err [= <-] | split; intros; congruence].
  - destruct (read_reply extract resp) as [e|content] eqn:Hread; simpl.
    + intros Hs0. simpl in Hs0. apply Hsame in Hs0 as <-. rewrite Hdo.
      split; [done | split].
      * intros resp' err [= <-] Hb. unfold read_reply, ReadAll in Hread.
        rewrite Hb in Hread. by injection Hread as <-.
      * intros resp' [= <-] Hb Hst. unfold read_reply, ReadAll in Hread.
        rewrite Hb in Hread. apply Z.eqb_neq in Hst.
        unfold StatusOK in Hread. rewrite Hst in Hread. simpl in Hread.
        by injection Hread as <-.
    + intros Hs0. simpl in Hs0. apply Hsame in Hs0 as <-. rewrite Hdo.
      destruct (read_reply_inr extract resp content Hread) as [Hst Hb].
      split; [done | split].
      * intros resp' err [= <-] Hb'. congruence.
      * intros resp' [= <-] _ Hst'. congruence.
Qed.

End Handlers.

(** *** Concrete runs *)

Lemma PlaygroundChat_success_witness :
  ∃ req r resp,
    play_bind "{}" = inr req
    ∧ RespModel (mkPlaygroundChatResponse "hello" "gpt-4o") = Model req
    ∧ Server.sent (@PlaygroundChat play_env play_bind working_decrypt play_do "{}"
                     play_server).2
      = (Server.sent play_server ++ [r])%list
    ∧ play_do r = inr resp
    ∧ StatusCode resp = 200
    ∧ BodyErr resp = None.
Proof.
  apply (@PlaygroundChat_success play_env play_bind working_decrypt play_do "{}"
           play_server (mkPlaygroundChatResponse "hello" "gpt-4o")).
  vm_compute. reflexivity.
Defined.

Definition revoked_server : Server.t :=
  Server.mk [legacy_group]
    [APIKey.mk 6 1 "old" KeyStatusInvalid; APIKey.mk 8 2 "other" KeyStatusActive] [] 3 [].

Lemma PlaygroundChat_no_active_key_witness :
  let out := @PlaygroundChat play_env play_bind working_decrypt play_do "{}"
               revoked_server in
  out.1 = ReplyError 500 "No active API keys available in this group"
  ∧ Server.sent out.2 = Server.sent revoked_server.
Proof.
  apply (@PlaygroundChat_no_active_key play_env play_bind working_decrypt play_do "{}"
           revoked_server play_request legacy_group revoked_server legacy_upstream []
           eq_refl eq_refl eq_refl).
  intros k Hk Hg.
  repeat (apply elem_of_cons in Hk as [->|Hk]; [first [reflexivity | discriminate Hg]|]).
  by apply elem_of_nil in Hk.
Defined.

Definition limited_do (r : Request) : error + Response :=
  inr (mkResponse 429 "rate limited" None).

Lemma PlaygroundChat_upstream_failure_witness :
  (@PlaygroundChat play_env play_bind working_decrypt limited_do "{}" play_server).1
  = ReplyError 500 "API call failed: API returned status 429: rate limited".
Proof.
  destruct (@PlaygroundChat_upstream_failure play_env play_bind working_decrypt limited_do
              "{}" play_server (openai_chat_request "https://up.example" "sk-plain" "{}"))
    as (_ & _ & Hstatus); [vm_compute; reflexivity|].
  apply (Hstatus (mkResponse 429 "rate limited" None)); [reflexivity | reflexivity | done].
Defined.


(** The Gemini request of the playground: the key is in the URL. *)
Example callGemini_request_example :
  let s := Server.mk [Group.mk 1 "legacy" "gemini" [legacy_upstream] []
                        "" "gemini-1.5-flash"]
                     [stored_key] [] 0 [] in
  Server.sent (@PlaygroundChat play_env play_bind working_decrypt play_do "{}" s).2
  = [mkRequest "POST"
       "https://up.example/v1beta/models/gpt-4o:generateContent?key=sk-plain"
       {[ "Content-Type" := ["application/json"] ]} (Some "{}")].
Proof. vm_compute. reflexivity. Qed.

(** Roles on the way to Gemini. *)
Example gemini_content_example :
  concat (map gemini_content
            [[("role", JString "system"); ("content", JString "be brief")];
             [("role", JString "assistant"); ("content", JString "ok")];
             [("role", JString "user"); ("content", JArray [])]])
  = [gemini_turn "user" "be brief"; gemini_turn "model" "ok"].
Proof. reflexivity. Qed.

(** The Anthropic answer of the specification. *)
Example extract_anthropic_example :
  extract_anthropic
    [("content", JArray [JObject [("type", JString "text"); ("text", JString "hello")]])]
  = Some "hello"
  ∧ extract_anthropic [("content", JArray [])] = None.
Proof. split; reflexivity. Qed.

End PlaygroundMoreFacts.

(** * Further properties of the metrics *)

Module MetricsFacts.
Import prometheus PrometheusFacts prometheus_middleware.






(** [Init] is not atomic: the series before the conflicting one stay. *)
Example Init_partial :
  Init [mkCollector Histogram "http_request_size_bytes" "size" ["method"]]
  = (Some ("failed to register Prometheus metric: "
             +:+ "a previously registered descriptor with the same fully-qualified name as "
             +:+ "http_request_size_bytes"
             +:+ " has different label names or a different help string"),
     [mkCollector Histogram "http_request_size_bytes" "size" ["method"];
      httpRequestsTotal; httpRequestDuration]).
Proof. vm_compute. reflexivity. Qed.

Section Record_.
Variable float64_of_int64 : Z → float64.

(** X23.  Every call of [RecordHTTPRequest] adds one to the counter of its
    (method, endpoint, status) and one observation, the duration, to the
    duration histogram of that label tuple, whatever the sizes.  Counters of
    other tuples are not touched; in particular two different status codes
    never share a counter. *)
Theorem RecordHTTPRequest_counts method endpoint status duration reqSize respSize m :
  let m' := RecordHTTPRequest float64_of_int64 method endpoint status duration
              reqSize respSize m in
  let labels := [method; endpoint; GoStrings.Itoa status] in
  default 0 (m_httpRequestsTotal m' !! labels)
  = default 0 (m_httpRequestsTotal m !! labels) + 1
  ∧ observations (m_httpRequestDuration m') labels
    = (observations (m_httpRequestDuration m) labels ++ [duration])%list
  ∧ (∀ other, other ≠ labels →
       m_httpRequestsTotal m' !! other = m_httpRequestsTotal m !! other
       ∧ observations (m_httpRequestDuration m') other
         = observations (m_httpRequestDuration m) other)
  ∧ (∀ status', status' ≠ status →
       m_httpRequestsTotal m' !! [method; endpoint; GoStrings.Itoa status']
       = m_httpRequestsTotal m !! [method; endpoint; GoStrings.Itoa status']).
Proof.
  unfold RecordHTTPRequest, Inc. simpl.
  split; [by rewrite lookup_insert_eq|].
  split; [apply observations_Observe|].
  split.
  - intros other Hne. split; [by rewrite lookup_insert_ne|].
    by apply observations_Observe_ne.
  - intros status' Hne. rewrite lookup_insert_ne; [done|].
    intros [= Heq]. unfold GoStrings.Itoa in Heq. by apply (inj pretty) in Heq.
Qed.

Lemma header_size_nonneg h : 0 ≤ header_size h.
Proof.
  unfold header_size, len. induction (map_to_list h) as [|[name values] l IH]; simpl; [done|].
  assert (0 ≤ foldr (λ value a, a + Z.of_nat (String.length value)) 0 values).
  { induction values as [|v vs IHv]; simpl; lia. }
  lia.
Qed.

(** The estimate before it is cut to [int64]. *)
Definition request_size_sum (r : HTTPRequest) : Z :=
  match URLPath r with Some path => len path | None => 0 end
  + len (ReqMethod r) + len (Proto r) + header_size (Header r) + len (Host r)
  + (if ContentLength r =? -1 then 0 else ContentLength r).

Lemma computeApproximateRequestSize_sum r :
  computeApproximateRequestSize r = wrap64 (request_size_sum r).
Proof.
  unfold computeApproximateRequestSize, request_size_sum.
  destruct (ContentLength r =? -1); simpl; f_equal; lia.
Qed.

(** X24.  What the middleware records.  The endpoint label is the matched
    route, or "unknown" when no route matched, never the raw path.  A
    response of which nothing was written (size -1) or of size 0 gives no
    response-size observation, a larger one gives one.  The request-size
    histogram gets one observation whenever the method is not empty, the
    content length is unknown (-1) or not negative, and the estimate fits
    [int64]. *)
Theorem Middleware_records r fullPath status size duration m :
  let m' := Middleware float64_of_int64 r fullPath status size duration m in
  let endpoint := if String.eqb fullPath "" then "unknown" else fullPath in
  m' = RecordHTTPRequest float64_of_int64 (ReqMethod r) endpoint status duration
         (computeApproximateRequestSize r) size m
  ∧ (size ≤ 0 → m_httpResponseSize m' = m_httpResponseSize m)
  ∧ (0 < size →
       observations (m_httpResponseSize m') [ReqMethod r; endpoint]
       = (observations (m_httpResponseSize m) [ReqMethod r; endpoint]
          ++ [float64_of_int64 size])%list)
  ∧ (ReqMethod r ≠ "" → -1 ≤ ContentLength r → request_size_sum r < 2^63 →
       0 < computeApproximateRequestSize r
       ∧ observations (m_httpRequestSize m') [ReqMethod r; endpoint]
         = (observations (m_httpRequestSize m) [ReqMethod r; endpoint]
            ++ [float64_of_int64 (computeApproximateRequestSize r)])%list).
Proof.
  unfold Middleware, unknownEndpoint, RecordHTTPRequest. simpl.
  split; [|split; [|split]].
  - f_equal. destruct (Z.gtb_spec (Z.max 0 size) 0), (Z.gtb_spec size 0);
      try lia; try done. by rewrite Z.max_r by lia.
  - intros Hle. destruct (Z.gtb_spec (Z.max 0 size) 0); [lia | done].
  - intros Hpos. destruct (Z.gtb_spec (Z.max 0 size) 0); [|lia].
    rewrite Z.max_r by lia. apply observations_Observe.
  - intros Hmethod Hcl Hfit.
    assert (0 < request_size_sum r) as Hpos.
    { unfold request_size_sum.
      pose proof (header_size_nonneg (Header r)).
      assert (0 < len (ReqMethod r)).
      { unfold len. destruct (ReqMethod r); [done | simpl; lia]. }
      assert (0 ≤ len (Proto r) ∧ 0 ≤ len (Host r)) as [? ?] by (unfold len; lia).
      assert (0 ≤ match URLPath r with Some path => len path | None => 0 end).
      { destruct (URLPath r); unfold len; lia. }
      destruct (Z.eqb_spec (ContentLength r) (-1)); lia. }
    assert (computeApproximateRequestSize r = request_size_sum r) as Heq.
    { rewrite computeApproximateRequestSize_sum. unfold wrap64.
      rewrite Z.mod_small by lia. lia. }
    split; [lia|].
    destruct (Z.gtb_spec (computeApproximateRequestSize r) 0); [|lia].
    apply observations_Observe.
Qed.

End Record_.

(** *** Concrete runs *)

Definition probe_http_request : HTTPRequest :=
  mkHTTPRequest (Some "/api/secret/42") "GET" "HTTP/1.1"
    {[ "Accept" := ["*/*"]; "X-Trace" := ["a"; "bc"] ]} "localhost:3001" (-1).

Example computeApproximateRequestSize_example :
  computeApproximateRequestSize probe_http_request = 14 + 3 + 8 + (6 + 3 + 7 + 3) + 14.
Proof. vm_compute. reflexivity. Qed.

Lemma Middleware_records_witness :
  let m' := Middleware sample_float probe_http_request "" 404 (-1)
              (Float64frombits 0) empty_metrics in
  0 < computeApproximateRequestSize probe_http_request
  ∧ observations (m_httpRequestSize m') ["GET"; "unknown"]
    = [sample_float (computeApproximateRequestSize probe_http_request)].
Proof.
  intros m'.
  destruct (Middleware_records sample_float probe_http_request "" 404 (-1)
              (Float64frombits 0) empty_metrics) as (_ & _ & _ & Hreq).
  apply Hreq; [discriminate | vm_compute; discriminate | vm_compute; reflexivity].
Defined.

(** An unmatched route is counted under "unknown", with its status. *)
Example Middleware_unknown_route :
  m_httpRequestsTotal
    (Middleware sample_float probe_http_request "" 404 (-1) (Float64frombits 0)
       empty_metrics)
  = {[ ["GET"; "unknown"; "404"] := 1 ]}.
Proof. vm_compute. reflexivity. Qed.


End MetricsFacts.
